(** * Sliding-window prediction utilities (utils/pred.py)

    A shallow embedding of the window partitioner, the streaming window
    source, the random-access tile source and the weighted accumulator of
    [utils/pred.py], together with the properties stated about them.

    Conventions.
    - Python integers are [Z]; [//] is [Z.div] (both round towards minus
      infinity) and [int(np.ceil(a / b))] is the exact ceiling of the
      quotient, which is what the float computation yields for raster sizes
      (far below 2^26).
    - A raised exception is [inl e], a normal return is [inr v].
    - Methods that mutate [self] take the object and return the new object
      next to the outcome, so a state that was modified before an exception
      was raised stays visible. *)

From Stdlib Require Import ZArith List Lia Bool Permutation Reals.
Import ListNotations.
Open Scope Z_scope.

(** ** Exceptions and outcomes *)

Inductive exn : Type :=
| ZeroDivisionError
| AssertionError
| AttributeError
| IndexError
| ValueError.

Definition outcome (A : Type) : Type := (exn + A)%type.

Definition ok {A} (a : A) : outcome A := inr a.
Definition raise {A} (e : exn) : outcome A := inl e.

Definition bind {A B} (r : outcome A) (k : A -> outcome B) : outcome B :=
  match r with
  | inl e => inl e
  | inr a => k a
  end.

Notation "x <- r ;; k" := (bind r (fun x => k))
  (at level 61, r at next level, right associativity).

(** ** Python helpers *)

(** [range(n)]: empty when [n <= 0]. *)
Definition range (n : Z) : list Z := map Z.of_nat (seq 0 (Z.to_nat n)).

(** [int(np.ceil(a / b))] on integers [a], [b]. *)
Definition int_ceil_div (a b : Z) : outcome Z :=
  if b =? 0 then raise ZeroDivisionError else ok (- ((- a) / b)).

(** Bounds of the slice [l[start:stop]] of a sequence of length [len]:
    a negative bound counts from the end, and both are clipped to
    [0..len]. *)
Definition slice_bound (len i : Z) : Z :=
  if i <? 0 then Z.max 0 (i + len) else Z.min i len.

Definition slice {A} (start stop : Z) (l : list A) : list A :=
  let len := Z.of_nat (length l) in
  let lo := slice_bound len start in
  let hi := slice_bound len stop in
  firstn (Z.to_nat (hi - lo)) (skipn (Z.to_nat lo) l).

(** [l[i]] with Python's negative indices; [None] stands for IndexError. *)
Definition index {A} (l : list A) (i : Z) : option A :=
  let len := Z.of_nat (length l) in
  if i <? 0
  then (if i + len <? 0 then None else nth_error l (Z.to_nat (i + len)))
  else nth_error l (Z.to_nat i).

(** [f] applied to every element together with its position, counted from [k]. *)
Fixpoint mapi_from {A B} (k : Z) (f : Z -> A -> B) (l : list A) : list B :=
  match l with
  | [] => []
  | a :: l' => f k a :: mapi_from (k + 1) f l'
  end.

Definition mapi {A B} (f : Z -> A -> B) (l : list A) : list B := mapi_from 0 f l.

(** ** Windows *)

(** A window is the four-element list [[y1, y2, x1, x2]] of the source. *)
Record window : Type := Win { wy1 : Z; wy2 : Z; wx1 : Z; wx2 : Z }.

(** The "create windows" loops shared by [RSImageSlideWindowManager.__init__]
    (lines 36-44) and, with a content test, by
    [ImageDataset._get_tile_coordinates].  [skip dh dw] is the test that makes
    the inner loop [continue]. *)
Definition window_loops (skip : Z -> Z -> bool)
    (img_h img_w window_sz stride n_h n_w : Z) : list window :=
  fold_left
    (fun windows i =>
       let dh := Z.min (i * stride) (img_h - window_sz) in
       fold_left
         (fun windows j =>
            let dw := Z.min (j * stride) (img_w - window_sz) in
            if skip dh dw then windows
            else windows ++ [Win dh (dh + window_sz) dw (dw + window_sz)])
         (range n_w) windows)
    (range n_h) [].

Definition create_windows (img_h img_w window_sz overlap : Z) : outcome (list window) :=
  let stride := window_sz - overlap in
  c_h <- int_ceil_div (img_h - window_sz) stride ;;
  let n_h := c_h + 1 in
  c_w <- int_ceil_div (img_w - window_sz) stride ;;
  let n_w := c_w + 1 in
  ok (window_loops (fun _ _ => false) img_h img_w window_sz stride n_h n_w).

(** The properties a window grid over the extent [H x W] is said to have:
    every window is a [T x T] square inside the extent, and a pixel lies in
    the extent exactly when some window contains it. *)
Definition in_window (w : window) (y x : Z) : Prop :=
  wy1 w <= y < wy2 w /\ wx1 w <= x < wx2 w.

Definition window_in_extent (H W T : Z) (w : window) : Prop :=
  wy2 w - wy1 w = T /\ wx2 w - wx1 w = T /\
  0 <= wy1 w /\ 0 <= wy2 w <= H /\ 0 <= wx1 w /\ 0 <= wx2 w <= W.

Definition covers_exactly (H W : Z) (ws : list window) : Prop :=
  forall y x, (0 <= y < H /\ 0 <= x < W) <-> (exists w, In w ws /\ in_window w y x).

Definition grid_ok (H W T : Z) (ws : list window) : Prop :=
  Forall (window_in_extent H W T) ws /\ covers_exactly H W ws.

(** The grid positions [(i, j)] in the order the two loops visit them. *)
Definition grid_cells (n_h n_w : Z) : list (Z * Z) :=
  flat_map (fun i => map (pair i) (range n_w)) (range n_h).

Definition origin (extent window_sz stride i : Z) : Z :=
  Z.min (i * stride) (extent - window_sz).

Definition tile (img_h img_w window_sz stride : Z) (c : Z * Z) : window :=
  let dh := origin img_h window_sz stride (fst c) in
  let dw := origin img_w window_sz stride (snd c) in
  Win dh (dh + window_sz) dw (dw + window_sz).

(** ** Methods that mutate their object

    A method is a function from the object to the object it leaves behind
    and its outcome. *)

Definition M (S A : Type) : Type := S -> S * outcome A.

Definition ret {S A} (a : A) : M S A := fun s => (s, ok a).
Definition throw {S A} (e : exn) : M S A := fun s => (s, raise e).
Definition get {S} : M S S := fun s => (s, ok s).
Definition put {S} (s' : S) : M S unit := fun _ => (s', ok tt).

Definition bindM {S A B} (m : M S A) (k : A -> M S B) : M S B :=
  fun s =>
    match m s with
    | (s', inl e) => (s', inl e)
    | (s', inr a) => k a s'
    end.

Notation "x <~ m ;; k" := (bindM m (fun x => k))
  (at level 61, m at next level, right associativity).
Notation "m ;;; k" := (bindM m (fun _ => k))
  (at level 61, right associativity).

(** [lift r]: the outcome of a computation that does not touch the object. *)
Definition lift {S A} (r : outcome A) : M S A := fun s => (s, r).

(** [for x in l: body(x)]; an exception leaves the loop at once. *)
Fixpoint for_each {S X} (l : list X) (body : X -> M S unit) : M S unit :=
  match l with
  | [] => ret tt
  | x :: l' => body x ;;; for_each l' body
  end.

Definition of_option {A} (e : exn) (o : option A) : outcome A :=
  match o with
  | Some a => ok a
  | None => raise e
  end.

(** ** The raster collaborator

    A dataset has [RasterXSize] columns, [RasterYSize] rows and a list of
    bands, each a list of rows of pixels. *)

Definition band : Type := list (list Z).

Record raster : Type := Raster {
  RasterXSize : Z;
  RasterYSize : Z;
  raster_bands : list band
}.

(** What [ReadAsArray] hands back: a 2-D array for a single-band dataset and
    a (bands, rows, columns) array otherwise. *)
Inductive ndblock : Type :=
| Block2 (a : list (list Z))
| Block3 (a : list (list (list Z))).

Definition crop2 {A} (y1 y2 x1 x2 : Z) (m : list (list A)) : list (list A) :=
  map (slice x1 x2) (slice y1 y2 m).

(** [ReadAsArray(xoff, yoff, xsize, ysize)]; a request that leaves the raster
    is refused and [None] is returned. *)
Definition ReadAsArray (r : raster) (xoff yoff xsize ysize : Z) : option ndblock :=
  if (0 <=? xoff) && (0 <=? yoff) && (1 <=? xsize) && (1 <=? ysize)
     && (xoff + xsize <=? RasterXSize r) && (yoff + ysize <=? RasterYSize r)
  then
    let cut := crop2 yoff (yoff + ysize) xoff (xoff + xsize) in
    match raster_bands r with
    | [b] => Some (Block2 (cut b))
    | bs => Some (Block3 (map cut bs))
    end
  else None.

Definition list_max (l : list Z) : option Z :=
  match l with
  | [] => None
  | a :: l' => Some (fold_left Z.max l' a)
  end.

Definition block_pixels (b : ndblock) : list Z :=
  match b with
  | Block2 a => concat a
  | Block3 a => concat (map (@concat Z) a)
  end.

(** [im_data.max()]; [None] for an array without elements. *)
Definition block_max (b : ndblock) : option Z := list_max (block_pixels b).

Definition astype_uint8 (a : list (list (list Z))) : list (list (list Z)) :=
  map (map (map (fun v => v mod 256))) a.

Definition nth2 {A} (m : list (list A)) (y x : Z) : option A :=
  if (y <? 0) || (x <? 0) then None
  else match nth_error m (Z.to_nat y) with
       | Some row => nth_error row (Z.to_nat x)
       | None => None
       end.

(** The pixels of [old] with [block] laid over them at column [xoff],
    row [yoff]. *)
Definition overlay (block : list (list Z)) (xoff yoff : Z) (old : band) : band :=
  mapi (fun y row =>
          mapi (fun x v =>
                  match nth2 block (y - yoff) (x - xoff) with
                  | Some p => p
                  | None => v
                  end) row) old.

(** [band.WriteArray(block, xoff, yoff)] on a band of a raster of extent
    [xs] by [ys]: a block that passes the right or bottom edge raises
    ValueError; a negative offset is refused by the driver and nothing is
    written. *)
Definition WriteArray (xs ys : Z) (block : list (list Z)) (xoff yoff : Z)
    (old : band) : outcome band :=
  let ysize := Z.of_nat (length block) in
  let xsize := Z.of_nat (length (hd [] block)) in
  if (xsize + xoff >? xs) || (ysize + yoff >? ys) then raise ValueError
  else if (xoff <? 0) || (yoff <? 0) then ok old
  else ok (overlay block xoff yoff old).

Fixpoint set_nth {A} (n : nat) (a : A) (l : list A) : list A :=
  match l, n with
  | [], _ => []
  | _ :: l', O => a :: l'
  | b :: l', S n' => b :: set_nth n' a l'
  end.

(** [m] has [h] rows of [w] elements. *)
Definition has_shape2 {A} (h w : Z) (m : list (list A)) : Prop :=
  Z.of_nat (length m) = h /\ Forall (fun row => Z.of_nat (length row) = w) m.

(** [a[b][y][x]], [None] outside the array. *)
Definition nth3 {A} (a : list (list (list A))) (b y x : Z) : option A :=
  if b <? 0 then None
  else match nth_error a (Z.to_nat b) with
       | Some m => nth2 m y x
       | None => None
       end.

(** The trim on one side of a window: nothing on a side that touches the
    boundary of the raster, half the overlap otherwise. *)
Definition trim (touches_boundary : bool) (overlap : Z) : Z :=
  if touches_boundary then 0 else overlap / 2.

(** Rewriting the bands [0 .. n-1] one after the other. *)
Definition band_step (phi : Z -> band -> band) (bands : list band) (i : Z) : list band :=
  set_nth (Z.to_nat i) (phi i (nth (Z.to_nat i) bands [])) bands.

(** The plane [result[b]], empty when there is none. *)
Definition result_plane (result : list (list (list Z))) (b : Z) : list (list Z) :=
  match index result b with
  | Some plane => plane
  | None => []
  end.

(** Every band of the raster has [RasterYSize] rows of [RasterXSize] pixels. *)
Definition raster_ok (r : raster) : Prop :=
  Forall (has_shape2 (RasterYSize r) (RasterXSize r)) (raster_bands r).

(** The pixel [(y, x)] lies in the trimmed interior of [w], for an overlap
    [O] in a raster of [H] rows and [W] columns. *)
Definition kept_in (O H W : Z) (w : window) (y x : Z) : Prop :=
  wy1 w + trim (wy1 w =? 0) O <= y < wy2 w - trim (wy2 w =? H) O /\
  wx1 w + trim (wx1 w =? 0) O <= x < wx2 w - trim (wx2 w =? W) O.

(** ** RSImageSlideWindowManager *)

Module RSImageSlideWindowManager.

Record t : Type := Make {
  window_sz : Z;
  overlap : Z;
  in_raster : raster;
  img_w : Z;
  img_h : Z;
  out_bands : Z;
  out_raster : raster;
  windows : list window;
  window_i : Z
}.

(** [driver.Create(out_raster, img_w, img_h, out_bands, GDT_Byte)]: a raster
    of zeros. *)
Definition Create (w h n : Z) : raster :=
  Raster w h (repeat (repeat (repeat 0 (Z.to_nat w)) (Z.to_nat h)) (Z.to_nat n)).

(** [__init__], with the opened input raster in place of its path. *)
Definition init (in_raster : raster) (out_bands window_sz overlap : Z) : outcome t :=
  let img_w := RasterXSize in_raster in
  let img_h := RasterYSize in_raster in
  let out := Create img_w img_h out_bands in
  ws <- create_windows img_h img_w window_sz overlap ;;
  ok (Make window_sz overlap in_raster img_w img_h out_bands out ws 0).

Definition len (self : t) : Z := Z.of_nat (length (windows self)).

Definition set_window_i (self : t) (i : Z) : t :=
  Make (window_sz self) (overlap self) (in_raster self) (img_w self) (img_h self)
       (out_bands self) (out_raster self) (windows self) i.

Definition set_out_raster (self : t) (r : raster) : t :=
  Make (window_sz self) (overlap self) (in_raster self) (img_w self) (img_h self)
       (out_bands self) r (windows self) (window_i self).

(** [get_next]: [None] at the end of the sequence, otherwise the block of
    the current window as unsigned bytes. *)
Definition get_next : M t (option (list (list (list Z)))) :=
  self <~ get ;;
  if window_i self =? len self then ret None
  else
    w <~ lift (of_option IndexError (index (windows self) (window_i self))) ;;
    im_data <~ lift (of_option AttributeError
                 (ReadAsArray (in_raster self) (wx1 w) (wy1 w)
                              (window_sz self) (window_sz self))) ;;
    m <~ lift (of_option ValueError (block_max im_data)) ;;
    if m <=? 256 then
      let im3 := match im_data with
                 | Block2 a => [a]
                 | Block3 a => a
                 end in
      put (set_window_i self (window_i self + 1)) ;;;
      ret (Some (astype_uint8 im3))
    else throw AssertionError.

(** The trim amounts [(dy1, dy2, dx1, dx2)] of [fit_result] for a window. *)
Definition trims (self : t) (w : window) : Z * Z * Z * Z :=
  let dy1 := if wy1 w =? 0 then 0 else overlap self / 2 in
  let dy2 := if wy2 w =? img_h self then 0 else overlap self / 2 in
  let dx1 := if wx1 w =? 0 then 0 else overlap self / 2 in
  let dx2 := if wx2 w =? img_w self then 0 else overlap self / 2 in
  (dy1, dy2, dx1, dx2).

(** One turn of the band loop of [fit_result]: [GetRasterBand(i + 1)] gives
    nothing for a band the raster does not have, then [result[i, ...]] is
    sliced, then the block is written. *)
Definition write_band (result : list (list (list Z))) (w : window)
    (dy1 dy2 dx1 dx2 : Z) (i : Z) : M t unit :=
  self <~ get ;;
  let out := out_raster self in
  old <~ lift (of_option AttributeError (nth_error (raster_bands out) (Z.to_nat i))) ;;
  plane <~ lift (of_option IndexError (index result i)) ;;
  let block := crop2 dy1 (window_sz self - dy2) dx1 (window_sz self - dx2) plane in
  new <~ lift (WriteArray (RasterXSize out) (RasterYSize out) block
                          (wx1 w + dx1) (wy1 w + dy1) old) ;;
  put (set_out_raster self
         (Raster (RasterXSize out) (RasterYSize out)
                 (set_nth (Z.to_nat i) new (raster_bands out)))).

Definition fit_result (result : list (list (list Z))) : M t unit :=
  self <~ get ;;
  let index_ := window_i self - 1 in
  w <~ lift (of_option IndexError (index (windows self) index_)) ;;
  let '(dy1, dy2, dx1, dx2) := trims self w in
  for_each (range (out_bands self)) (write_band result w dy1 dy2 dx1 dx2).

(** *** The intended use of [fit_result] and what it leaves behind *)

(** [fit_result] is called for the window [w] last returned by [get_next]:
    [w] lies in the extent, the overlap is below the window size, the output
    raster has the extent and the band count of the manager, and [result]
    has at least [out_bands] planes of [window_sz] by [window_sz] pixels. *)
Definition fit_ready (self : t) (result : list (list (list Z))) (w : window) : Prop :=
  index (windows self) (window_i self - 1) = Some w /\
  window_in_extent (img_h self) (img_w self) (window_sz self) w /\
  0 <= overlap self < window_sz self /\
  RasterXSize (out_raster self) = img_w self /\
  RasterYSize (out_raster self) = img_h self /\
  Z.of_nat (length (raster_bands (out_raster self))) = out_bands self /\
  out_bands self <= Z.of_nat (length result) /\
  Forall (has_shape2 (window_sz self) (window_sz self)) result.

(** The block written to band [b] by [fit_result] and the bands it leaves. *)
Definition fit_block (self : t) (result : list (list (list Z))) (w : window) (b : Z)
    : list (list Z) :=
  let '(dy1, dy2, dx1, dx2) := trims self w in
  crop2 dy1 (window_sz self - dy2) dx1 (window_sz self - dx2) (result_plane result b).

Definition fit_bands (self : t) (result : list (list (list Z))) (w : window) : list band :=
  let '(dy1, dy2, dx1, dx2) := trims self w in
  mapi (fun b old =>
          if b <? out_bands self
          then overlay (fit_block self result w b) (wx1 w + dx1) (wy1 w + dy1) old
          else old)
       (raster_bands (out_raster self)).

(** The pixel [(y, x)] lies in the part of the window [w] that [fit_result]
    writes. *)
Definition kept (self : t) (w : window) (y x : Z) : Prop :=
  let '(dy1, dy2, dx1, dx2) := trims self w in
  wy1 w + dy1 <= y < wy2 w - dy2 /\ wx1 w + dx1 <= x < wx2 w - dx2.

(** One turn of the loop of the module's driver (lines 248-251):
    [img = G.get_next(); print(img.shape); G.fit_result(img)].  When
    [get_next] returned [None], [img.shape] raises AttributeError. *)
Definition copy_step : M t unit :=
  img <~ get_next ;;
  match img with
  | Some a => fit_result a
  | None => throw AttributeError
  end.

(** [for i in range(len(G)): ...] with that body. *)
Definition copy_through : M t unit :=
  self <~ get ;;
  for_each (range (len self)) (fun _ => copy_step).

(** The manager is fit for the loop: a valid overlap, windows inside the
    extent, a well-shaped input raster of the manager's extent with at least
    one band and at least [out_bands] of them, and no pixel above 256. *)
Definition copy_ready (s0 : t) : Prop :=
  0 <= overlap s0 < window_sz s0 /\
  Forall (window_in_extent (img_h s0) (img_w s0) (window_sz s0)) (windows s0) /\
  raster_ok (in_raster s0) /\
  RasterXSize (in_raster s0) = img_w s0 /\
  RasterYSize (in_raster s0) = img_h s0 /\
  raster_bands (in_raster s0) <> [] /\
  0 <= out_bands s0 <= Z.of_nat (length (raster_bands (in_raster s0))) /\
  (forall b y x v, nth3 (raster_bands (in_raster s0)) b y x = Some v -> v <= 256).

(** The state [s] after [k] turns of the loop started in [s0]: only the
    cursor and the output pixels have changed, and every output pixel in
    the trimmed interior of one of the first [k] windows holds the input
    pixel modulo 256. *)
Definition copied_so_far (s0 : t) (k : nat) (s : t) : Prop :=
  window_sz s = window_sz s0 /\ overlap s = overlap s0 /\ in_raster s = in_raster s0 /\
  img_w s = img_w s0 /\ img_h s = img_h s0 /\ out_bands s = out_bands s0 /\
  windows s = windows s0 /\ window_i s = Z.of_nat k /\
  RasterXSize (out_raster s) = img_w s0 /\ RasterYSize (out_raster s) = img_h s0 /\
  Z.of_nat (length (raster_bands (out_raster s))) = out_bands s0 /\
  forall b y x, 0 <= b < out_bands s0 -> 0 <= y < img_h s0 -> 0 <= x < img_w s0 ->
    exists v, nth3 (raster_bands (out_raster s)) b y x = Some v /\
      ((exists j w, (j < k)%nat /\ nth_error (windows s0) j = Some w /\ kept s0 w y x) ->
       Some v = option_map (fun p => p mod 256)
                           (nth3 (raster_bands (in_raster s0)) b y x)).

End RSImageSlideWindowManager.

(** A 6 by 6 single-band raster and a 4 by 4 result plane of sevens. *)
Definition demo_raster : raster :=
  Raster 6 6 [[[1; 2; 3; 4; 5; 6]; [7; 8; 9; 10; 11; 12]; [13; 14; 15; 16; 17; 18];
               [19; 20; 21; 22; 23; 24]; [25; 26; 27; 28; 29; 30]; [31; 32; 33; 34; 35; 36]]].

Definition demo_result : list (list (list Z)) :=
  [[[7; 7; 7; 7]; [7; 7; 7; 7]; [7; 7; 7; 7]; [7; 7; 7; 7]]].

(** ** ImageDataset *)

Module ImageDataset.

(** An in-memory image of shape (rows, columns, channels). *)
Record image : Type := Image {
  im_h : Z;
  im_w : Z;
  im_c : Z;
  im_data : list (list (list Z))
}.

Definition sum_list (l : list Z) : Z := fold_left Z.add l 0.

(** [np.sum(image[y1:y2, x1:x2, :])]. *)
Definition region_sum (im : image) (y1 y2 x1 x2 : Z) : Z :=
  sum_list (map (fun row => sum_list (map sum_list row))
                (crop2 y1 y2 x1 x2 (im_data im))).

(** [np.transpose(im_data, (1, 2, 0))] of an array given as
    (channels, rows, columns). *)
Definition transpose_120 (c h w : Z) (a : list (list (list Z))) : image :=
  Image h w c
    (map (fun y =>
       map (fun x =>
         map (fun ch => nth (Z.to_nat x) (nth (Z.to_nat y) (nth (Z.to_nat ch) a []) []) 0)
             (range c))
         (range w))
       (range h)).

Record t : Type := Make {
  image_ : image;
  tile_size : Z;
  overlap : Z;
  tile_coords : list window
}.

(** The content test of the inner loop: the tile at [(dh, dw)] sums to zero. *)
Definition empty_tile (im : image) (tile_size dh dw : Z) : bool :=
  region_sum im dh (dh + tile_size) dw (dw + tile_size) =? 0.

Definition _get_tile_coordinates (tile_size overlap : Z) (im : image)
    : outcome (list window) :=
  let stride := tile_size - overlap in
  let img_h := im_h im in
  let img_w := im_w im in
  c_h <- int_ceil_div (img_h - tile_size) stride ;;
  let n_h := c_h + 1 in
  c_w <- int_ceil_div (img_w - tile_size) stride ;;
  let n_w := c_w + 1 in
  ok (window_loops (empty_tile im tile_size) img_h img_w tile_size stride n_h n_w).

(** [__init__] for an image already laid out as (rows, columns, channels);
    the per-tile transform plays no part in the tile list and is left out. *)
Definition init (im : image) (tile_size overlap : Z) : outcome t :=
  coords <- _get_tile_coordinates tile_size overlap im ;;
  ok (Make im tile_size overlap coords).

(** [__init__] with [channel_first=True]. *)
Definition init_channel_first (c h w : Z) (a : list (list (list Z)))
    (tile_size overlap : Z) : outcome t :=
  init (transpose_120 c h w a) tile_size overlap.

(** [__len__]. *)
Definition len (self : t) : Z := Z.of_nat (length (tile_coords self)).

(** [__getitem__]: the tile of the image under the [i]-th kept window, passed
    through the caller's transform, together with the window. *)
Definition __getitem__ {T} (transform : list (list (list Z)) -> T) (self : t) (i : Z)
    : outcome (T * window) :=
  w <- of_option IndexError (index (tile_coords self) i) ;;
  let tile := crop2 (wy1 w) (wy2 w) (wx1 w) (wx2 w) (im_data (image_ self)) in
  ok (transform tile, w).

(** The image data has [im_h] rows of [im_w] pixels. *)
Definition image_ok (im : image) : Prop := has_shape2 (im_h im) (im_w im) (im_data im).

(** No channel of any pixel is negative. *)
Definition nonnegative (im : image) : Prop :=
  Forall (Forall (Forall (fun v => 0 <= v))) (im_data im).

(** [np.sum] of a tile. *)
Definition tile_sum (tile : list (list (list Z))) : Z :=
  sum_list (map (fun row => sum_list (map sum_list row)) tile).

End ImageDataset.

(** The pixels of the image under a window do not sum to zero. *)
Definition nonzero_window (im : ImageDataset.image) (w : window) : bool :=
  negb (ImageDataset.region_sum im (wy1 w) (wy2 w) (wx1 w) (wx2 w) =? 0).

(** ** The patch weight kernel

    [scipy.ndimage.distance_transform_edt] gives every non-zero cell its
    Euclidean distance to the nearest zero cell and leaves zero cells at 0.
    The squared distance is an integer and is computed exactly; the distance
    itself is its square root, taken in the number type of the buffers. *)

(** [np.ones((rows, cols))]. *)
Definition ones (rows cols : Z) : list (list Z) :=
  repeat (repeat 1 (Z.to_nat cols)) (Z.to_nat rows).

Definition norm_index (len i : Z) : Z := if i <? 0 then i + len else i.

(** [a[i, :] = 0] on an array with [rows] rows. *)
Definition zero_row (rows i : Z) (a : list (list Z)) : outcome (list (list Z)) :=
  let k := norm_index rows i in
  if (0 <=? k) && (k <? rows)
  then ok (mapi (fun y row => if y =? k then map (fun _ => 0) row else row) a)
  else raise IndexError.

(** [a[:, j] = 0] on an array with [cols] columns. *)
Definition zero_col (cols j : Z) (a : list (list Z)) : outcome (list (list Z)) :=
  let k := norm_index cols j in
  if (0 <=? k) && (k <? cols)
  then ok (map (mapi (fun x v => if x =? k then 0 else v)) a)
  else raise IndexError.

(** The coordinates of the zero cells, row by row. *)
Definition zero_cells (a : list (list Z)) : list (Z * Z) :=
  concat (mapi (fun r row =>
                  concat (mapi (fun c v => if v =? 0 then [(r, c)] else []) row)) a).

Definition list_min (l : list Z) : Z :=
  match l with
  | [] => 0
  | d :: l' => fold_left Z.min l' d
  end.

Definition sq_dist (y x : Z) (p : Z * Z) : Z :=
  (y - fst p) * (y - fst p) + (x - snd p) * (x - snd p).

(** The square of [distance_transform_edt]. *)
Definition edt_sq (a : list (list Z)) : list (list Z) :=
  let zs := zero_cells a in
  mapi (fun y row =>
          mapi (fun x v => if v =? 0 then 0 else list_min (map (sq_dist y x) zs)) row) a.

(** Lines 131-135: the ones matrix with its one-pixel border zeroed. *)
Definition bordered_ones (patch_height patch_width : Z) : outcome (list (list Z)) :=
  let rows := patch_height + 2 in
  let cols := patch_width + 2 in
  if (rows <? 0) || (cols <? 0) then raise ValueError
  else
    a1 <- zero_row rows 0 (ones rows cols) ;;
    a2 <- zero_row rows (-1) a1 ;;
    a3 <- zero_col cols 0 a2 ;;
    zero_col cols (-1) a3.

(** Lines 136-137 without the leading axis: the squared kernel
    [distance_transform_edt(patch_weights)[1:-1, 1:-1] ** 2]. *)
Definition kernel_sq (patch_height patch_width : Z) : outcome (list (list Z)) :=
  a <- bordered_ones patch_height patch_width ;;
  ok (crop2 1 (-1) 1 (-1) (edt_sq a)).

(** The cell [(y, x)] of the bordered ones matrix with [rows] rows and
    [cols] columns. *)
Definition border_cell (rows cols y x : Z) : Z :=
  if (y =? 0) || (y =? rows - 1) || (x =? 0) || (x =? cols - 1) then 0 else 1.

(** The square root of an integer as a real number: the distance whose
    square is [n]. *)
Definition sqrtZ (n : Z) : R := sqrt (IZR n).

(** ** WeightedPredictManager *)

Module WeightedPredictManager.

Section Accumulator.

(** The numbers held by the buffers, with exact arithmetic; [fsqrt n] is the
    square root of the integer [n]. *)
Variable F : Type.
Variable fzero : F.
Variable fadd fmul : F -> F -> F.
Variable fsqrt : Z -> F.

(** An array given by its shape and its element at a multi-index. *)
Record ndarray : Type := NdArray {
  shape : list Z;
  item : list Z -> F
}.

Definition ndim (a : ndarray) : Z := Z.of_nat (length (shape a)).

(** [a[i]]. *)
Definition subarray (a : ndarray) (i : Z) : ndarray :=
  NdArray (tl (shape a)) (fun idx => item a (i :: idx)).

(** [np.zeros((c, h, w))]. *)
Definition zeros3 (c h w : Z) : list (list (list F)) :=
  repeat (repeat (repeat fzero (Z.to_nat w)) (Z.to_nat h)) (Z.to_nat c).

Record t : Type := Make {
  map_h : Z;
  map_w : Z;
  map_c : Z;
  patch_h : Z;
  patch_w : Z;
  acc_map : list (list (list F));        (* self.map, shape (map_c, map_h, map_w) *)
  weight_map : list (list (list F));     (* shape (1, map_h, map_w) *)
  patch_weights : list (list (list F))   (* shape (1, patch_h, patch_w) *)
}.

(** The kernel [patch_weights[None, 1:-1, 1:-1]] of [__init__]. *)
Definition patch_weight_kernel (patch_height patch_width : Z)
    : outcome (list (list (list F))) :=
  k <- kernel_sq patch_height patch_width ;;
  ok [map (map fsqrt) k].

Definition init (map_height map_width map_channel patch_height patch_width : Z)
    : outcome t :=
  if (map_channel <? 0) || (map_height <? 0) || (map_width <? 0) then raise ValueError
  else
    k <- patch_weight_kernel patch_height patch_width ;;
    ok (Make map_height map_width map_channel patch_height patch_width
             (zeros3 map_channel map_height map_width)
             (zeros3 1 map_height map_width)
             k).

Definition set_acc_map (self : t) (a : list (list (list F))) : t :=
  Make (map_h self) (map_w self) (map_c self) (patch_h self) (patch_w self)
       a (weight_map self) (patch_weights self).

Definition set_weight_map (self : t) (a : list (list (list F))) : t :=
  Make (map_h self) (map_w self) (map_c self) (patch_h self) (patch_w self)
       (acc_map self) a (patch_weights self).

(** *** Broadcasting *)

(** The common length of two dimensions, if they can be broadcast. *)
Definition bdim (a b : Z) : option Z :=
  if a =? b then Some a
  else if a =? 1 then Some b
  else if b =? 1 then Some a
  else None.

(** The index read along a dimension of length [d] for the position [i] of
    the broadcast result. *)
Definition bidx (d i : Z) : Z := if d =? 1 then 0 else i.

(** A dimension of length [d] can be broadcast to length [r]. *)
Definition fits (d r : Z) : bool := (d =? r) || (d =? 1).

(** A three-dimensional right-hand side: its shape and its elements. *)
Record values : Type := Values {
  v_c : Z;
  v_h : Z;
  v_w : Z;
  v_at : Z -> Z -> Z -> F
}.

Definition kernel_at (k : list (list (list F))) (y x : Z) : F :=
  match nth2 (hd [] k) y x with
  | Some v => v
  | None => fzero
  end.

(** [self.patch_weights] as a right-hand side of shape (1, patch_h, patch_w). *)
Definition kernel_values (self : t) : values :=
  Values 1 (patch_h self) (patch_w self)
         (fun _ y x => kernel_at (patch_weights self) y x).

(** [self.patch_weights * pred]. *)
Definition mul_kernel (self : t) (pred : ndarray) : outcome values :=
  match shape pred with
  | [c; h; w] =>
      match bdim (patch_h self) h, bdim (patch_w self) w with
      | Some bh, Some bw =>
          ok (Values c bh bw
                (fun ci y x =>
                   fmul (kernel_at (patch_weights self)
                                   (bidx (patch_h self) y) (bidx (patch_w self) x))
                        (item pred [ci; bidx h y; bidx w x])))
      | _, _ => raise ValueError
      end
  | _ => raise ValueError
  end.

(** The element of the right-hand side [v] read for the position
    [(ci, dy, dx)] of the region it is broadcast to. *)
Definition broadcast_at (v : values) (ci dy dx : Z) : F :=
  v_at v (bidx (v_c v) ci) (bidx (v_h v) dy) (bidx (v_w v) dx).

(** [d] added to the cells of rows [ys..ye-1] and columns [xs..xe-1] of
    every channel; every other cell is left as it is. *)
Definition region_add (ys ye xs xe : Z) (d : Z -> Z -> Z -> F)
    (buf : list (list (list F))) : list (list (list F)) :=
  mapi (fun ci plane =>
    mapi (fun y row =>
      mapi (fun x old =>
        if (ys <=? y) && (y <? ye) && (xs <=? x) && (x <? xe)
        then fadd old (d ci (y - ys) (x - xs))
        else old) row) plane) buf.

(** [buf[:, y1:y2, x1:x2] += v] on a buffer of shape [(c, h, w)]. *)
Definition iadd_region (c h w : Z) (y1 y2 x1 x2 : Z) (v : values)
    (buf : list (list (list F))) : outcome (list (list (list F))) :=
  let ys := slice_bound h y1 in
  let ye := slice_bound h y2 in
  let xs := slice_bound w x1 in
  let xe := slice_bound w x2 in
  if fits (v_c v) c && fits (v_h v) (Z.max 0 (ye - ys)) && fits (v_w v) (Z.max 0 (xe - xs))
  then ok (region_add ys ye xs xe (broadcast_at v) buf)
  else raise ValueError.

(** The body of the loop of [update] for the index [i]. *)
Definition update_entry (preds : ndarray) (windows : list window) (i : Z) : M t unit :=
  let pred := subarray preds i in
  w <~ lift (of_option IndexError (index windows i)) ;;
  self <~ get ;;
  let y1 := wy1 w in
  let x1 := wx1 w in
  if (y1 + patch_h self <=? map_h self) && (x1 + patch_w self <=? map_w self)
  then
    v <~ lift (mul_kernel self pred) ;;
    a <~ lift (iadd_region (map_c self) (map_h self) (map_w self)
                 y1 (y1 + patch_h self) x1 (x1 + patch_w self) v (acc_map self)) ;;
    put (set_acc_map self a) ;;;
    self <~ get ;;
    b <~ lift (iadd_region 1 (map_h self) (map_w self)
                 y1 (y1 + patch_h self) x1 (x1 + patch_w self)
                 (kernel_values self) (weight_map self)) ;;
    put (set_weight_map self b)
  else throw AssertionError.

(** [update]: when the first assertion fails, its message [preds.shpae] is
    evaluated and raises AttributeError. *)
Definition update (preds : ndarray) (windows : list window) : M t unit :=
  if ndim preds =? 4
  then for_each (range (hd 0 (shape preds))) (update_entry preds windows)
  else throw AttributeError.

(** [reset]. *)
Definition reset : M t unit :=
  self <~ get ;;
  put (Make (map_h self) (map_w self) (map_c self) (patch_h self) (patch_w self)
            (map (map (map (fun _ => fzero))) (acc_map self))
            (map (map (map (fun _ => fzero))) (weight_map self))
            (patch_weights self)).

(** *** Batches

    A batch handed to [update] is built from a list of entries, each a
    prediction patch with its window. *)

Definition entry : Type := (ndarray * window)%type.

(** [np.stack] of patches of shape [sh]. *)
Definition stack (sh : list Z) (ps : list ndarray) : ndarray :=
  NdArray (Z.of_nat (length ps) :: sh)
          (fun idx =>
             match idx with
             | [] => fzero
             | i :: rest =>
                 if i <? 0 then fzero
                 else match nth_error ps (Z.to_nat i) with
                      | Some p => item p rest
                      | None => fzero
                      end
             end).

Definition update_batch (sh : list Z) (es : list entry) : M t unit :=
  update (stack sh (map fst es)) (map snd es).

(** The patch region of a window lies inside the buffers. *)
Definition window_fits (self : t) (w : window) : Prop :=
  0 <= wy1 w <= wy1 w + patch_h self /\ wy1 w + patch_h self <= map_h self /\
  0 <= wx1 w <= wx1 w + patch_w self /\ wx1 w + patch_w self <= map_w self.

(** The window of an entry lies inside the buffers and its patch has the
    shape (map_c, patch_h, patch_w). *)
Definition entry_fits (self : t) (e : entry) : Prop :=
  shape (fst e) = [map_c self; patch_h self; patch_w self] /\ window_fits self (snd e).

(** The two buffer updates of one loop turn, for a patch [pred] of shape
    (map_c, patch_h, patch_w) at the window [w]. *)
Definition apply_entry (self : t) (pred : ndarray) (w : window) : t :=
  let y1 := wy1 w in
  let x1 := wx1 w in
  let v := Values (map_c self) (patch_h self) (patch_w self)
             (fun ci y x =>
                fmul (kernel_at (patch_weights self)
                                (bidx (patch_h self) y) (bidx (patch_w self) x))
                     (item pred [ci; bidx (patch_h self) y; bidx (patch_w self) x])) in
  Make (map_h self) (map_w self) (map_c self) (patch_h self) (patch_w self)
       (region_add y1 (y1 + patch_h self) x1 (x1 + patch_w self)
                   (broadcast_at v) (acc_map self))
       (region_add y1 (y1 + patch_h self) x1 (x1 + patch_w self)
                   (broadcast_at (kernel_values self)) (weight_map self))
       (patch_weights self).

(** Two objects with the same shape fields. *)
Definition same_dims (a b : t) : Prop :=
  map_h a = map_h b /\ map_w a = map_w b /\ map_c a = map_c b /\
  patch_h a = patch_h b /\ patch_w a = patch_w b.

(** The window read for the index [i], once [windows[i]] is known to exist. *)
Definition window_at (windows : list window) (i : Z) : window :=
  match index windows i with
  | Some w => w
  | None => Win 0 0 0 0
  end.

(** The state after the entries of a list have been added one by one. *)
Definition apply_entries (es : list entry) (self : t) : t :=
  fold_left (fun s e => apply_entry s (fst e) (snd e)) es self.

(** [preds[:k]]. *)
Definition take_entries (k : Z) (preds : ndarray) : ndarray :=
  NdArray (k :: tl (shape preds)) (item preds).

End Accumulator.

Arguments NdArray {F}.
Arguments shape {F}.
Arguments item {F}.
Arguments ndim {F}.
Arguments map_h {F}.
Arguments map_w {F}.
Arguments map_c {F}.
Arguments patch_h {F}.
Arguments patch_w {F}.
Arguments acc_map {F}.
Arguments weight_map {F}.
Arguments patch_weights {F}.
Arguments entry_fits {F}.
Arguments window_fits {F}.
Arguments apply_entry {F}.
Arguments take_entries {F}.
Arguments subarray {F}.
Arguments same_dims {F}.
Arguments apply_entries {F}.
Arguments Values {F}.
Arguments v_c {F}.
Arguments v_h {F}.
Arguments v_w {F}.
Arguments v_at {F}.
Arguments Make {F}.
Arguments zeros3 {F}.
Arguments patch_weight_kernel {F}.
Arguments init {F}.
Arguments set_acc_map {F}.
Arguments set_weight_map {F}.
Arguments kernel_at {F}.
Arguments kernel_values {F}.
Arguments mul_kernel {F}.
Arguments broadcast_at {F}.
Arguments region_add {F}.
Arguments iadd_region {F}.
Arguments update_entry {F}.
Arguments update {F}.
Arguments reset {F}.
Arguments stack {F}.
Arguments update_batch {F}.

End WeightedPredictManager.

(** The pixel [(y, x)] lies in the patch placed at the window [w]. *)
Definition in_patch (ph pw : Z) (w : window) (y x : Z) : bool :=
  (wy1 w <=? y) && (y <? wy1 w + ph) && (wx1 w <=? x) && (x <? wx1 w + pw).

(** The object left by a series of [update] calls, each with its own batch
    and window list, whether a call returned or raised. *)
Definition after_updates {F} (fzero : F) (fadd fmul : F -> F -> F)
    (calls : list (WeightedPredictManager.ndarray F * list window))
    (self : WeightedPredictManager.t F) : WeightedPredictManager.t F :=
  fold_left (fun s call => fst (WeightedPredictManager.update fzero fadd fmul
                                  (fst call) (snd call) s))
            calls self.

(** What [update] never changes: the shape fields, the kernel and the
    shapes of the two buffers. *)
Definition same_frame {F} (fzero : F) (s s' : WeightedPredictManager.t F) : Prop :=
  WeightedPredictManager.same_dims s' s /\
  WeightedPredictManager.patch_weights s' = WeightedPredictManager.patch_weights s /\
  map (map (map (fun _ => fzero))) (WeightedPredictManager.acc_map s')
  = map (map (map (fun _ => fzero))) (WeightedPredictManager.acc_map s) /\
  map (map (map (fun _ => fzero))) (WeightedPredictManager.weight_map s')
  = map (map (map (fun _ => fzero))) (WeightedPredictManager.weight_map s).

(** ** CenterClippingPredictManager

    The object has the fields of [WeightedPredictManager]; its constructor
    (lines 161-177) and [reset] (lines 188-190) repeat those of that class
    line for line. [update] takes one patch with its offsets instead of a
    batch with a window list. *)

Module CenterClippingPredictManager.

Section Accumulator.

Variable F : Type.
Variable fzero : F.
Variable fadd fmul : F -> F -> F.
Variable fsqrt : Z -> F.

Definition t : Type := WeightedPredictManager.t F.

Definition init (map_height map_width map_channel patch_height patch_width : Z)
    : outcome t :=
  if (map_channel <? 0) || (map_height <? 0) || (map_width <? 0) then raise ValueError
  else
    k <- WeightedPredictManager.patch_weight_kernel fsqrt patch_height patch_width ;;
    ok (WeightedPredictManager.Make map_height map_width map_channel patch_height patch_width
          (WeightedPredictManager.zeros3 fzero map_channel map_height map_width)
          (WeightedPredictManager.zeros3 fzero 1 map_height map_width)
          k).

(** [pred] seen as an array of three dimensions, as broadcasting against the
    kernel of shape (1, patch_h, patch_w) sees it: missing leading
    dimensions have length 1. An array of more than three dimensions has no
    such view. *)
Definition as_3d (pred : WeightedPredictManager.ndarray F)
    : option (Z * Z * Z * (Z -> Z -> Z -> F)) :=
  match WeightedPredictManager.shape pred with
  | [] => Some (1, 1, 1, fun _ _ _ => WeightedPredictManager.item pred [])
  | [w] => Some (1, 1, w, fun _ _ x => WeightedPredictManager.item pred [x])
  | [h; w] => Some (1, h, w, fun _ y x => WeightedPredictManager.item pred [y; x])
  | [c; h; w] => Some (c, h, w, fun ci y x => WeightedPredictManager.item pred [ci; y; x])
  | _ => None
  end.

(** [self.patch_weights * pred] as a right-hand side of the in-place add.
    A product of more than three dimensions cannot be added in place to a
    region of three dimensions. *)
Definition mul_kernel (self : t) (pred : WeightedPredictManager.ndarray F)
    : outcome (WeightedPredictManager.values F) :=
  match as_3d pred with
  | Some (c, h, w, at_) =>
      match WeightedPredictManager.bdim (WeightedPredictManager.patch_h self) h,
            WeightedPredictManager.bdim (WeightedPredictManager.patch_w self) w with
      | Some bh, Some bw =>
          ok (WeightedPredictManager.Values c bh bw
                (fun ci y x =>
                   fmul (WeightedPredictManager.kernel_at fzero
                           (WeightedPredictManager.patch_weights self)
                           (WeightedPredictManager.bidx (WeightedPredictManager.patch_h self) y)
                           (WeightedPredictManager.bidx (WeightedPredictManager.patch_w self) x))
                        (at_ ci (WeightedPredictManager.bidx h y)
                                (WeightedPredictManager.bidx w x))))
      | _, _ => raise ValueError
      end
  | None => raise ValueError
  end.

(** [update(pred, yoff, xoff)], lines 179-183. *)
Definition update (pred : WeightedPredictManager.ndarray F) (yoff xoff : Z) : M t unit :=
  self <~ get ;;
  if (yoff + WeightedPredictManager.patch_h self <=? WeightedPredictManager.map_h self)
     && (xoff + WeightedPredictManager.patch_w self <=? WeightedPredictManager.map_w self)
  then
    v <~ lift (mul_kernel self pred) ;;
    a <~ lift (WeightedPredictManager.iadd_region fadd
                 (WeightedPredictManager.map_c self) (WeightedPredictManager.map_h self)
                 (WeightedPredictManager.map_w self)
                 yoff (yoff + WeightedPredictManager.patch_h self)
                 xoff (xoff + WeightedPredictManager.patch_w self)
                 v (WeightedPredictManager.acc_map self)) ;;
    put (WeightedPredictManager.set_acc_map self a) ;;;
    self <~ get ;;
    b <~ lift (WeightedPredictManager.iadd_region fadd
                 1 (WeightedPredictManager.map_h self) (WeightedPredictManager.map_w self)
                 yoff (yoff + WeightedPredictManager.patch_h self)
                 xoff (xoff + WeightedPredictManager.patch_w self)
                 (WeightedPredictManager.kernel_values fzero self)
                 (WeightedPredictManager.weight_map self)) ;;
    put (WeightedPredictManager.set_weight_map self b)
  else throw AssertionError.

(** [reset]. *)
Definition reset : M t unit :=
  self <~ get ;;
  put (WeightedPredictManager.Make
         (WeightedPredictManager.map_h self) (WeightedPredictManager.map_w self)
         (WeightedPredictManager.map_c self)
         (WeightedPredictManager.patch_h self) (WeightedPredictManager.patch_w self)
         (map (map (map (fun _ => fzero))) (WeightedPredictManager.acc_map self))
         (map (map (map (fun _ => fzero))) (WeightedPredictManager.weight_map self))
         (WeightedPredictManager.patch_weights self)).

End Accumulator.

Arguments init {F}.
Arguments as_3d {F}.
Arguments mul_kernel {F}.
Arguments update {F}.
Arguments reset {F}.

End CenterClippingPredictManager.

(** The number of steps from the cell [(i, j)] of a patch of [ph] rows and
    [pw] columns to the nearest cell outside the patch. *)
Definition edge_distance (ph pw i j : Z) : Z :=
  Z.min (Z.min (i + 1) (ph - i)) (Z.min (j + 1) (pw - j)).

(** ** Half-precision buffers

    Both buffers are created with [dtype=np.float16] (lines 128-129), and
    [+=] stores the sum rounded to that type: to the nearest representable
    number, a tie going to the one with the even significand. A
    half-precision number has 11 significant bits: every integer of
    magnitude up to 2048 is representable and, beyond, the multiples of
    [2 ^ (Z.log2 n - 10)]. The sum of two integer-valued numbers is an
    integer and is computed exactly before it is rounded. The definitions
    below are that addition on integer values whose sum stays below 65520
    in magnitude, where half precision overflows. *)

(** [n >= 0] rounded to the nearest multiple of [q > 0], a tie going to the
    even multiple. *)
Definition round_to_multiple (q n : Z) : Z :=
  let d := n / q in
  let r := n mod q in
  if 2 * r <? q then d * q
  else if q <? 2 * r then (d + 1) * q
  else if Z.even d then d * q else (d + 1) * q.

Definition float16_round (n : Z) : Z :=
  let a := Z.abs n in
  if a <=? 2048 then n
  else Z.sgn n * round_to_multiple (2 ^ (Z.log2 a - 10)) a.

Definition float16_add (a b : Z) : Z := float16_round (a + b).

(** ** Small objects over the integers

    An accumulator with a 2 by 3 single-channel map and 1 by 2 patches, two
    prediction patches whose windows share the middle column, and a third
    window that passes the right edge. *)

Definition demo_accumulator : WeightedPredictManager.t Z :=
  WeightedPredictManager.Make 2 3 1 1 2
    [[[0; 0; 0]; [0; 0; 0]]] [[[0; 0; 0]; [0; 0; 0]]] [[[1; 1]]].

Definition demo_entry_left : WeightedPredictManager.entry Z :=
  (WeightedPredictManager.NdArray [1; 1; 2] (fun _ => 5), Win 0 1 0 2).

Definition demo_entry_right : WeightedPredictManager.entry Z :=
  (WeightedPredictManager.NdArray [1; 1; 2] (fun _ => 3), Win 0 1 1 3).

Definition demo_preds : WeightedPredictManager.ndarray Z :=
  WeightedPredictManager.NdArray [2; 1; 1; 2] (fun _ => 5).

Definition demo_windows : list window := [Win 0 1 0 2; Win 0 1 2 4].

(** The manager built over [demo_raster] with one output band, windows of
    4 pixels and an overlap of 2, after one [get_next]. *)
Definition demo_manager : RSImageSlideWindowManager.t :=
  RSImageSlideWindowManager.Make 4 2 demo_raster 6 6 1
    (RSImageSlideWindowManager.Create 6 6 1)
    [Win 0 4 0 4; Win 0 4 2 6; Win 2 6 0 4; Win 2 6 2 6] 1.

(** An accumulator with a single pixel and 1 by 1 patches, whose kernel is
    the single weight 1, and two patches for it. *)
Definition demo_pixel_accumulator : WeightedPredictManager.t Z :=
  WeightedPredictManager.Make 1 1 1 1 1 [[[0]]] [[[0]]] [[[1]]].

Definition demo_entry_large : WeightedPredictManager.entry Z :=
  (WeightedPredictManager.NdArray [1; 1; 1] (fun _ => 2048), Win 0 1 0 1).

Definition demo_entry_unit : WeightedPredictManager.entry Z :=
  (WeightedPredictManager.NdArray [1; 1; 1] (fun _ => 1), Win 0 1 0 1).

(** * Properties *)

(** ** Ranges, loops and grids *)

Lemma in_range (n i : Z) : In i (range n) <-> 0 <= i < n.
Proof.
  unfold range. rewrite in_map_iff. split.
  - intros [k [<- Hk]]. apply in_seq in Hk. lia.
  - intros Hi. exists (Z.to_nat i). split; [lia|]. apply in_seq. lia.
Qed.

Lemma in_grid_cells (n_h n_w : Z) (c : Z * Z) :
  In c (grid_cells n_h n_w) <-> 0 <= fst c < n_h /\ 0 <= snd c < n_w.
Proof.
  unfold grid_cells. rewrite in_flat_map. split.
  - intros [i [Hi Hc]]. apply in_map_iff in Hc. destruct Hc as [j [<- Hj]].
    apply in_range in Hi. apply in_range in Hj. simpl. lia.
  - intros [Hi Hj]. exists (fst c). split; [now apply in_range|].
    apply in_map_iff. exists (snd c). split; [now destruct c|now apply in_range].
Qed.

Lemma inner_loop_filter {A} (skip : Z -> bool) (mk : Z -> A) (l : list Z) (acc : list A) :
  fold_left (fun ws j => if skip j then ws else ws ++ [mk j]) l acc
  = acc ++ map mk (filter (fun j => negb (skip j)) l).
Proof.
  revert acc. induction l as [|j l IH]; intros acc; simpl.
  - now rewrite app_nil_r.
  - rewrite IH. destruct (skip j); simpl; [reflexivity|].
    now rewrite <- app_assoc.
Qed.

Lemma outer_loop_flat_map {A} (row : Z -> list A) (l : list Z) (acc : list A) :
  fold_left (fun ws i => ws ++ row i) l acc = acc ++ flat_map row l.
Proof.
  revert acc. induction l as [|i l IH]; intros acc; simpl.
  - now rewrite app_nil_r.
  - rewrite IH. now rewrite <- app_assoc.
Qed.

Lemma fold_left_ext {A B} (f g : A -> B -> A) (l : list B) (a : A) :
  (forall x y, f x y = g x y) -> fold_left f l a = fold_left g l a.
Proof.
  intros E. revert a. induction l as [|b l IH]; intros a; simpl; [reflexivity|].
  now rewrite E, IH.
Qed.

Lemma filter_flat_map {A B} (p : B -> bool) (f : A -> list B) (l : list A) :
  filter p (flat_map f l) = flat_map (fun a => filter p (f a)) l.
Proof.
  induction l as [|a l IH]; simpl; [reflexivity|].
  now rewrite filter_app, IH.
Qed.

Lemma filter_map_comm {A B} (p : B -> bool) (f : A -> B) (l : list A) :
  filter p (map f l) = map f (filter (fun a => p (f a)) l).
Proof.
  induction l as [|a l IH]; simpl; [reflexivity|].
  destruct (p (f a)); simpl; now rewrite IH.
Qed.

(** The two loops build the tiles of the grid positions that are not
    skipped, in row-major order. *)
Lemma window_loops_spec (skip : Z -> Z -> bool) (img_h img_w window_sz stride n_h n_w : Z) :
  window_loops skip img_h img_w window_sz stride n_h n_w
  = map (tile img_h img_w window_sz stride)
        (filter (fun c => negb (skip (origin img_h window_sz stride (fst c))
                                     (origin img_w window_sz stride (snd c))))
                (grid_cells n_h n_w)).
Proof.
  unfold window_loops, grid_cells.
  rewrite fold_left_ext with
    (g := fun ws i =>
            ws ++ map (fun j => tile img_h img_w window_sz stride (i, j))
                      (filter (fun j => negb (skip (origin img_h window_sz stride i)
                                                   (origin img_w window_sz stride j)))
                              (range n_w))).
  2:{ intros ws i. apply (inner_loop_filter
        (fun j => skip (Z.min (i * stride) (img_h - window_sz))
                       (Z.min (j * stride) (img_w - window_sz)))
        (fun j => tile img_h img_w window_sz stride (i, j))). }
  rewrite outer_loop_flat_map. simpl.
  rewrite filter_flat_map.
  induction (range n_h) as [|i l IH]; simpl; [reflexivity|].
  rewrite map_app, IH. f_equal.
  rewrite filter_map_comm, map_map. reflexivity.
Qed.

Lemma filter_true {A} (l : list A) : filter (fun _ => true) l = l.
Proof. induction l; simpl; congruence. Qed.

Lemma create_windows_spec (img_h img_w window_sz overlap : Z) :
  window_sz - overlap <> 0 ->
  create_windows img_h img_w window_sz overlap
  = ok (map (tile img_h img_w window_sz (window_sz - overlap))
            (grid_cells (- ((- (img_h - window_sz)) / (window_sz - overlap)) + 1)
                        (- ((- (img_w - window_sz)) / (window_sz - overlap)) + 1))).
Proof.
  intros Hs. unfold create_windows, int_ceil_div.
  destruct (Z.eqb_spec (window_sz - overlap) 0) as [E|_]; [contradiction|].
  simpl. rewrite window_loops_spec. simpl. now rewrite filter_true.
Qed.

(** The ceiling of a quotient by a positive stride. *)
Lemma ceil_div_bounds (a s : Z) :
  0 < s -> a <= (- ((- a) / s)) * s < a + s.
Proof.
  intros Hs.
  pose proof (Z.div_mod (- a) s ltac:(lia)) as E.
  pose proof (Z.mod_pos_bound (- a) s Hs) as B.
  nia.
Qed.

(** Along one axis the clamped origins reach every position of the extent. *)
Lemma axis_cover (extent T s y : Z) :
  0 < s <= T -> T <= extent -> 0 <= y < extent ->
  exists i, 0 <= i < - ((- (extent - T)) / s) + 1 /\
            origin extent T s i <= y < origin extent T s i + T.
Proof.
  intros Hs HT Hy.
  pose proof (ceil_div_bounds (extent - T) s ltac:(lia)) as C.
  set (c := - ((- (extent - T)) / s)) in *.
  assert (0 <= c) by nia.
  destruct (Z_lt_le_dec y (extent - T)) as [Hlt|Hge].
  - exists (y / s).
    pose proof (Z.div_mod y s ltac:(lia)) as E.
    pose proof (Z.mod_pos_bound y s ltac:(lia)) as B.
    assert (0 <= y / s) by (apply Z.div_pos; lia).
    unfold origin. split; [nia|]. split; [lia|].
    rewrite Z.min_l by nia. nia.
  - exists c. unfold origin. split; [lia|].
    rewrite Z.min_r by lia. lia.
Qed.

Lemma origin_bounds (extent T s i : Z) :
  0 < s -> T <= extent -> 0 <= i ->
  0 <= origin extent T s i <= extent - T.
Proof. intros. unfold origin. nia. Qed.

Lemma init_windows (r : raster) (out_bands T O : Z) (ws : list window) :
  create_windows (RasterYSize r) (RasterXSize r) T O = ok ws ->
  exists self, RSImageSlideWindowManager.init r out_bands T O = ok self /\
               RSImageSlideWindowManager.windows self = ws /\
               RSImageSlideWindowManager.window_i self = 0.
Proof.
  intros E. unfold RSImageSlideWindowManager.init. rewrite E. simpl.
  eexists. repeat split.
Qed.

(** ** The window grid *)

(** C1, as amended: for every extent (H,W), tile size T and overlap O with
    0 < O < T, T <= H and T <= W, the partitioner returns a window list in
    which every window is a T x T square with 0 <= y1, y2 <= H, 0 <= x1,
    x2 <= W, and a pixel belongs to [0,H) x [0,W) exactly when some window
    contains it; [RSImageSlideWindowManager.__init__] stores that list. *)
Theorem windows_cover_extent (H W T O : Z) :
  0 < O < T -> T <= H -> T <= W ->
  exists ws,
    create_windows H W T O = ok ws /\ grid_ok H W T ws /\
    forall r out_bands,
      RasterYSize r = H -> RasterXSize r = W ->
      exists self, RSImageSlideWindowManager.init r out_bands T O = ok self /\
                   RSImageSlideWindowManager.windows self = ws.
Proof.
  intros HO HH HW.
  eexists. split; [apply create_windows_spec; lia|].
  set (s := T - O).
  assert (Hs : 0 < s <= T) by (unfold s; lia).
  assert (Hin : Forall (window_in_extent H W T)
                  (map (tile H W T s)
                       (grid_cells (- (- (H - T) / s) + 1) (- (- (W - T) / s) + 1)))).
  { apply Forall_forall. intros w Hw. apply in_map_iff in Hw.
    destruct Hw as [c [<- Hc]]. apply in_grid_cells in Hc.
    pose proof (origin_bounds H T s (fst c) ltac:(lia) HH ltac:(lia)).
    pose proof (origin_bounds W T s (snd c) ltac:(lia) HW ltac:(lia)).
    unfold window_in_extent, tile. simpl. lia. }
  split; [split; [exact Hin|]|].
  - intros y x. split.
    + intros [Hy Hx].
      destruct (axis_cover H T s y Hs HH Hy) as [i [Hi Hiy]].
      destruct (axis_cover W T s x Hs HW Hx) as [j [Hj Hjx]].
      exists (tile H W T s (i, j)). split.
      * apply in_map. apply in_grid_cells. simpl. lia.
      * unfold in_window, tile. simpl. lia.
    + intros [w [Hw Hyx]].
      rewrite Forall_forall in Hin. specialize (Hin w Hw).
      unfold window_in_extent in Hin. unfold in_window in Hyx. lia.
  - intros r out_bands EH EW.
    destruct (init_windows r out_bands T O
                (map (tile H W T s)
                     (grid_cells (- (- (H - T) / s) + 1) (- (- (W - T) / s) + 1))))
      as [self [E1 [E2 _]]].
    + rewrite EH, EW. apply create_windows_spec. lia.
    + exists self. split; assumption.
Qed.

Lemma windows_cover_extent_witness :
  exists ws,
    create_windows 10 10 6 2 = ok ws /\ grid_ok 10 10 6 ws /\
    forall r out_bands,
      RasterYSize r = 10 -> RasterXSize r = 10 ->
      exists self, RSImageSlideWindowManager.init r out_bands 6 2 = ok self /\
                   RSImageSlideWindowManager.windows self = ws.
Proof. apply (windows_cover_extent 10 10 6 2); lia. Defined.

(** C1 as stated fails: H = 3, W = 10, T = 6, O = 2 satisfy
    0 < O < T <= max(H,W), and the first window built is [-3, 3, 0, 6]. *)
Lemma windows_cover_extent_max_fails :
  0 < 2 < 6 /\ 6 <= Z.max 3 10 /\
  exists ws, create_windows 3 10 6 2 = ok ws /\
             hd_error ws = Some (Win (-3) 3 0 6) /\
             ~ grid_ok 3 10 6 ws.
Proof.
  split; [lia|]. split; [lia|].
  eexists. split; [reflexivity|]. split; [reflexivity|].
  intros [Hin _]. inversion Hin as [|w l Hw _]; subst.
  unfold window_in_extent in Hw. simpl in Hw. lia.
Qed.

(** C2, as amended: with overlap equal to the tile size the construction
    raises ZeroDivisionError at the stride division and no window list is
    built; with overlap greater than the tile size no error is raised and a
    window list is built. *)
Theorem init_overlap_not_below_tile (r : raster) (out_bands T O : Z) :
  (O = T -> RSImageSlideWindowManager.init r out_bands T O = raise ZeroDivisionError) /\
  (T < O -> exists self, RSImageSlideWindowManager.init r out_bands T O = ok self).
Proof.
  split.
  - intros ->. unfold RSImageSlideWindowManager.init, create_windows, int_ceil_div.
    rewrite Z.sub_diag. reflexivity.
  - intros HO.
    destruct (init_windows r out_bands T O _
                (create_windows_spec (RasterYSize r) (RasterXSize r) T O ltac:(lia)))
      as [self [E _]].
    now exists self.
Qed.

Lemma init_overlap_not_below_tile_witness :
  RSImageSlideWindowManager.init (RSImageSlideWindowManager.Create 10 10 1) 1 6 6
    = raise ZeroDivisionError /\
  exists self,
    RSImageSlideWindowManager.init (RSImageSlideWindowManager.Create 10 10 1) 1 6 8 = ok self.
Proof.
  split.
  - apply (proj1 (init_overlap_not_below_tile
                    (RSImageSlideWindowManager.Create 10 10 1) 1 6 6)). reflexivity.
  - apply (proj2 (init_overlap_not_below_tile
                    (RSImageSlideWindowManager.Create 10 10 1) 1 6 8)). lia.
Defined.

(** C2 as stated fails: with H = W = 10, T = 6 and O = 8 >= T the
    construction returns normally, with an empty window list. *)
Lemma init_overlap_above_tile_no_error :
  8 >= 6 /\
  exists self,
    RSImageSlideWindowManager.init (RSImageSlideWindowManager.Create 10 10 1) 1 6 8 = ok self /\
    RSImageSlideWindowManager.windows self = [].
Proof. split; [lia|]. eexists. split; reflexivity. Qed.

(** ** The random-access tile source *)

Lemma get_tile_coordinates_filter (im : ImageDataset.image) (T O : Z) :
  ImageDataset._get_tile_coordinates T O im
  = (grid <- create_windows (ImageDataset.im_h im) (ImageDataset.im_w im) T O ;;
     ok (filter (nonzero_window im) grid)).
Proof.
  unfold ImageDataset._get_tile_coordinates, create_windows.
  destruct (int_ceil_div (ImageDataset.im_h im - T) (T - O)) as [e|c_h]; [reflexivity|].
  destruct (int_ceil_div (ImageDataset.im_w im - T) (T - O)) as [e|c_w]; [reflexivity|].
  simpl. rewrite !window_loops_spec. simpl. rewrite filter_true.
  rewrite filter_map_comm. reflexivity.
Qed.

(** C9: the tile list of [ImageDataset] is the window grid of the image
    extent, in its row-major order, with exactly the windows whose pixels
    sum to zero removed; a window is kept iff it is in the grid and its
    pixel sum is not zero, and [__len__] is the number of kept windows. *)
Theorem tile_coords_nonzero_windows (im : ImageDataset.image) (T O : Z) :
  ImageDataset.init im T O
  = (grid <- create_windows (ImageDataset.im_h im) (ImageDataset.im_w im) T O ;;
     ok (ImageDataset.Make im T O (filter (nonzero_window im) grid))) /\
  forall self, ImageDataset.init im T O = ok self ->
    exists grid,
      create_windows (ImageDataset.im_h im) (ImageDataset.im_w im) T O = ok grid /\
      ImageDataset.tile_coords self = filter (nonzero_window im) grid /\
      (forall w, In w (ImageDataset.tile_coords self) <->
                 In w grid /\
                 ImageDataset.region_sum im (wy1 w) (wy2 w) (wx1 w) (wx2 w) <> 0) /\
      ImageDataset.len self = Z.of_nat (length (filter (nonzero_window im) grid)).
Proof.
  assert (E : ImageDataset.init im T O
    = (grid <- create_windows (ImageDataset.im_h im) (ImageDataset.im_w im) T O ;;
       ok (ImageDataset.Make im T O (filter (nonzero_window im) grid)))).
  { unfold ImageDataset.init. rewrite get_tile_coordinates_filter.
    destruct (create_windows _ _ T O); reflexivity. }
  split; [exact E|].
  intros self Hs. rewrite E in Hs.
  destruct (create_windows _ _ T O) as [e|grid]; [discriminate|].
  simpl in Hs. injection Hs as <-.
  exists grid. split; [reflexivity|]. split; [reflexivity|]. split; [|reflexivity].
  intros w. simpl. rewrite filter_In. unfold nonzero_window.
  rewrite negb_true_iff, Z.eqb_neq. reflexivity.
Qed.

Lemma tile_coords_nonzero_windows_witness :
  let im := ImageDataset.Image 2 3 1 [[[0]; [0]; [5]]; [[0]; [0]; [0]]] in
  let self := ImageDataset.Make im 2 1 [Win 0 2 1 3] in
  ImageDataset.init im 2 1 = ok self /\
  exists grid,
    create_windows 2 3 2 1 = ok grid /\
    ImageDataset.tile_coords self = filter (nonzero_window im) grid /\
    (forall w, In w (ImageDataset.tile_coords self) <->
               In w grid /\
               ImageDataset.region_sum im (wy1 w) (wy2 w) (wx1 w) (wx2 w) <> 0) /\
    ImageDataset.len self = Z.of_nat (length (filter (nonzero_window im) grid)).
Proof.
  intros im self. split; [reflexivity|].
  apply (proj2 (tile_coords_nonzero_windows im 2 1) self). reflexivity.
Defined.

(** Two images of one geometry whose tile lists differ in length. *)
Example tile_count_depends_on_content :
  (s1 <- ImageDataset.init (ImageDataset.Image 2 2 1 [[[0]; [0]]; [[0]; [0]]]) 2 1 ;;
   ok (ImageDataset.len s1)) = ok 0 /\
  (s2 <- ImageDataset.init (ImageDataset.Image 2 2 1 [[[0]; [7]]; [[0]; [0]]]) 2 1 ;;
   ok (ImageDataset.len s2)) = ok 1.
Proof. split; reflexivity. Qed.

(** ** Position-wise maps *)

Lemma mapi_from_ext {A B} (f g : Z -> A -> B) (l : list A) (k : Z) :
  (forall i a, f i a = g i a) -> mapi_from k f l = mapi_from k g l.
Proof.
  intros E. revert k. induction l as [|a l IH]; intros k; simpl; [reflexivity|].
  now rewrite E, IH.
Qed.

Lemma mapi_from_compose {A B C} (f : Z -> B -> C) (g : Z -> A -> B) (l : list A) (k : Z) :
  mapi_from k f (mapi_from k g l) = mapi_from k (fun i a => f i (g i a)) l.
Proof.
  revert k. induction l as [|a l IH]; intros k; simpl; [reflexivity|].
  now rewrite IH.
Qed.

Lemma mapi_ext {A B} (f g : Z -> A -> B) (l : list A) :
  (forall i a, f i a = g i a) -> mapi f l = mapi g l.
Proof. apply mapi_from_ext. Qed.

Lemma mapi_compose {A B C} (f : Z -> B -> C) (g : Z -> A -> B) (l : list A) :
  mapi f (mapi g l) = mapi (fun i a => f i (g i a)) l.
Proof. apply mapi_from_compose. Qed.

Lemma mapi_from_length {A B} (f : Z -> A -> B) (l : list A) (k : Z) :
  length (mapi_from k f l) = length l.
Proof. revert k. induction l; intros k; simpl; congruence. Qed.

Lemma nth_error_mapi_from {A B} (f : Z -> A -> B) (l : list A) (k : Z) (n : nat) :
  nth_error (mapi_from k f l) n = option_map (f (k + Z.of_nat n)) (nth_error l n).
Proof.
  revert k n. induction l as [|a l IH]; intros k n; destruct n; simpl; try reflexivity.
  - now rewrite Z.add_0_r.
  - rewrite IH. do 2 f_equal. lia.
Qed.

Lemma nth_error_mapi {A B} (f : Z -> A -> B) (l : list A) (n : nat) :
  nth_error (mapi f l) n = option_map (f (Z.of_nat n)) (nth_error l n).
Proof. unfold mapi. now rewrite nth_error_mapi_from. Qed.

Lemma fold_left_permutation {S A} (f : S -> A -> S) (l l' : list A) :
  (forall s a b, f (f s a) b = f (f s b) a) ->
  Permutation l l' -> forall s, fold_left f l s = fold_left f l' s.
Proof.
  intros C P. induction P; intros s; simpl.
  - reflexivity.
  - apply IHP.
  - now rewrite C.
  - now rewrite IHP1, IHP2.
Qed.

Lemma for_each_app {S X} (l1 l2 : list X) (body : X -> M S unit) (s : S) :
  for_each (l1 ++ l2) body s
  = match for_each l1 body s with
    | (s', inl e) => (s', inl e)
    | (s', inr _) => for_each l2 body s'
    end.
Proof.
  revert s. induction l1 as [|x l1 IH]; intros s; simpl.
  - reflexivity.
  - unfold bindM. destruct (body x s) as [s' [e|u]]; [reflexivity|]. apply IH.
Qed.

(** A loop whose turns all succeed runs them one after the other. *)
Lemma for_each_pure {S X} (step : S -> X -> S) (body : X -> M S unit) (l : list X) (s : S)
    (inv : S -> Prop) :
  inv s ->
  (forall s x, inv s -> In x l -> body x s = (step s x, ok tt) /\ inv (step s x)) ->
  for_each l body s = (fold_left step l s, ok tt) /\ inv (fold_left step l s).
Proof.
  revert s. induction l as [|x l IH]; intros s Hs Hb; simpl.
  - now split.
  - unfold bindM. destruct (Hb s x Hs (or_introl eq_refl)) as [E Hs'].
    rewrite E. apply IH; [exact Hs'|].
    intros s0 x0 H0 Hin. apply Hb; [exact H0|now right].
Qed.

Lemma slice_bound_inside (len i : Z) : 0 <= i <= len -> slice_bound len i = i.
Proof. intros Hi. unfold slice_bound. destruct (Z.ltb_spec i 0); lia. Qed.

(** ** The weighted accumulator *)

Section AccumulatorProperties.

Import WeightedPredictManager.

Variable F : Type.
Variable fzero : F.
Variable fadd fmul : F -> F -> F.

Lemma bdim_refl (a : Z) : bdim a a = Some a.
Proof. unfold bdim. now rewrite Z.eqb_refl. Qed.

Lemma fits_refl (a : Z) : fits a a = true.
Proof. unfold fits. now rewrite Z.eqb_refl. Qed.

(** A loop turn whose window fits and whose patch has the buffer's shape
    succeeds and performs the two buffer updates. *)
Lemma update_entry_fits (preds : ndarray F) (windows : list window) (i : Z)
    (self : t F) (w : window) :
  index windows i = Some w ->
  tl (shape preds) = [map_c self; patch_h self; patch_w self] ->
  window_fits self w ->
  update_entry fzero fadd fmul preds windows i self
  = (apply_entry fzero fadd fmul self (subarray preds i) w, ok tt).
Proof.
  intros Hw Hsh [Hy1 [Hy2 [Hx1 Hx2]]].
  unfold update_entry, bindM, lift, get, put. rewrite Hw. simpl.
  replace (wy1 w + patch_h self <=? map_h self) with true by (symmetry; apply Z.leb_le; lia).
  replace (wx1 w + patch_w self <=? map_w self) with true by (symmetry; apply Z.leb_le; lia).
  simpl. unfold mul_kernel. simpl shape. rewrite Hsh, !bdim_refl.
  unfold iadd_region. simpl.
  rewrite !slice_bound_inside by lia.
  replace (wy1 w + patch_h self - wy1 w) with (patch_h self) by lia.
  replace (wx1 w + patch_w self - wx1 w) with (patch_w self) by lia.
  rewrite !Z.max_r by lia. rewrite !fits_refl. simpl.
  reflexivity.
Qed.

Lemma region_add_ext (ys ye xs xe : Z) (d d' : Z -> Z -> Z -> F) (buf : list (list (list F))) :
  (forall ci dy dx, d ci dy dx = d' ci dy dx) ->
  region_add fadd ys ye xs xe d buf = region_add fadd ys ye xs xe d' buf.
Proof.
  intros E. unfold region_add.
  apply mapi_ext; intros ci plane.
  apply mapi_ext; intros y row.
  apply mapi_ext; intros x old.
  now rewrite E.
Qed.

(** Only the elements of a patch matter to the update, not the way the
    array is given. *)
Lemma apply_entry_ext (self : t F) (p p' : ndarray F) (w : window) :
  (forall idx, item p idx = item p' idx) ->
  apply_entry fzero fadd fmul self p w = apply_entry fzero fadd fmul self p' w.
Proof.
  intros E. unfold apply_entry. f_equal.
  apply region_add_ext. intros ci dy dx. unfold broadcast_at. simpl. now rewrite E.
Qed.

Lemma same_dims_refl (a : t F) : same_dims a a.
Proof. repeat split. Qed.

Lemma same_dims_apply_entry (a b : t F) (p : ndarray F) (w : window) :
  same_dims a b -> same_dims (apply_entry fzero fadd fmul a p w) b.
Proof. intros H. exact H. Qed.

Lemma window_fits_same_dims (a b : t F) (w : window) :
  same_dims a b -> window_fits b w -> window_fits a w.
Proof.
  intros [E1 [E2 [E3 [E4 E5]]]]. unfold window_fits. now rewrite E1, E2, E4, E5.
Qed.

(** The turns of the loop of [update] over indices whose windows all fit. *)
Lemma update_loop_fits (preds : ndarray F) (windows : list window) (l : list Z) (self : t F) :
  tl (shape preds) = [map_c self; patch_h self; patch_w self] ->
  (forall i, In i l -> exists w, index windows i = Some w /\ window_fits self w) ->
  let s' := fold_left (fun s i => apply_entry fzero fadd fmul s (subarray preds i)
                                              (window_at windows i)) l self in
  for_each l (update_entry fzero fadd fmul preds windows) self = (s', ok tt) /\
  same_dims s' self.
Proof.
  intros Hsh Hl.
  apply (for_each_pure
           (fun s i => apply_entry fzero fadd fmul s (subarray preds i) (window_at windows i))
           (update_entry fzero fadd fmul preds windows) l self
           (fun s => same_dims s self)).
  - apply same_dims_refl.
  - intros s i Hs Hi. destruct (Hl i Hi) as [w [Hw Hf]].
    split; [|now apply same_dims_apply_entry].
    unfold window_at. rewrite Hw.
    apply update_entry_fits; [exact Hw| |now apply window_fits_same_dims with self].
    destruct Hs as [E1 [E2 [E3 [E4 E5]]]]. now rewrite E3, E4, E5.
Qed.

Lemma range_split (n k : Z) :
  0 <= k < n -> exists rest, range n = range k ++ k :: rest.
Proof.
  intros Hk. unfold range.
  replace (Z.to_nat n) with (Z.to_nat k + S (Z.to_nat (n - k - 1)))%nat by lia.
  rewrite seq_app, map_app. simpl. rewrite Z2Nat.id by lia.
  eexists. reflexivity.
Qed.

(** C10: when [preds] does not have four dimensions, [update] raises an
    exception (the failed assertion evaluates its message [preds.shpae],
    which raises AttributeError) and both buffers, like the whole object,
    are left exactly as they were. *)
Theorem update_checks_ndim_first (preds : ndarray F) (windows : list window) (self : t F) :
  ndim preds <> 4 ->
  update fzero fadd fmul preds windows self = (self, raise AttributeError).
Proof.
  intros Hn. unfold update.
  destruct (Z.eqb_spec (ndim preds) 4) as [E|_]; [contradiction|reflexivity].
Qed.

(** C8, as amended: for a batch of shape (n, map_c, patch_h, patch_w), if
    entry k is the first entry whose window fails the bounds check, and the
    windows before it lie inside the buffers with a non-negative origin,
    [update] raises AssertionError and leaves the object in the state that
    a successful [update] with the entries before k alone produces: those
    entries have been added to both buffers, entry k and the ones after it
    have not. *)
Theorem update_stops_at_first_out_of_bounds
    (preds : ndarray F) (windows : list window) (self : t F) (n k : Z) (wk : window) :
  shape preds = [n; map_c self; patch_h self; patch_w self] ->
  0 <= k < n ->
  (forall i, 0 <= i < k -> exists w, index windows i = Some w /\ window_fits self w) ->
  index windows k = Some wk ->
  ~ (wy1 wk + patch_h self <= map_h self /\ wx1 wk + patch_w self <= map_w self) ->
  let self_k := fold_left (fun s i => apply_entry fzero fadd fmul s (subarray preds i)
                                                  (window_at windows i)) (range k) self in
  update fzero fadd fmul (take_entries k preds) windows self = (self_k, ok tt) /\
  update fzero fadd fmul preds windows self = (self_k, raise AssertionError).
Proof.
  intros Hsh Hk Hfit Hwk Hout self_k.
  destruct preds as [sh it]. simpl in Hsh. subst sh.
  set (preds := NdArray [n; map_c self; patch_h self; patch_w self] it) in *.
  assert (Htl : tl (shape preds) = [map_c self; patch_h self; patch_w self])
    by reflexivity.
  destruct (update_loop_fits preds windows (range k) self Htl) as [Hloop Hdims].
  { intros i Hi. apply Hfit. now apply in_range. }
  fold self_k in Hloop, Hdims.
  split.
  - unfold update, ndim, take_entries. simpl. exact Hloop.
  - unfold update, ndim. simpl.
    destruct (range_split n k Hk) as [rest ->].
    rewrite for_each_app, Hloop. simpl.
    unfold bindM at 1. unfold update_entry at 1.
    unfold bindM, lift, get. rewrite Hwk. simpl.
    destruct Hdims as [E1 [E2 [E3 [E4 E5]]]]. rewrite E1, E2, E4, E5.
    destruct (Z.leb_spec (wy1 wk + patch_h self) (map_h self));
      destruct (Z.leb_spec (wx1 wk + patch_w self) (map_w self)); simpl;
      try reflexivity.
    exfalso. apply Hout. lia.
Qed.

Lemma same_dims_trans (a b c : t F) : same_dims a b -> same_dims b c -> same_dims a c.
Proof.
  intros [A1 [A2 [A3 [A4 A5]]]] [B1 [B2 [B3 [B4 B5]]]].
  repeat split; congruence.
Qed.

Lemma entry_fits_same_dims (a b : t F) (e : entry F) :
  same_dims a b -> entry_fits b e -> entry_fits a e.
Proof.
  intros Hd [Hs Hw]. split; [|now apply window_fits_same_dims with b].
  destruct Hd as [E1 [E2 [E3 [E4 E5]]]]. now rewrite E3, E4, E5.
Qed.

Lemma same_dims_apply_entries (es : list (entry F)) (s : t F) :
  same_dims (apply_entries fzero fadd fmul es s) s.
Proof.
  revert s. induction es as [|e es IH]; intros s; simpl.
  - apply same_dims_refl.
  - apply same_dims_trans with (apply_entry fzero fadd fmul s (fst e) (snd e)).
    + apply IH.
    + apply same_dims_apply_entry, same_dims_refl.
Qed.

Lemma index_of_nat {A} (l : list A) (k : nat) : index l (Z.of_nat k) = nth_error l k.
Proof.
  unfold index. destruct (Z.ltb_spec (Z.of_nat k) 0); [lia|]. now rewrite Nat2Z.id.
Qed.

Lemma nth_error_middle {A} (pre rest : list A) (a : A) :
  nth_error (pre ++ a :: rest) (length pre) = Some a.
Proof. induction pre; simpl; auto. Qed.

Lemma batch_loop (sh : list Z) (rest pre : list (entry F)) (self s : t F) :
  sh = [map_c self; patch_h self; patch_w self] ->
  same_dims s self ->
  Forall (entry_fits self) rest ->
  for_each (map Z.of_nat (seq (length pre) (length rest)))
           (update_entry fzero fadd fmul (stack fzero sh (map fst (pre ++ rest)))
                         (map snd (pre ++ rest))) s
  = (apply_entries fzero fadd fmul rest s, ok tt).
Proof.
  intros Hsh. revert pre s. induction rest as [|e rest IH]; intros pre s Hs Hfit.
  - reflexivity.
  - inversion Hfit as [|e' l' He Hrest]; subst e' l'.
    pose proof (entry_fits_same_dims s self e Hs He) as [Hse Hwe].
    cbn [length seq map for_each]. unfold bindM at 1.
    rewrite (update_entry_fits _ _ _ s (snd e)).
    + rewrite (apply_entry_ext s _ (fst e)).
      * replace (pre ++ e :: rest) with ((pre ++ [e]) ++ rest)
          by (rewrite <- app_assoc; reflexivity).
        replace (S (length pre)) with (length (pre ++ [e]))
          by (rewrite length_app; simpl; lia).
        apply IH; [|exact Hrest].
        apply same_dims_apply_entry. exact Hs.
      * intros idx. simpl.
        destruct (Z.ltb_spec (Z.of_nat (length pre)) 0); [lia|].
        rewrite Nat2Z.id, map_app. simpl.
        replace (length pre) with (length (map fst pre)) by apply length_map.
        now rewrite nth_error_middle.
    + rewrite index_of_nat, map_app. simpl.
      replace (length pre) with (length (map snd pre)) by apply length_map.
      apply nth_error_middle.
    + simpl. destruct Hs as [E1 [E2 [E3 [E4 E5]]]]. rewrite Hsh. congruence.
    + exact Hwe.
Qed.

(** One [update] call with a batch whose entries all fit adds them one by
    one and succeeds. *)
Lemma update_batch_fits (es : list (entry F)) (self s : t F) :
  same_dims s self ->
  Forall (entry_fits self) es ->
  update_batch fzero fadd fmul [map_c self; patch_h self; patch_w self] es s
  = (apply_entries fzero fadd fmul es s, ok tt).
Proof.
  intros Hs Hfit. unfold update_batch, update, ndim. simpl.
  unfold range. rewrite Nat2Z.id, length_map.
  apply (batch_loop _ es [] self s eq_refl Hs Hfit).
Qed.

Lemma apply_entries_concat (bs : list (list (entry F))) (s : t F) :
  fold_left (fun s b => apply_entries fzero fadd fmul b s) bs s
  = apply_entries fzero fadd fmul (concat bs) s.
Proof.
  revert s. induction bs as [|b bs IH]; intros s; simpl; [reflexivity|].
  rewrite IH. unfold apply_entries. now rewrite fold_left_app.
Qed.

(** Successive [update] calls with batches whose entries all fit. *)
Lemma update_batches_fit (bs : list (list (entry F))) (self : t F) :
  Forall (entry_fits self) (concat bs) ->
  for_each bs (update_batch fzero fadd fmul [map_c self; patch_h self; patch_w self]) self
  = (apply_entries fzero fadd fmul (concat bs) self, ok tt).
Proof.
  intros Hfit. rewrite <- apply_entries_concat.
  apply (for_each_pure (fun s b => apply_entries fzero fadd fmul b s)
           (update_batch fzero fadd fmul [map_c self; patch_h self; patch_w self])
           bs self (fun s => same_dims s self)).
  - apply same_dims_refl.
  - intros s b Hs Hb. split.
    + apply update_batch_fits; [exact Hs|].
      rewrite Forall_forall in *. intros e He. apply Hfit.
      apply in_concat. exists b. now split.
    + apply same_dims_trans with s; [apply same_dims_apply_entries|exact Hs].
Qed.

Section Commutative.

Hypothesis fadd_comm : forall a b, fadd a b = fadd b a.
Hypothesis fadd_assoc : forall a b c, fadd a (fadd b c) = fadd (fadd a b) c.

Lemma region_add_comm (ys ye xs xe ys' ye' xs' xe' : Z) (d d' : Z -> Z -> Z -> F)
    (buf : list (list (list F))) :
  region_add fadd ys ye xs xe d (region_add fadd ys' ye' xs' xe' d' buf)
  = region_add fadd ys' ye' xs' xe' d' (region_add fadd ys ye xs xe d buf).
Proof.
  unfold region_add. rewrite !mapi_compose.
  apply mapi_ext; intros ci plane. rewrite !mapi_compose.
  apply mapi_ext; intros y row. rewrite !mapi_compose.
  apply mapi_ext; intros x old.
  destruct ((ys <=? y) && (y <? ye) && (xs <=? x) && (x <? xe));
    destruct ((ys' <=? y) && (y <? ye') && (xs' <=? x) && (x <? xe')); try reflexivity.
  rewrite <- !fadd_assoc. f_equal. apply fadd_comm.
Qed.

Lemma apply_entry_comm (s : t F) (p p' : ndarray F) (w w' : window) :
  apply_entry fzero fadd fmul (apply_entry fzero fadd fmul s p w) p' w'
  = apply_entry fzero fadd fmul (apply_entry fzero fadd fmul s p' w') p w.
Proof.
  unfold apply_entry. simpl. f_equal; apply region_add_comm.
Qed.

(** C4, as amended: over exact arithmetic, that is when the addition of the
    buffers is commutative and associative, the entries of a finite
    collection of (pred, window) pairs of shape (map_c, patch_h, patch_w)
    whose windows all fit inside the buffers can be handed to [update] in
    any order and in any grouping into successive calls: every call
    succeeds and the final object, hence the accumulation buffer and the
    weight buffer, is the same. *)
Theorem update_order_independent (self : t F) (bs1 bs2 : list (list (entry F))) :
  Forall (entry_fits self) (concat bs1) ->
  Permutation (concat bs1) (concat bs2) ->
  let sh := [map_c self; patch_h self; patch_w self] in
  exists final,
    for_each bs1 (update_batch fzero fadd fmul sh) self = (final, ok tt) /\
    for_each bs2 (update_batch fzero fadd fmul sh) self = (final, ok tt).
Proof.
  intros Hfit Hperm sh. exists (apply_entries fzero fadd fmul (concat bs1) self). split.
  - now apply update_batches_fit.
  - unfold sh. rewrite update_batches_fit.
    + f_equal. unfold apply_entries. symmetry.
      apply fold_left_permutation; [|exact Hperm].
      intros s a b. apply apply_entry_comm.
    + apply (Permutation_Forall Hperm Hfit).
Qed.

End Commutative.

End AccumulatorProperties.

(** ** The weight kernel *)

Lemma nth2_eq {A} (m : list (list A)) (y x : Z) :
  0 <= y -> 0 <= x ->
  nth2 m y x = match nth_error m (Z.to_nat y) with
               | Some row => nth_error row (Z.to_nat x)
               | None => None
               end.
Proof.
  intros Hy Hx. unfold nth2.
  destruct (Z.ltb_spec y 0); [lia|]. destruct (Z.ltb_spec x 0); [lia|]. reflexivity.
Qed.

Lemma nth2_mapi_rows {A B} (g : Z -> list A -> list B) (m : list (list A)) (y x : Z) :
  0 <= y -> 0 <= x ->
  nth2 (mapi g m) y x = match nth_error m (Z.to_nat y) with
                        | Some row => nth_error (g y row) (Z.to_nat x)
                        | None => None
                        end.
Proof.
  intros Hy Hx. rewrite nth2_eq by assumption. rewrite nth_error_mapi.
  rewrite Z2Nat.id by assumption. now destruct (nth_error m (Z.to_nat y)).
Qed.

Lemma nth2_mapi2 {A B} (f : Z -> Z -> A -> B) (m : list (list A)) (y x : Z) :
  0 <= y -> 0 <= x ->
  nth2 (mapi (fun r row => mapi (f r) row) m) y x = option_map (f y x) (nth2 m y x).
Proof.
  intros Hy Hx. rewrite nth2_mapi_rows, (nth2_eq m) by assumption.
  destruct (nth_error m (Z.to_nat y)); [|reflexivity].
  rewrite nth_error_mapi. now rewrite Z2Nat.id.
Qed.

Lemma map_as_mapi {A B} (g : A -> B) (l : list A) : map g l = mapi (fun _ => g) l.
Proof.
  unfold mapi. generalize 0%Z as k. induction l as [|a l IH]; intros k; simpl; [reflexivity|].
  f_equal. apply IH.
Qed.

Lemma nth2_ones (rows cols y x : Z) :
  0 <= y < rows -> 0 <= x < cols -> nth2 (ones rows cols) y x = Some 1.
Proof.
  intros Hy Hx. rewrite nth2_eq by lia. unfold ones.
  rewrite nth_error_repeat by lia. apply nth_error_repeat. lia.
Qed.

Lemma bordered_ones_spec (ph pw : Z) :
  0 <= ph -> 0 <= pw ->
  exists a, bordered_ones ph pw = ok a /\
    forall y x, 0 <= y < ph + 2 -> 0 <= x < pw + 2 ->
      nth2 a y x = Some (border_cell (ph + 2) (pw + 2) y x).
Proof.
  intros Hph Hpw. unfold bordered_ones, zero_row, zero_col, norm_index.
  set (rows := ph + 2). set (cols := pw + 2).
  assert (Hrows : 2 <= rows) by (unfold rows; lia).
  assert (Hcols : 2 <= cols) by (unfold cols; lia).
  clearbody rows cols.
  destruct (Z.ltb_spec rows 0); [lia|]. destruct (Z.ltb_spec cols 0); [lia|].
  change (0 <? 0) with false. change (-1 <? 0) with true. cbv iota.
  change (0 <=? 0) with true.
  destruct (Z.ltb_spec 0 rows); [|lia]. destruct (Z.ltb_spec 0 cols); [|lia].
  destruct (Z.leb_spec 0 (-1 + rows)); [|lia].
  destruct (Z.leb_spec 0 (-1 + cols)); [|lia].
  destruct (Z.ltb_spec (-1 + rows) rows); [|lia].
  destruct (Z.ltb_spec (-1 + cols) cols); [|lia].
  cbn [orb andb bind ok]. eexists. split; [reflexivity|].
  intros y x Hy Hx.
  rewrite !(map_as_mapi (mapi _)), !mapi_compose.
  rewrite nth2_mapi_rows by lia.
  unfold ones at 1. rewrite nth_error_repeat by lia.
  rewrite mapi_compose, nth_error_mapi, Z2Nat.id by lia.
  unfold border_cell.
  assert (Hr : nth_error (repeat 1 (Z.to_nat cols)) (Z.to_nat x) = Some 1)
    by (apply nth_error_repeat; lia).
  destruct (Z.eqb_spec y 0); destruct (Z.eqb_spec y (-1 + rows));
    destruct (Z.eqb_spec y (rows - 1)); try lia;
    rewrite ?nth_error_map, Hr; cbn [option_map orb];
    destruct (Z.eqb_spec x 0); destruct (Z.eqb_spec x (-1 + cols));
    destruct (Z.eqb_spec x (cols - 1)); try lia; reflexivity.
Qed.

Lemma in_mapi {A B} (f : Z -> A -> B) (l : list A) (b : B) :
  In b (mapi f l) <-> exists n a, nth_error l n = Some a /\ b = f (Z.of_nat n) a.
Proof.
  split.
  - intros Hb. apply In_nth_error in Hb. destruct Hb as [n Hn].
    rewrite nth_error_mapi in Hn. destruct (nth_error l n) as [a|] eqn:E; [|discriminate].
    exists n, a. split; [exact E|]. simpl in Hn. congruence.
  - intros [n [a [Hn ->]]]. apply nth_error_In with n.
    rewrite nth_error_mapi, Hn. reflexivity.
Qed.

Lemma in_zero_cells (a : list (list Z)) (r c : Z) :
  In (r, c) (zero_cells a) <-> 0 <= r /\ 0 <= c /\ nth2 a r c = Some 0.
Proof.
  unfold zero_cells. rewrite in_concat. split.
  - intros [cells [Hcells Hin]]. apply in_mapi in Hcells.
    destruct Hcells as [n [row [Hrow ->]]].
    apply in_concat in Hin. destruct Hin as [cell [Hcell Hin]].
    apply in_mapi in Hcell. destruct Hcell as [m [v [Hv ->]]].
    destruct (Z.eqb_spec v 0) as [->|_]; [|contradiction].
    destruct Hin as [E|[]]. injection E as <- <-.
    split; [lia|]. split; [lia|].
    rewrite nth2_eq, !Nat2Z.id, Hrow by lia. exact Hv.
  - intros [Hr [Hc H0]]. rewrite nth2_eq in H0 by assumption.
    destruct (nth_error a (Z.to_nat r)) as [row|] eqn:Hrow; [|discriminate].
    eexists. split.
    + apply in_mapi. exists (Z.to_nat r), row. split; [exact Hrow|reflexivity].
    + apply in_concat. eexists. split.
      * apply in_mapi. exists (Z.to_nat c), 0. split; [exact H0|reflexivity].
      * rewrite !Z2Nat.id by assumption. now left.
Qed.

Lemma fold_min_le (l : list Z) (d : Z) :
  fold_left Z.min l d <= d /\ forall e, In e l -> fold_left Z.min l d <= e.
Proof.
  revert d. induction l as [|a l IH]; intros d; simpl.
  - split; [lia|intros e []].
  - destruct (IH (Z.min d a)) as [H1 H2]. split; [lia|].
    intros e [<-|He]; [lia|now apply H2].
Qed.

Lemma fold_min_in (l : list Z) (d : Z) : In (fold_left Z.min l d) (d :: l).
Proof.
  revert d. induction l as [|a l IH]; intros d; simpl.
  - now left.
  - destruct (IH (Z.min d a)) as [E|Hin].
    + rewrite <- E. destruct (Z.min_spec d a) as [[_ ->]|[_ ->]]; simpl; auto.
    + auto.
Qed.

Lemma list_min_eq (l : list Z) (m : Z) :
  In m l -> (forall e, In e l -> m <= e) -> list_min l = m.
Proof.
  intros Hin Hle. destruct l as [|d l]; [contradiction|]. simpl.
  pose proof (fold_min_in l d) as Hmin.
  destruct (fold_min_le l d) as [H1 H2].
  specialize (Hle _ Hmin).
  destruct Hin as [<-|Hin]; [lia|]. specialize (H2 _ Hin). lia.
Qed.

Lemma nth2_edt_sq (a : list (list Z)) (y x : Z) :
  0 <= y -> 0 <= x ->
  nth2 (edt_sq a) y x
  = option_map (fun v => if v =? 0 then 0
                         else list_min (map (sq_dist y x) (zero_cells a)))
               (nth2 a y x).
Proof. intros Hy Hx. unfold edt_sq. now rewrite nth2_mapi2. Qed.

Lemma nth_error_slice_inner {A} (l : list A) (n : nat) :
  (n + 2 < length l)%nat ->
  nth_error (slice 1 (-1) l) n = nth_error l (S n).
Proof.
  intros Hn. unfold slice, slice_bound.
  change (1 <? 0) with false. change (-1 <? 0) with true. cbv iota.
  rewrite nth_error_firstn.
  destruct (Nat.ltb_spec n
              (Z.to_nat (Z.max 0 (-1 + Z.of_nat (length l)) - Z.min 1 (Z.of_nat (length l)))));
    [|lia].
  rewrite nth_error_skipn. f_equal. lia.
Qed.

Lemma nth2_some_lengths {A} (m : list (list A)) (y x : Z) :
  0 <= y -> 0 <= x -> nth2 m y x <> None ->
  exists row, nth_error m (Z.to_nat y) = Some row /\ (Z.to_nat x < length row)%nat /\
              (Z.to_nat y < length m)%nat.
Proof.
  intros Hy Hx H. rewrite nth2_eq in H by assumption.
  destruct (nth_error m (Z.to_nat y)) as [row|] eqn:E; [|contradiction].
  exists row. split; [reflexivity|]. split.
  - now apply nth_error_Some.
  - apply nth_error_Some. congruence.
Qed.

Lemma nth2_crop_inner {A} (m : list (list A)) (i j : Z) :
  0 <= i -> 0 <= j ->
  nth2 m (i + 2) 0 <> None -> nth2 m (i + 1) (j + 2) <> None ->
  nth2 (crop2 1 (-1) 1 (-1) m) i j = nth2 m (i + 1) (j + 1).
Proof.
  intros Hi Hj H1 H2.
  destruct (nth2_some_lengths m (i + 2) 0 ltac:(lia) ltac:(lia) H1) as [_ [_ [_ L1]]].
  destruct (nth2_some_lengths m (i + 1) (j + 2) ltac:(lia) ltac:(lia) H2)
    as [row [Hrow [L2 _]]].
  rewrite !nth2_eq by lia. unfold crop2.
  rewrite nth_error_map, nth_error_slice_inner by lia.
  replace (S (Z.to_nat i)) with (Z.to_nat (i + 1)) by lia.
  rewrite Hrow. simpl.
  rewrite nth_error_slice_inner by lia. f_equal. lia.
Qed.

Lemma sq_dist_pos (y x r c : Z) : (r, c) <> (y, x) -> 1 <= sq_dist y x (r, c).
Proof.
  intros Hne. unfold sq_dist. simpl.
  assert (y <> r \/ x <> c) as [H|H]
    by (destruct (Z.eq_dec y r); destruct (Z.eq_dec x c); subst; try tauto; congruence).
  - assert (y - r <= -1 \/ 1 <= y - r) as [L|L] by lia;
      pose proof (Z.square_nonneg (x - c)); nia.
  - assert (x - c <= -1 \/ 1 <= x - c) as [L|L] by lia;
      pose proof (Z.square_nonneg (y - r)); nia.
Qed.

Lemma border_cell_inner (rows cols y x : Z) :
  0 < y < rows - 1 -> 0 < x < cols - 1 -> border_cell rows cols y x = 1.
Proof.
  intros Hy Hx. unfold border_cell.
  destruct (Z.eqb_spec y 0); [lia|]. destruct (Z.eqb_spec y (rows - 1)); [lia|].
  destruct (Z.eqb_spec x 0); [lia|]. destruct (Z.eqb_spec x (cols - 1)); [lia|].
  reflexivity.
Qed.

Lemma border_cell_border (rows cols y x : Z) :
  y = 0 \/ y = rows - 1 \/ x = 0 \/ x = cols - 1 -> border_cell rows cols y x = 0.
Proof.
  intros H. unfold border_cell.
  destruct (Z.eqb_spec y 0); [reflexivity|]. destruct (Z.eqb_spec y (rows - 1)); [reflexivity|].
  destruct (Z.eqb_spec x 0); [reflexivity|]. destruct (Z.eqb_spec x (cols - 1)); [reflexivity|].
  lia.
Qed.

(** The squared kernel: every cell holds a squared distance of at least 1,
    and the cells of the outermost ring hold exactly 1. *)
Lemma kernel_sq_ring (ph pw : Z) :
  1 <= ph -> 1 <= pw ->
  exists K, kernel_sq ph pw = ok K /\
    forall i j, 0 <= i < ph -> 0 <= j < pw ->
      exists v, nth2 K i j = Some v /\ 1 <= v /\
                (i = 0 \/ i = ph - 1 \/ j = 0 \/ j = pw - 1 -> v = 1).
Proof.
  intros Hph Hpw.
  destruct (bordered_ones_spec ph pw ltac:(lia) ltac:(lia)) as [a [Ea Ha]].
  unfold kernel_sq. rewrite Ea. cbn [bind ok]. eexists. split; [reflexivity|].
  intros i j Hi Hj.
  assert (Hcell : forall y x, 0 <= y < ph + 2 -> 0 <= x < pw + 2 ->
                              nth2 (edt_sq a) y x <> None).
  { intros y x Hy Hx. rewrite nth2_edt_sq, Ha by lia. discriminate. }
  rewrite nth2_crop_inner by (try apply Hcell; lia).
  rewrite nth2_edt_sq, Ha by lia.
  rewrite border_cell_inner by lia. cbn [option_map]. change (1 =? 0) with false. cbv iota.
  eexists. split; [reflexivity|].
  assert (Hlow : forall e, In e (map (sq_dist (i + 1) (j + 1)) (zero_cells a)) -> 1 <= e).
  { intros e He. apply in_map_iff in He. destruct He as [[r c] [<- Hrc]].
    apply in_zero_cells in Hrc. destruct Hrc as [_ [_ Hrc]].
    apply sq_dist_pos. intros E. injection E as E1 E2. subst r c.
    rewrite Ha, border_cell_inner in Hrc by lia. discriminate. }
  assert (Hzero : forall r c, 0 <= r < ph + 2 -> 0 <= c < pw + 2 ->
                    r = 0 \/ r = ph + 2 - 1 \/ c = 0 \/ c = pw + 2 - 1 ->
                    In (sq_dist (i + 1) (j + 1) (r, c))
                       (map (sq_dist (i + 1) (j + 1)) (zero_cells a))).
  { intros r c Hr Hc Hb. apply in_map. apply in_zero_cells.
    split; [lia|]. split; [lia|]. rewrite Ha by lia. now rewrite border_cell_border. }
  split.
  - pose proof (Hzero 0 0 ltac:(lia) ltac:(lia) ltac:(lia)) as Hin.
    destruct (map (sq_dist (i + 1) (j + 1)) (zero_cells a)) as [|d l]; [contradiction|].
    pose proof (fold_min_in l d) as Hmin. apply Hlow. exact Hmin.
  - intros Hring. apply list_min_eq; [|exact Hlow].
    assert (Hone : forall r c, 0 <= r < ph + 2 -> 0 <= c < pw + 2 ->
                     r = 0 \/ r = ph + 2 - 1 \/ c = 0 \/ c = pw + 2 - 1 ->
                     sq_dist (i + 1) (j + 1) (r, c) = 1 ->
                     In 1 (map (sq_dist (i + 1) (j + 1)) (zero_cells a))).
    { intros r c Hr Hc Hb E. pose proof (Hzero r c Hr Hc Hb) as Hin.
      rewrite E in Hin. exact Hin. }
    destruct Hring as [-> | [-> | [-> | ->]]].
    + apply (Hone 0 (j + 1)); try lia. unfold sq_dist. cbn [fst snd]. ring.
    + apply (Hone (ph + 1) (j + 1)); try lia. unfold sq_dist. cbn [fst snd]. ring.
    + apply (Hone (i + 1) 0); try lia. unfold sq_dist. cbn [fst snd]. ring.
    + apply (Hone (i + 1) (pw + 1)); try lia. unfold sq_dist. cbn [fst snd]. ring.
Qed.

Lemma nth2_map2 {A B} (f : A -> B) (m : list (list A)) (y x : Z) :
  nth2 (map (map f) m) y x = option_map f (nth2 m y x).
Proof.
  unfold nth2. destruct ((y <? 0) || (x <? 0)); [reflexivity|].
  rewrite nth_error_map. destruct (nth_error m (Z.to_nat y)); [|reflexivity].
  simpl. apply nth_error_map.
Qed.

(** C3, as amended: for every patch shape (ph,pw) with ph >= 1 and pw >= 1,
    the weight kernel computed at construction (border-zeroed ones matrix
    of shape (ph+2,pw+2), Euclidean distance transform, one-pixel border
    cropped) has value 1 at every cell of the outermost ring of the (ph,pw)
    result: the distance to the zero border that was cropped off. *)
Theorem kernel_ring_is_one (ph pw : Z) :
  1 <= ph -> 1 <= pw ->
  exists K,
    WeightedPredictManager.patch_weight_kernel sqrtZ ph pw = ok [K] /\
    forall i j, 0 <= i < ph -> 0 <= j < pw ->
      i = 0 \/ i = ph - 1 \/ j = 0 \/ j = pw - 1 ->
      nth2 K i j = Some 1%R.
Proof.
  intros Hph Hpw. destruct (kernel_sq_ring ph pw Hph Hpw) as [K [EK HK]].
  unfold WeightedPredictManager.patch_weight_kernel. rewrite EK. cbn [bind ok].
  eexists. split; [reflexivity|].
  intros i j Hi Hj Hring. destruct (HK i j Hi Hj) as [v [Hv [_ H1]]].
  rewrite nth2_map2, Hv, (H1 Hring). cbn [option_map]. f_equal. apply sqrt_1.
Qed.

Lemma kernel_ring_is_one_witness :
  exists K,
    WeightedPredictManager.patch_weight_kernel sqrtZ 3 3 = ok [K] /\
    forall i j, 0 <= i < 3 -> 0 <= j < 3 ->
      i = 0 \/ i = 3 - 1 \/ j = 0 \/ j = 3 - 1 ->
      nth2 K i j = Some 1%R.
Proof. apply (kernel_ring_is_one 3 3); lia. Defined.

(** C3 as stated fails: for ph = pw = 1 the kernel is the single cell 1,
    which lies on the outermost ring and is not 0. *)
Lemma kernel_ring_not_zero :
  exists K,
    WeightedPredictManager.patch_weight_kernel sqrtZ 1 1 = ok [K] /\
    exists v, nth2 K 0 0 = Some v /\ v <> 0%R.
Proof.
  exists [[sqrtZ 1]]. split; [reflexivity|].
  exists (sqrtZ 1). split; [reflexivity|].
  unfold sqrtZ. rewrite sqrt_1. apply R1_neq_R0.
Qed.

(** ** The streaming window source *)

Lemma slice_length {A} (a b : Z) (l : list A) :
  0 <= a <= b -> b <= Z.of_nat (length l) ->
  Z.of_nat (length (slice a b l)) = b - a.
Proof.
  intros Ha Hb. unfold slice. rewrite !slice_bound_inside by lia.
  rewrite length_firstn, length_skipn. lia.
Qed.

Lemma nth_error_slice {A} (a b : Z) (l : list A) (n : nat) :
  0 <= a <= b -> b <= Z.of_nat (length l) ->
  nth_error (slice a b l) n
  = if Z.of_nat n <? b - a then nth_error l (Z.to_nat a + n) else None.
Proof.
  intros Ha Hb. unfold slice. rewrite !slice_bound_inside by lia.
  rewrite nth_error_firstn, nth_error_skipn.
  destruct (Nat.ltb_spec n (Z.to_nat (b - a))); destruct (Z.ltb_spec (Z.of_nat n) (b - a));
    try lia; reflexivity.
Qed.

Lemma nth2_negative {A} (m : list (list A)) (y x : Z) :
  y < 0 \/ x < 0 -> nth2 m y x = None.
Proof.
  intros H. unfold nth2.
  destruct (Z.ltb_spec y 0); destruct (Z.ltb_spec x 0); try reflexivity; lia.
Qed.

Lemma nth2_crop2 {A} (h w a b c d : Z) (plane : list (list A)) (r q : Z) :
  has_shape2 h w plane -> 0 <= a <= b -> b <= h -> 0 <= c <= d -> d <= w ->
  nth2 (crop2 a b c d plane) r q
  = if (0 <=? r) && (r <? b - a) && (0 <=? q) && (q <? d - c)
    then nth2 plane (r + a) (q + c) else None.
Proof.
  intros [Hh Hw] Ha Hb Hc Hd.
  destruct (Z.leb_spec 0 r); [|now rewrite nth2_negative by lia].
  destruct (Z.leb_spec 0 q);
    [|rewrite nth2_negative by lia; now destruct (r <? b - a)].
  rewrite !nth2_eq by lia. unfold crop2.
  rewrite nth_error_map, nth_error_slice, Z2Nat.id by lia.
  destruct (Z.ltb_spec r (b - a)); [|reflexivity].
  replace (Z.to_nat (r + a)) with (Z.to_nat a + Z.to_nat r)%nat by lia.
  destruct (nth_error plane (Z.to_nat a + Z.to_nat r)) as [row|] eqn:E;
    [|simpl; now destruct (q <? d - c)].
  cbn [option_map andb].
  rewrite Forall_forall in Hw. specialize (Hw row (nth_error_In _ _ E)).
  rewrite nth_error_slice, Z2Nat.id by lia.
  destruct (Z.ltb_spec q (d - c)); [|reflexivity].
  f_equal. lia.
Qed.

Lemma nth2_overlay (block : list (list Z)) (xoff yoff : Z) (old : band) (y x : Z) :
  nth2 (overlay block xoff yoff old) y x
  = option_map (fun v => match nth2 block (y - yoff) (x - xoff) with
                         | Some p => p
                         | None => v
                         end) (nth2 old y x).
Proof.
  destruct (Z.leb_spec 0 y);
    [|now rewrite (nth2_negative (overlay _ _ _ _)), (nth2_negative old) by lia].
  destruct (Z.leb_spec 0 x);
    [|now rewrite (nth2_negative (overlay _ _ _ _)), (nth2_negative old) by lia].
  unfold overlay. now rewrite nth2_mapi2.
Qed.

Lemma overlay_idempotent (block : list (list Z)) (xoff yoff : Z) (old : band) :
  overlay block xoff yoff (overlay block xoff yoff old) = overlay block xoff yoff old.
Proof.
  unfold overlay. rewrite mapi_compose. apply mapi_ext. intros y row.
  rewrite mapi_compose. apply mapi_ext. intros x v.
  now destruct (nth2 block (y - yoff) (x - xoff)).
Qed.

Lemma nth_error_set_nth {A} (n : nat) (a : A) (l : list A) (k : nat) :
  nth_error (set_nth n a l) k
  = if Nat.eqb k n then (if Nat.ltb n (length l) then Some a else None)
    else nth_error l k.
Proof.
  revert n k. induction l as [|b l IH]; intros n k; simpl.
  - destruct n; destruct k; simpl; try reflexivity. now destruct (Nat.eqb k n).
  - destruct n as [|n]; destruct k as [|k]; simpl; try reflexivity.
    rewrite IH. destruct (Nat.eqb k n); [|reflexivity].
    destruct (Nat.ltb_spec n (length l)); destruct (Nat.ltb_spec (S n) (S (length l)));
      try reflexivity; lia.
Qed.

Lemma mapi_length {A B} (f : Z -> A -> B) (l : list A) : length (mapi f l) = length l.
Proof. apply mapi_from_length. Qed.

Lemma mapi_id {A} (l : list A) : mapi (fun _ a => a) l = l.
Proof.
  unfold mapi. generalize 0 as k. induction l as [|a l IH]; intros k; simpl; [reflexivity|].
  f_equal. apply IH.
Qed.

Lemma range_succ (n : nat) : range (Z.of_nat (S n)) = range (Z.of_nat n) ++ [Z.of_nat n].
Proof.
  unfold range. rewrite !Nat2Z.id, seq_S, map_app. reflexivity.
Qed.

Lemma band_loop (phi : Z -> band -> band) (bands : list band) (n : nat) :
  (n <= length bands)%nat ->
  fold_left (band_step phi) (range (Z.of_nat n)) bands
  = mapi (fun b old => if b <? Z.of_nat n then phi b old else old) bands.
Proof.
  induction n as [|n IH]; intros Hn; apply nth_error_ext; intros k.
  - simpl. rewrite nth_error_mapi.
    destruct (Z.ltb_spec (Z.of_nat k) 0); [lia|]. now destruct (nth_error bands k).
  - rewrite range_succ, fold_left_app, IH by lia. cbn [fold_left].
    unfold band_step. rewrite Nat2Z.id, nth_error_set_nth.
    rewrite mapi_length, !nth_error_mapi.
    destruct (Nat.eqb_spec k n) as [->|Hk].
    + destruct (Nat.ltb_spec n (length bands)); [|lia].
      destruct (nth_error bands n) as [old|] eqn:E;
        [|apply nth_error_None in E; lia].
      assert (En : nth n (mapi (fun b old0 => if b <? Z.of_nat n then phi b old0 else old0)
                               bands) [] = old).
      { apply nth_error_nth. rewrite nth_error_mapi, E. cbn [option_map].
        destruct (Z.ltb_spec (Z.of_nat n) (Z.of_nat n)); [lia|reflexivity]. }
      rewrite En.
      cbn [option_map].
      destruct (Z.ltb_spec (Z.of_nat n) (Z.of_nat n)); [lia|].
      destruct (Z.ltb_spec (Z.of_nat n) (Z.of_nat (S n))); [reflexivity|lia].
    + destruct (nth_error bands k); [|reflexivity]. cbn [option_map].
      destruct (Z.ltb_spec (Z.of_nat k) (Z.of_nat n));
        destruct (Z.ltb_spec (Z.of_nat k) (Z.of_nat (S n))); try reflexivity; lia.
Qed.

Section StreamingSource.

Import RSImageSlideWindowManager.

Lemma trims_bounds (self : t) (w : window) (dy1 dy2 dx1 dx2 : Z) :
  0 <= overlap self < window_sz self ->
  trims self w = (dy1, dy2, dx1, dx2) ->
  0 <= dy1 /\ 0 <= dy2 /\ dy1 + dy2 <= window_sz self /\
  0 <= dx1 /\ 0 <= dx2 /\ dx1 + dx2 <= window_sz self.
Proof.
  intros HO E. unfold trims in E. injection E as <- <- <- <-.
  pose proof (Z.div_pos (overlap self) 2 ltac:(lia) ltac:(lia)).
  pose proof (Z.mul_div_le (overlap self) 2 ltac:(lia)).
  destruct (wy1 w =? 0); destruct (wy2 w =? img_h self);
    destruct (wx1 w =? 0); destruct (wx2 w =? img_w self); lia.
Qed.

Lemma hd_nth_error {A} (l : list (list A)) :
  hd [] l = match nth_error l 0 with Some r => r | None => [] end.
Proof. now destruct l. Qed.

Lemma crop2_sizes {A} (h w a b c d : Z) (plane : list (list A)) :
  has_shape2 h w plane -> 0 <= a <= b -> b <= h -> 0 <= c <= d -> d <= w ->
  Z.of_nat (length (crop2 a b c d plane)) = b - a /\
  Z.of_nat (length (hd [] (crop2 a b c d plane))) <= d - c.
Proof.
  intros [Hh Hw] Ha Hb Hc Hd. split.
  - unfold crop2. rewrite length_map. apply slice_length; lia.
  - rewrite hd_nth_error. unfold crop2.
    rewrite nth_error_map, nth_error_slice by lia.
    destruct (Z.of_nat 0 <? b - a); [|simpl; lia].
    destruct (nth_error plane (Z.to_nat a + 0)) as [row|] eqn:E; [|simpl; lia].
    cbn [option_map]. rewrite Forall_forall in Hw.
    specialize (Hw row (nth_error_In _ _ E)). rewrite slice_length; lia.
Qed.

Lemma set_out_raster_self (self : t) :
  set_out_raster self (out_raster self) = self.
Proof. now destruct self. Qed.

Lemma fit_result_spec (self : t) (result : list (list (list Z))) (w : window) :
  fit_ready self result w ->
  fit_result result self
  = (set_out_raster self
       (Raster (img_w self) (img_h self) (fit_bands self result w)), ok tt).
Proof.
  intros [Hidx [Hwin [HO [HX [HY [Hnb [Hres Hshape]]]]]]].
  unfold fit_result, bindM, get, lift. cbv beta iota.
  unfold ok at 1. cbv beta iota. rewrite Hidx.
  cbn [of_option]. unfold ok at 1. cbv beta iota.
  unfold fit_bands, fit_block.
  destruct (trims self w) as [[[dy1 dy2] dx1] dx2] eqn:Et.
  destruct (trims_bounds self w _ _ _ _ HO Et) as [B1 [B2 [B3 [B4 [B5 B6]]]]].
  destruct Hwin as [W1 [W2 [W3 [W4 [W5 W6]]]]].
  set (T := window_sz self) in *.
  set (phi := fun b : Z => overlay (crop2 dy1 (T - dy2) dx1 (T - dx2) (result_plane result b))
                                   (wx1 w + dx1) (wy1 w + dy1)).
  set (bands := raster_bands (out_raster self)) in *.
  set (step := fun (s : t) (i : Z) =>
                 set_out_raster s
                   (Raster (RasterXSize (out_raster s)) (RasterYSize (out_raster s))
                           (band_step phi (raster_bands (out_raster s)) i))).
  assert (Hfold : forall l bs,
            fold_left step l (set_out_raster self (Raster (img_w self) (img_h self) bs))
            = set_out_raster self
                (Raster (img_w self) (img_h self) (fold_left (band_step phi) l bs))).
  { induction l as [|i l IH]; intros bs; [reflexivity|]. cbn [fold_left]. now rewrite <- IH. }
  assert (Hself : self = set_out_raster self (Raster (img_w self) (img_h self) bands)).
  { rewrite <- HX, <- HY. unfold bands. destruct (out_raster self) eqn:Er.
    simpl. rewrite <- Er. symmetry. apply set_out_raster_self. }
  destruct (for_each_pure step (write_band result w dy1 dy2 dx1 dx2)
              (range (out_bands self)) self
              (fun s => exists bs,
                   s = set_out_raster self (Raster (img_w self) (img_h self) bs) /\
                   length bs = length bands)) as [Hrun _].
  - exists bands. split; [exact Hself|reflexivity].
  - intros s i [bs [-> Hlen]] Hi. apply in_range in Hi. split.
    + unfold write_band, bindM, get, lift, put.
      assert (Hi' : (Z.to_nat i < length result)%nat) by lia.
      destruct (nth_error result (Z.to_nat i)) as [plane|] eqn:Ep;
        [|apply nth_error_None in Ep; lia].
      assert (Hplane : index result i = Some plane).
      { unfold index. destruct (Z.ltb_spec i 0); [lia|exact Ep]. }
      cbn [of_option ok out_raster
           set_out_raster raster_bands
           RasterXSize RasterYSize window_sz].
      assert (Hb' : (Z.to_nat i < length bs)%nat) by (unfold bands in *; lia).
      destruct (nth_error bs (Z.to_nat i)) as [old|] eqn:Eo;
        [|apply nth_error_None in Eo; lia].
      cbn [of_option ok]. rewrite Hplane. cbn [of_option ok].
      rewrite Forall_forall in Hshape.
      pose proof (Hshape plane (nth_error_In _ _ Ep)) as Hsh.
      destruct (crop2_sizes T T dy1 (T - dy2) dx1 (T - dx2) plane Hsh)
        as [L1 L2]; try lia.
      unfold WriteArray. fold T.
      destruct (Z.gtb_spec
                  (Z.of_nat (length (hd [] (crop2 dy1 (T - dy2) dx1 (T - dx2) plane)))
                   + (wx1 w + dx1)) (img_w self)); [lia|].
      destruct (Z.gtb_spec
                  (Z.of_nat (length (crop2 dy1 (T - dy2) dx1 (T - dx2) plane))
                   + (wy1 w + dy1)) (img_h self)); [lia|].
      destruct (Z.ltb_spec (wx1 w + dx1) 0); [lia|].
      destruct (Z.ltb_spec (wy1 w + dy1) 0); [lia|].
      cbn [orb ok]. unfold step, band_step, phi, result_plane.
      cbn [out_raster set_out_raster raster_bands RasterXSize RasterYSize
           window_sz overlap in_raster img_w img_h out_bands
           windows window_i].
      rewrite Hplane. erewrite nth_error_nth by exact Eo. reflexivity.
    + exists (band_step phi bs i). split; [reflexivity|].
      unfold band_step.
      assert (Hsn : forall (n : nat) (a : band) (l : list band),
                 length (set_nth n a l) = length l).
      { intros n a l. revert n. induction l as [|x l IH]; intros [|n]; simpl; auto. }
      now rewrite Hsn.
  - rewrite Hrun. f_equal.
    transitivity (fold_left step (range (out_bands self))
                    (set_out_raster self
                       (Raster (img_w self) (img_h self) bands)));
      [now rewrite <- Hself|].
    rewrite Hfold. do 2 f_equal.
    replace (out_bands self) with (Z.of_nat (length bands)) by exact Hnb.
    rewrite band_loop by lia. reflexivity.
Qed.

Lemma nth2_in_shape {A} (h w : Z) (m : list (list A)) (y x : Z) :
  has_shape2 h w m -> 0 <= y < h -> 0 <= x < w -> exists p, nth2 m y x = Some p.
Proof.
  intros [Hh Hw] Hy Hx. rewrite nth2_eq by lia.
  destruct (nth_error m (Z.to_nat y)) as [row|] eqn:E;
    [|apply nth_error_None in E; lia].
  rewrite Forall_forall in Hw. specialize (Hw row (nth_error_In _ _ E)).
  destruct (nth_error row (Z.to_nat x)) as [p|] eqn:E';
    [now exists p|apply nth_error_None in E'; lia].
Qed.

Lemma fit_ready_after (self : t) (result : list (list (list Z))) (w : window) :
  fit_ready self result w ->
  fit_ready (set_out_raster self
               (Raster (img_w self) (img_h self) (fit_bands self result w)))
            result w.
Proof.
  intros [Hidx [Hwin [HO [HX [HY [Hnb [Hres Hshape]]]]]]].
  repeat split; try assumption; try apply Hwin; try apply HO.
  cbn [out_raster set_out_raster raster_bands out_bands].
  unfold fit_bands. destruct (trims self w) as [[[dy1 dy2] dx1] dx2].
  now rewrite mapi_length.
Qed.

Lemma fit_bands_again (self : t) (result : list (list (list Z))) (w : window) :
  fit_bands (set_out_raster self
               (Raster (img_w self) (img_h self) (fit_bands self result w)))
            result w
  = fit_bands self result w.
Proof.
  unfold fit_bands at 1 3. unfold fit_block.
  change (trims (set_out_raster self _) w) with (trims self w).
  cbn [out_raster set_out_raster raster_bands out_bands window_sz].
  unfold fit_bands, fit_block.
  destruct (trims self w) as [[[dy1 dy2] dx1] dx2].
  rewrite mapi_compose. apply mapi_ext. intros b old.
  destruct (b <? out_bands self); [apply overlay_idempotent|reflexivity].
Qed.

(** C7: for the window [y1,y2,x1,x2] last returned by [get_next],
    [fit_result] trims overlap // 2 pixels from each side of [result] that
    does not touch the boundary of the raster (a side with y1 = 0, x1 = 0,
    y2 = H or x2 = W is trimmed by 0) and writes the trimmed interior
    result[b, dy1:T-dy2, dx1:T-dx2] of every band b < out_bands at offset
    (y1+dy1, x1+dx1); every other pixel of the output keeps its value. *)
Theorem fit_result_writes_trimmed_interior
    (self : t) (result : list (list (list Z))) (w : window) :
  fit_ready self result w ->
  let O := overlap self in
  let T := window_sz self in
  let dy1 := trim (wy1 w =? 0) O in
  let dy2 := trim (wy2 w =? img_h self) O in
  let dx1 := trim (wx1 w =? 0) O in
  let dx2 := trim (wx2 w =? img_w self) O in
  exists out,
    fit_result result self = (set_out_raster self out, ok tt) /\
    forall b y x,
      nth3 (raster_bands out) b y x
      = match nth3 (raster_bands (out_raster self)) b y x with
        | None => None
        | Some old =>
            if (b <? out_bands self)
               && (wy1 w + dy1 <=? y) && (y <? wy1 w + dy1 + (T - dy2 - dy1))
               && (wx1 w + dx1 <=? x) && (x <? wx1 w + dx1 + (T - dx2 - dx1))
            then nth3 result b (dy1 + (y - (wy1 w + dy1))) (dx1 + (x - (wx1 w + dx1)))
            else Some old
        end.
Proof.
  intros Hready O T dy1 dy2 dx1 dx2.
  eexists. split; [apply (fit_result_spec self result w Hready)|].
  destruct Hready as [Hidx [Hwin [HO [HX [HY [Hnb [Hres Hshape]]]]]]].
  intros b y x. cbn [raster_bands]. unfold fit_bands, fit_block.
  assert (Et : trims self w = (dy1, dy2, dx1, dx2)) by reflexivity.
  rewrite Et.
  destruct (trims_bounds self w _ _ _ _ HO Et) as [B1 [B2 [B3 [B4 [B5 B6]]]]].
  fold T in B3, B6, Hshape |- *.
  unfold nth3. destruct (Z.ltb_spec b 0); [reflexivity|].
  rewrite nth_error_mapi, Z2Nat.id by lia.
  unfold band in *.
  destruct (@nth_error (list (list Z)) (raster_bands (out_raster self)) (Z.to_nat b))
    as [old_band|] eqn:Eb; [|reflexivity].
  cbn [option_map].
  destruct (Z.ltb_spec b (out_bands self)); cbn [andb];
    [|now destruct (nth2 old_band y x)].
  rewrite nth2_overlay.
  destruct (nth2 old_band y x) as [old|]; [|reflexivity]. cbn [option_map].
  destruct (nth_error result (Z.to_nat b)) as [plane|] eqn:Ep;
    [|apply nth_error_None in Ep; lia].
  assert (Hplane : result_plane result b = plane).
  { unfold result_plane, index. destruct (Z.ltb_spec b 0); [lia|]. now rewrite Ep. }
  rewrite Hplane.
  rewrite Forall_forall in Hshape.
  pose proof (Hshape plane (nth_error_In _ _ Ep)) as Hsh.
  rewrite (nth2_crop2 T T) by (try exact Hsh; lia).
  destruct (Z.leb_spec (wy1 w + dy1) y); destruct (Z.leb_spec 0 (y - (wy1 w + dy1)));
    try lia; cbn [andb]; [|reflexivity].
  destruct (Z.ltb_spec y (wy1 w + dy1 + (T - dy2 - dy1)));
    destruct (Z.ltb_spec (y - (wy1 w + dy1)) (T - dy2 - dy1));
    try lia; cbn [andb]; [|reflexivity].
  destruct (Z.leb_spec (wx1 w + dx1) x); destruct (Z.leb_spec 0 (x - (wx1 w + dx1)));
    try lia; cbn [andb]; [|reflexivity].
  destruct (Z.ltb_spec x (wx1 w + dx1 + (T - dx2 - dx1)));
    destruct (Z.ltb_spec (x - (wx1 w + dx1)) (T - dx2 - dx1));
    try lia; cbn [andb]; [|reflexivity].
  replace (y - (wy1 w + dy1) + dy1) with (dy1 + (y - (wy1 w + dy1))) by lia.
  replace (x - (wx1 w + dx1) + dx1) with (dx1 + (x - (wx1 w + dx1))) by lia.
  destruct (nth2_in_shape T T plane (dy1 + (y - (wy1 w + dy1)))
              (dx1 + (x - (wx1 w + dx1))) Hsh) as [p Hp]; try lia.
  now rewrite Hp.
Qed.

(** C5, as amended: [fit_result] has no state check.  Called without a
    preceding [get_next] on a manager with an empty window list it raises
    IndexError and writes nothing; called a second time for the same window
    with the same result it succeeds again and leaves the output raster as
    the first call left it. *)
Theorem fit_result_has_no_state_check
    (self : t) (result : list (list (list Z))) (w : window) :
  (window_i self = 0 -> windows self = [] ->
   fit_result result self = (self, raise IndexError)) /\
  (fit_ready self result w ->
   exists self1,
     fit_result result self = (self1, ok tt) /\
     fit_result result self1 = (self1, ok tt)).
Proof.
  split.
  - intros Hi Hw. unfold fit_result, bindM, get, lift. cbv beta iota.
    unfold ok at 1. cbv beta iota. rewrite Hi, Hw. reflexivity.
  - intros Hready. eexists. split; [apply (fit_result_spec self result w Hready)|].
    rewrite (fit_result_spec _ result w (fit_ready_after self result w Hready)).
    rewrite fit_bands_again. reflexivity.
Qed.

End StreamingSource.

(** ** Instances *)

Lemma update_checks_ndim_first_witness :
  WeightedPredictManager.update 0 Z.add Z.mul
    (WeightedPredictManager.NdArray [2; 3] (fun _ => 5)) demo_windows demo_accumulator
  = (demo_accumulator, raise AttributeError).
Proof.
  apply (update_checks_ndim_first Z 0 Z.add Z.mul).
  unfold WeightedPredictManager.ndim. simpl. lia.
Defined.

Lemma update_stops_at_first_out_of_bounds_witness :
  exists s,
    WeightedPredictManager.update 0 Z.add Z.mul
      (WeightedPredictManager.take_entries 1 demo_preds) demo_windows demo_accumulator
    = (s, ok tt) /\
    WeightedPredictManager.update 0 Z.add Z.mul demo_preds demo_windows demo_accumulator
    = (s, raise AssertionError) /\
    WeightedPredictManager.acc_map s = [[[5; 5; 0]; [0; 0; 0]]] /\
    WeightedPredictManager.weight_map s = [[[1; 1; 0]; [0; 0; 0]]].
Proof.
  eexists. rewrite <- and_assoc. split.
  - apply (update_stops_at_first_out_of_bounds Z 0 Z.add Z.mul
             demo_preds demo_windows demo_accumulator 2 1 (Win 0 1 2 4)).
    + reflexivity.
    + lia.
    + intros i Hi. assert (i = 0) as -> by lia.
      exists (Win 0 1 0 2). split; [reflexivity|].
      unfold WeightedPredictManager.window_fits. simpl. lia.
    + reflexivity.
    + simpl. lia.
  - split; reflexivity.
Defined.

Lemma update_order_independent_witness :
  exists final,
    for_each [[demo_entry_left; demo_entry_right]]
      (WeightedPredictManager.update_batch 0 Z.add Z.mul [1; 1; 2]) demo_accumulator
    = (final, ok tt) /\
    for_each [[demo_entry_right]; [demo_entry_left]]
      (WeightedPredictManager.update_batch 0 Z.add Z.mul [1; 1; 2]) demo_accumulator
    = (final, ok tt).
Proof.
  apply (update_order_independent Z 0 Z.add Z.mul Z.add_comm Z.add_assoc demo_accumulator
           [[demo_entry_left; demo_entry_right]] [[demo_entry_right]; [demo_entry_left]]).
  - simpl. repeat constructor; simpl; lia.
  - simpl. apply perm_swap.
Defined.

(** C4 as stated fails on the half-precision buffers of the code.  On one
    pixel, a patch of 2048 followed by 200 patches of 1 leaves 2048 in the
    accumulation buffer, since every sum 2048 + 1 is rounded back to 2048;
    the same patches with the large one last leave 2248. *)
Lemma update_order_matters_in_half_precision :
  exists s1 s2,
    Forall (WeightedPredictManager.entry_fits demo_pixel_accumulator)
           (demo_entry_large :: repeat demo_entry_unit 200) /\
    Permutation (demo_entry_large :: repeat demo_entry_unit 200)
                (repeat demo_entry_unit 200 ++ [demo_entry_large]) /\
    WeightedPredictManager.update_batch 0 float16_add Z.mul [1; 1; 1]
      (demo_entry_large :: repeat demo_entry_unit 200) demo_pixel_accumulator
    = (s1, ok tt) /\
    WeightedPredictManager.update_batch 0 float16_add Z.mul [1; 1; 1]
      (repeat demo_entry_unit 200 ++ [demo_entry_large]) demo_pixel_accumulator
    = (s2, ok tt) /\
    WeightedPredictManager.acc_map s1 = [[[2048]]] /\
    WeightedPredictManager.acc_map s2 = [[[2248]]].
Proof.
  exists (WeightedPredictManager.Make 1 1 1 1 1 [[[2048]]] [[[201]]] [[[1]]]),
         (WeightedPredictManager.Make 1 1 1 1 1 [[[2248]]] [[[201]]] [[[1]]]).
  split.
  { constructor.
    - repeat split; simpl; lia.
    - apply Forall_forall. intros e He. apply repeat_spec in He. subst e.
      repeat split; simpl; lia. }
  split; [apply Permutation_cons_append|].
  split; [vm_compute; reflexivity|].
  split; [vm_compute; reflexivity|].
  split; reflexivity.
Qed.

(** C8 as stated fails.  On the 2 by 3 map with 1 by 2 patches and the
    windows [[0,1,-1,1], [0,1,2,4]], entry 1 is the first entry that fails
    the bounds check.  Entry 0 passes it, but its column slice [-1:1] is
    empty and the in-place add raises ValueError: the call does not end in
    the assertion error, and entry 0, which comes before the failing entry,
    has not been applied. *)
Lemma update_negative_origin_raises_value_error :
  (0 + WeightedPredictManager.patch_h demo_accumulator
   <= WeightedPredictManager.map_h demo_accumulator /\
   -1 + WeightedPredictManager.patch_w demo_accumulator
   <= WeightedPredictManager.map_w demo_accumulator) /\
  ~ (0 + WeightedPredictManager.patch_h demo_accumulator
     <= WeightedPredictManager.map_h demo_accumulator /\
     2 + WeightedPredictManager.patch_w demo_accumulator
     <= WeightedPredictManager.map_w demo_accumulator) /\
  WeightedPredictManager.update 0 Z.add Z.mul demo_preds
    [Win 0 1 (-1) 1; Win 0 1 2 4] demo_accumulator
  = (demo_accumulator, raise ValueError).
Proof.
  split; [simpl; lia|]. split; [simpl; lia|]. reflexivity.
Qed.

Lemma fit_ready_demo : RSImageSlideWindowManager.fit_ready demo_manager demo_result (Win 0 4 0 4).
Proof.
  unfold RSImageSlideWindowManager.fit_ready, window_in_extent. simpl.
  repeat split; try lia; try reflexivity.
  repeat constructor.
Defined.

Lemma fit_result_writes_trimmed_interior_witness :
  exists out,
    RSImageSlideWindowManager.fit_result demo_result demo_manager
    = (RSImageSlideWindowManager.set_out_raster demo_manager out, ok tt) /\
    forall b y x,
      nth3 (raster_bands out) b y x
      = match nth3 (raster_bands (RSImageSlideWindowManager.out_raster demo_manager)) b y x with
        | None => None
        | Some old =>
            if (b <? 1) && (0 + 0 <=? y) && (y <? 0 + 0 + (4 - 1 - 0))
               && (0 + 0 <=? x) && (x <? 0 + 0 + (4 - 1 - 0))
            then nth3 demo_result b (0 + (y - (0 + 0))) (0 + (x - (0 + 0)))
            else Some old
        end.
Proof.
  apply (fit_result_writes_trimmed_interior demo_manager demo_result (Win 0 4 0 4)).
  exact fit_ready_demo.
Defined.

Lemma fit_result_has_no_state_check_witness :
  (exists empty,
     RSImageSlideWindowManager.init (RSImageSlideWindowManager.Create 10 10 1) 1 6 8 = ok empty /\
     RSImageSlideWindowManager.fit_result demo_result empty = (empty, raise IndexError)) /\
  (exists self1,
     RSImageSlideWindowManager.fit_result demo_result demo_manager = (self1, ok tt) /\
     RSImageSlideWindowManager.fit_result demo_result self1 = (self1, ok tt)).
Proof.
  split.
  - eexists. split; [reflexivity|].
    apply (proj1 (fit_result_has_no_state_check _ demo_result (Win 0 4 0 4))); reflexivity.
  - apply (proj2 (fit_result_has_no_state_check demo_manager demo_result (Win 0 4 0 4))).
    exact fit_ready_demo.
Defined.

(** C5 as stated fails.  On the manager freshly built over [demo_raster]
    (no [get_next] yet) [fit_result] returns normally and writes into the
    output raster, at the last window of the grid; and after one [get_next]
    two successive calls of [fit_result] both return normally. *)
Lemma fit_result_without_get_next_writes :
  exists self0 self1 self2 self3 block,
    RSImageSlideWindowManager.init demo_raster 1 4 2 = ok self0 /\
    RSImageSlideWindowManager.window_i self0 = 0 /\
    RSImageSlideWindowManager.fit_result demo_result self0 = (self1, ok tt) /\
    raster_bands (RSImageSlideWindowManager.out_raster self1)
    = [[[0; 0; 0; 0; 0; 0]; [0; 0; 0; 0; 0; 0]; [0; 0; 0; 0; 0; 0];
        [0; 0; 0; 7; 7; 7]; [0; 0; 0; 7; 7; 7]; [0; 0; 0; 7; 7; 7]]] /\
    RSImageSlideWindowManager.get_next self0 = (self2, ok (Some block)) /\
    RSImageSlideWindowManager.fit_result demo_result self2 = (self3, ok tt) /\
    RSImageSlideWindowManager.fit_result demo_result self3 = (self3, ok tt).
Proof.
  do 5 eexists. repeat split; cbv; reflexivity.
Qed.

(** C6: the code at a block whose largest pixel is 256.  [get_next] does
    not raise: it advances the cursor and returns the block with the pixel
    256 turned into 0; a pixel of 257 raises AssertionError. *)
Theorem get_next_accepts_256 :
  (exists self,
     RSImageSlideWindowManager.init (Raster 2 2 [[[256; 1]; [2; 3]]]) 1 2 1 = ok self /\
     RSImageSlideWindowManager.get_next self
     = (RSImageSlideWindowManager.set_window_i self 1, ok (Some [[[0; 1]; [2; 3]]]))) /\
  (exists self,
     RSImageSlideWindowManager.init (Raster 2 2 [[[257; 1]; [2; 3]]]) 1 2 1 = ok self /\
     RSImageSlideWindowManager.get_next self = (self, raise AssertionError)).
Proof. split; eexists; split; cbv; reflexivity. Qed.

(** * Further properties of the code *)

(** ** Size and order of the window list *)

Lemma range_length (n : Z) : length (range n) = Z.to_nat n.
Proof. unfold range. now rewrite length_map, length_seq. Qed.

Lemma nth_error_range (n : Z) (k : nat) :
  (k < Z.to_nat n)%nat -> nth_error (range n) k = Some (Z.of_nat k).
Proof.
  intros Hk. unfold range. rewrite nth_error_map.
  rewrite (nth_error_nth' _ 0%nat) by (rewrite length_seq; lia).
  now rewrite seq_nth.
Qed.

Lemma nth_error_flat_map_rows {A B} (f : A -> list B) (l : list A) (m i j : nat) :
  (forall a, length (f a) = m) -> (j < m)%nat ->
  nth_error (flat_map f l) (i * m + j)
  = match nth_error l i with
    | Some a => nth_error (f a) j
    | None => None
    end.
Proof.
  intros Hm Hj. revert i. induction l as [|a l IH]; intros i.
  - simpl. destruct i; now rewrite nth_error_nil.
  - destruct i as [|i]; simpl.
    + apply nth_error_app1. rewrite Hm. exact Hj.
    + rewrite nth_error_app2 by (rewrite Hm; lia).
      rewrite Hm. replace (m + i * m + j - m)%nat with (i * m + j)%nat by lia.
      apply IH.
Qed.

Lemma grid_cells_length (n_h n_w : Z) :
  length (grid_cells n_h n_w) = (Z.to_nat n_h * Z.to_nat n_w)%nat.
Proof.
  unfold grid_cells. generalize (range_length n_h). generalize (Z.to_nat n_h) as k.
  induction (range n_h) as [|i l IH]; intros k Hk; simpl in *.
  - subst k. reflexivity.
  - destruct k as [|k]; [discriminate|].
    rewrite length_app, length_map, range_length, (IH k) by lia. lia.
Qed.

Lemma nth_error_grid_cells (n_h n_w i j : Z) :
  0 <= i < n_h -> 0 <= j < n_w ->
  nth_error (grid_cells n_h n_w) (Z.to_nat (i * n_w + j)) = Some (i, j).
Proof.
  intros Hi Hj. unfold grid_cells.
  replace (Z.to_nat (i * n_w + j)) with (Z.to_nat i * Z.to_nat n_w + Z.to_nat j)%nat by nia.
  rewrite (nth_error_flat_map_rows _ _ (Z.to_nat n_w)).
  - rewrite nth_error_range by lia. rewrite nth_error_map, nth_error_range by lia.
    simpl. now rewrite !Z2Nat.id by lia.
  - intros a. now rewrite length_map, range_length.
  - lia.
Qed.

(** The window list has max(0, n_h) * max(0, n_w) entries, where n_h and n_w
    are the row and column counts of [__init__], and the window of row i and
    column j of the grid is stored at position i * n_w + j. *)
Theorem windows_row_major (r : raster) (out_bands T O : Z) :
  T <> O ->
  let H := RasterYSize r in
  let W := RasterXSize r in
  let stride := T - O in
  let n_h := - ((- (H - T)) / stride) + 1 in
  let n_w := - ((- (W - T)) / stride) + 1 in
  exists self,
    RSImageSlideWindowManager.init r out_bands T O = ok self /\
    RSImageSlideWindowManager.len self = Z.max 0 n_h * Z.max 0 n_w /\
    forall i j, 0 <= i < n_h -> 0 <= j < n_w ->
      index (RSImageSlideWindowManager.windows self) (i * n_w + j)
      = Some (Win (Z.min (i * stride) (H - T)) (Z.min (i * stride) (H - T) + T)
                  (Z.min (j * stride) (W - T)) (Z.min (j * stride) (W - T) + T)).
Proof.
  intros HTO H W stride n_h n_w.
  destruct (init_windows r out_bands T O _
              (create_windows_spec H W T O ltac:(lia))) as [self [E [Ew _]]].
  exists self. split; [exact E|]. fold stride n_h n_w in Ew. split.
  - unfold RSImageSlideWindowManager.len. rewrite Ew, length_map, grid_cells_length. lia.
  - intros i j Hi Hj. rewrite Ew. unfold index.
    destruct (Z.ltb_spec (i * n_w + j) 0); [nia|].
    rewrite nth_error_map, nth_error_grid_cells by lia. reflexivity.
Qed.

Lemma windows_row_major_witness :
  exists self,
    RSImageSlideWindowManager.init demo_raster 1 4 2 = ok self /\
    RSImageSlideWindowManager.len self = Z.max 0 2 * Z.max 0 2 /\
    forall i j, 0 <= i < 2 -> 0 <= j < 2 ->
      index (RSImageSlideWindowManager.windows self) (i * 2 + j)
      = Some (Win (Z.min (i * 2) 2) (Z.min (i * 2) 2 + 4)
                  (Z.min (j * 2) 2) (Z.min (j * 2) 2 + 4)).
Proof. apply (windows_row_major demo_raster 1 4 2). lia. Defined.

(** ** The trimmed interiors leave no hole *)

(** Along one axis: every position lies in the part of some window that
    [fit_result] keeps. *)
Lemma axis_trim_cover (extent T O y : Z) :
  0 <= O < T -> T <= extent -> 0 <= y < extent ->
  exists i, 0 <= i < - ((- (extent - T)) / (T - O)) + 1 /\
    let o := origin extent T (T - O) i in
    o + trim (o =? 0) O <= y < o + T - trim (o + T =? extent) O.
Proof.
  intros HO HT Hy.
  set (s := T - O). set (d := O / 2).
  assert (Hs : 0 < s) by (unfold s; lia).
  assert (Hd : 0 <= d /\ 2 * d <= O).
  { unfold d. split; [apply Z.div_pos; lia|apply Z.mul_div_le; lia]. }
  pose proof (ceil_div_bounds (extent - T) s Hs) as C.
  set (c := - ((- (extent - T)) / s)) in *.
  assert (Hc : 0 <= c) by nia.
  unfold trim. fold d.
  destruct (Z_lt_le_dec y (extent - T + (if extent - T =? 0 then 0 else d))) as [Hlt|Hge].
  - destruct (Z.eqb_spec (extent - T) 0) as [E0|E0]; [lia|].
    destruct (Z_lt_le_dec y d) as [Hyd|Hyd].
    + exists 0. split; [lia|]. unfold origin. cbn zeta.
      rewrite Z.min_l by lia. change (0 * s) with 0.
      destruct (Z.eqb_spec 0 0); [|lia].
      destruct (Z.eqb_spec (0 + T) extent); lia.
    + exists ((y - d) / s).
      pose proof (Z.div_mod (y - d) s ltac:(lia)) as E.
      pose proof (Z.mod_pos_bound (y - d) s Hs) as B.
      assert (0 <= (y - d) / s) by (apply Z.div_pos; lia).
      split; [nia|]. unfold origin. cbn zeta.
      rewrite Z.min_l by nia.
      destruct (Z.eqb_spec ((y - d) / s * s) 0);
        destruct (Z.eqb_spec ((y - d) / s * s + T) extent); unfold s in *; nia.
  - exists c. split; [lia|]. unfold origin. cbn zeta.
    rewrite Z.min_r by lia.
    replace (extent - T + T) with extent by lia.
    destruct (Z.eqb_spec extent extent); [|lia].
    destruct (Z.eqb_spec (extent - T) 0); lia.
Qed.

Section Cover.
Import RSImageSlideWindowManager.

(** Center-clip leaves no hole: for 0 <= O < T with T <= H and T <= W, every
    pixel of the extent lies in the trimmed interior (the part [fit_result]
    writes) of at least one window of the list built by [__init__]. *)
Theorem trimmed_interiors_cover (r : raster) (bands T O : Z) :
  0 <= O < T -> T <= RasterYSize r -> T <= RasterXSize r ->
  exists self,
    init r bands T O = ok self /\
    forall y x, 0 <= y < RasterYSize r -> 0 <= x < RasterXSize r ->
      exists w, In w (windows self) /\ kept self w y x.
Proof.
  intros HO HH HW.
  destruct (init_windows r bands T O _
              (create_windows_spec (RasterYSize r) (RasterXSize r) T O ltac:(lia)))
    as [self [E [Ew _]]].
  exists self. split; [exact E|].
  assert (Ef : overlap self = O /\ img_h self = RasterYSize r /\ img_w self = RasterXSize r).
  { unfold init in E. destruct (create_windows _ _ T O); [discriminate|].
    simpl in E. injection E as <-. now repeat split. }
  destruct Ef as [EO [EH EWd]].
  intros y x Hy Hx.
  destruct (axis_trim_cover (RasterYSize r) T O y HO HH Hy) as [i [Hi Hiy]].
  destruct (axis_trim_cover (RasterXSize r) T O x HO HW Hx) as [j [Hj Hjx]].
  exists (tile (RasterYSize r) (RasterXSize r) T (T - O) (i, j)). split.
  - rewrite Ew. apply in_map. apply in_grid_cells. simpl. lia.
  - unfold kept, trims, tile. cbn [wy1 wy2 wx1 wx2 fst snd].
    rewrite EO, EH, EWd. unfold trim in Hiy, Hjx. cbn zeta in Hiy, Hjx. lia.
Qed.

End Cover.

Lemma trimmed_interiors_cover_witness :
  exists self,
    RSImageSlideWindowManager.init demo_raster 1 4 2 = ok self /\
    forall y x, 0 <= y < 6 -> 0 <= x < 6 ->
      exists w, In w (RSImageSlideWindowManager.windows self) /\
                RSImageSlideWindowManager.kept self w y x.
Proof. apply (trimmed_interiors_cover demo_raster 1 4 2); simpl; lia. Defined.

(** ** What [get_next] returns *)

Lemma nth3_eq {A} (a : list (list (list A))) (b y x : Z) :
  0 <= b ->
  nth3 a b y x = match nth_error a (Z.to_nat b) with
                 | Some m => nth2 m y x
                 | None => None
                 end.
Proof. intros Hb. unfold nth3. destruct (Z.ltb_spec b 0); [lia|reflexivity]. Qed.

Lemma nth3_map {A B} (f : list (list A) -> list (list B)) (a : list (list (list A)))
    (b y x : Z) :
  nth3 (map f a) b y x
  = if b <? 0 then None
    else match nth_error a (Z.to_nat b) with
         | Some m => nth2 (f m) y x
         | None => None
         end.
Proof.
  unfold nth3. destruct (b <? 0); [reflexivity|].
  rewrite nth_error_map. now destruct (nth_error a (Z.to_nat b)).
Qed.

Lemma in_concat_nth2 {A} (m : list (list A)) (v : A) :
  In v (concat m) <-> exists y x, nth2 m y x = Some v.
Proof.
  rewrite in_concat. split.
  - intros [row [Hrow Hv]].
    apply In_nth_error in Hrow. destruct Hrow as [n Hn].
    apply In_nth_error in Hv. destruct Hv as [k Hk].
    exists (Z.of_nat n), (Z.of_nat k). rewrite nth2_eq by lia.
    now rewrite !Nat2Z.id, Hn.
  - intros [y [x H]]. unfold nth2 in H.
    destruct ((y <? 0) || (x <? 0)); [discriminate|].
    destruct (nth_error m (Z.to_nat y)) as [row|] eqn:E; [|discriminate].
    exists row. split; [now apply nth_error_In with (Z.to_nat y)|].
    now apply nth_error_In with (Z.to_nat x).
Qed.

Lemma in_concat_nth3 {A} (a : list (list (list A))) (v : A) :
  In v (concat (map (@concat A) a)) <-> exists b y x, nth3 a b y x = Some v.
Proof.
  rewrite in_concat. split.
  - intros [l [Hl Hv]]. apply in_map_iff in Hl. destruct Hl as [m [<- Hm]].
    apply in_concat_nth2 in Hv. destruct Hv as [y [x H]].
    apply In_nth_error in Hm. destruct Hm as [n Hn].
    exists (Z.of_nat n), y, x. rewrite nth3_eq by lia. now rewrite Nat2Z.id, Hn.
  - intros [b [y [x H]]]. unfold nth3 in H.
    destruct (b <? 0); [discriminate|].
    destruct (nth_error a (Z.to_nat b)) as [m|] eqn:E; [|discriminate].
    exists (concat m). split.
    + apply in_map. now apply nth_error_In with (Z.to_nat b).
    + apply in_concat_nth2. now exists y, x.
Qed.

Lemma fold_max_ge (l : list Z) (d : Z) :
  d <= fold_left Z.max l d /\ forall e, In e l -> e <= fold_left Z.max l d.
Proof.
  revert d. induction l as [|a l IH]; intros d; simpl.
  - split; [lia|intros e []].
  - destruct (IH (Z.max d a)) as [H1 H2]. split; [lia|].
    intros e [<-|He]; [lia|now apply H2].
Qed.

Lemma fold_max_in (l : list Z) (d : Z) : In (fold_left Z.max l d) (d :: l).
Proof.
  revert d. induction l as [|a l IH]; intros d; simpl.
  - now left.
  - destruct (IH (Z.max d a)) as [E|Hin].
    + rewrite <- E. destruct (Z.max_spec d a) as [[_ ->]|[_ ->]]; simpl; auto.
    + auto.
Qed.

(** The largest element of a non-empty list bounds exactly the bounds of all
    its elements. *)
Lemma list_max_le (l : list Z) (v bound : Z) :
  In v l ->
  exists m, list_max l = Some m /\ In m l /\ (m <= bound <-> forall e, In e l -> e <= bound).
Proof.
  intros Hv. destruct l as [|d l]; [contradiction|]. simpl list_max.
  eexists. split; [reflexivity|]. split; [apply fold_max_in|].
  destruct (fold_max_ge l d) as [H1 H2]. split.
  - intros Hm e [<-|He]; [lia|]. specialize (H2 e He). lia.
  - intros Hall. apply Hall. apply fold_max_in.
Qed.

(** The pixels of a window read from a well-shaped raster. *)
Lemma nth3_window_planes (r : raster) (y1 x1 T : Z) (b y x : Z) :
  raster_ok r -> 0 <= y1 -> y1 + T <= RasterYSize r -> 0 <= x1 -> x1 + T <= RasterXSize r ->
  0 <= T ->
  nth3 (map (crop2 y1 (y1 + T) x1 (x1 + T)) (raster_bands r)) b y x
  = if (0 <=? y) && (y <? T) && (0 <=? x) && (x <? T)
    then nth3 (raster_bands r) b (y1 + y) (x1 + x) else None.
Proof.
  intros Hok Hy1 Hy2 Hx1 Hx2 HT. rewrite nth3_map. unfold nth3.
  destruct (b <? 0); [now destruct ((0 <=? y) && (y <? T) && (0 <=? x) && (x <? T))|].
  unfold band in *.
  destruct (@nth_error (list (list Z)) (raster_bands r) (Z.to_nat b)) as [m|] eqn:E;
    [|now destruct ((0 <=? y) && (y <? T) && (0 <=? x) && (x <? T))].
  unfold raster_ok in Hok. rewrite Forall_forall in Hok.
  specialize (Hok m (nth_error_In _ _ E)).
  rewrite (nth2_crop2 (RasterYSize r) (RasterXSize r)) by (try exact Hok; lia).
  replace (y1 + T - y1) with T by lia. replace (x1 + T - x1) with T by lia.
  replace (y + y1) with (y1 + y) by lia. replace (x + x1) with (x1 + x) by lia.
  reflexivity.
Qed.

Lemma nth3_astype_uint8 (a : list (list (list Z))) (b y x : Z) :
  nth3 (astype_uint8 a) b y x = option_map (fun v => v mod 256) (nth3 a b y x).
Proof.
  unfold astype_uint8. rewrite nth3_map. unfold nth3.
  destruct (b <? 0); [reflexivity|].
  destruct (nth_error a (Z.to_nat b)); [|reflexivity]. apply nth2_map2.
Qed.

Section GetNext.
Import RSImageSlideWindowManager.

(** The array [get_next] works on: one plane per band, cut to the window;
    a single band comes back two-dimensional and gets its axis added. *)
Lemma get_next_planes (self : t) (w : window) (planes : list (list (list Z))) (m : Z) :
  window_i self <> len self ->
  index (windows self) (window_i self) = Some w ->
  planes = map (crop2 (wy1 w) (wy1 w + window_sz self) (wx1 w) (wx1 w + window_sz self))
               (raster_bands (in_raster self)) ->
  0 <= wx1 w -> 0 <= wy1 w -> 1 <= window_sz self ->
  wx1 w + window_sz self <= RasterXSize (in_raster self) ->
  wy1 w + window_sz self <= RasterYSize (in_raster self) ->
  list_max (concat (map (@concat Z) planes)) = Some m ->
  get_next self
  = if m <=? 256
    then (set_window_i self (window_i self + 1), ok (Some (astype_uint8 planes)))
    else (self, raise AssertionError).
Proof.
  intros Hend Hw -> Hx Hy HT Hx2 Hy2 Hm.
  unfold get_next, bindM, get, lift, ret, put, throw. cbv beta iota.
  unfold ok at 1. cbv beta iota.
  destruct (Z.eqb_spec (window_i self) (len self)) as [E|_]; [contradiction|].
  rewrite Hw. cbn [of_option]. unfold ok at 1. cbv beta iota.
  unfold ReadAsArray.
  destruct (Z.leb_spec 0 (wx1 w)); [|lia]. destruct (Z.leb_spec 0 (wy1 w)); [|lia].
  destruct (Z.leb_spec 1 (window_sz self)); [|lia].
  destruct (Z.leb_spec (wx1 w + window_sz self) (RasterXSize (in_raster self))); [|lia].
  destruct (Z.leb_spec (wy1 w + window_sz self) (RasterYSize (in_raster self))); [|lia].
  cbn [andb].
  destruct (raster_bands (in_raster self)) as [|b0 [|b1 bs]] eqn:Eb.
  - discriminate Hm.
  - cbn [of_option]. unfold ok at 1. cbv beta iota.
    unfold block_max, block_pixels.
    simpl in Hm. rewrite app_nil_r in Hm. rewrite Hm.
    cbn [of_option]. unfold ok at 1. cbv beta iota.
    destruct (m <=? 256); reflexivity.
  - cbn [of_option]. unfold ok at 1. cbv beta iota.
    unfold block_max, block_pixels. rewrite Hm.
    cbn [of_option]. unfold ok at 1. cbv beta iota.
    destruct (m <=? 256); reflexivity.
Qed.

(** [get_next] on a window inside a well-shaped, non-empty input raster:
    when no pixel of the window exceeds 256 it advances the cursor by one
    and returns one plane per band, holding the pixel at (y1+y, x1+x)
    reduced modulo 256 at position (y, x); when some pixel exceeds 256 it
    raises AssertionError and leaves the object as it was. *)
Theorem get_next_returns_window_bytes (self : t) (w : window) :
  index (windows self) (window_i self) = Some w ->
  0 <= window_i self ->
  1 <= window_sz self ->
  window_in_extent (RasterYSize (in_raster self)) (RasterXSize (in_raster self))
                   (window_sz self) w ->
  raster_ok (in_raster self) ->
  raster_bands (in_raster self) <> [] ->
  let pixel b y x := nth3 (raster_bands (in_raster self)) b (wy1 w + y) (wx1 w + x) in
  let T := window_sz self in
  ((forall b y x v, 0 <= y < T -> 0 <= x < T -> pixel b y x = Some v -> v <= 256) ->
   exists block,
     get_next self = (set_window_i self (window_i self + 1), ok (Some block)) /\
     length block = length (raster_bands (in_raster self)) /\
     forall b y x,
       nth3 block b y x
       = if (0 <=? y) && (y <? T) && (0 <=? x) && (x <? T)
         then option_map (fun v => v mod 256) (pixel b y x) else None) /\
  ((exists b y x v, 0 <= y < T /\ 0 <= x < T /\ pixel b y x = Some v /\ 256 < v) ->
   get_next self = (self, raise AssertionError)).
Proof.
  intros Hw Hi HT Hwin Hok Hne pixel T.
  destruct Hwin as [W1 [W2 [W3 [W4 [W5 W6]]]]]. fold T in W1, W2, HT.
  set (planes := map (crop2 (wy1 w) (wy1 w + T) (wx1 w) (wx1 w + T))
                     (raster_bands (in_raster self))).
  assert (Hend : window_i self <> len self).
  { unfold len. intros E. unfold index in Hw.
    destruct (Z.ltb_spec (window_i self) 0); [lia|].
    assert (nth_error (windows self) (Z.to_nat (window_i self)) <> None) by congruence.
    apply nth_error_Some in H0. lia. }
  assert (Hpix : forall b y x,
             nth3 planes b y x
             = if (0 <=? y) && (y <? T) && (0 <=? x) && (x <? T) then pixel b y x else None).
  { intros b y x. unfold planes, pixel. apply nth3_window_planes; try assumption; lia. }
  assert (Hsome : exists v, In v (concat (map (@concat Z) planes))).
  { destruct (raster_bands (in_raster self)) as [|b0 bs] eqn:Eb; [contradiction|].
    unfold raster_ok in Hok. rewrite Eb in Hok. inversion Hok as [|? ? Hb0 _]; subst.
    destruct (nth2_in_shape _ _ b0 (wy1 w + 0) (wx1 w + 0) Hb0) as [v Hv]; try lia.
    exists v. apply in_concat_nth3. exists 0, 0, 0. rewrite Hpix.
    destruct (Z.ltb_spec 0 T); [|lia]. cbn [Z.leb andb]. unfold pixel.
    rewrite ?Eb. exact Hv. }
  destruct Hsome as [v0 Hv0].
  destruct (list_max_le _ v0 256 Hv0) as [m [Hm [Hmin Hmle]]].
  pose proof (get_next_planes self w planes m Hend Hw eq_refl W5 W3 HT
                ltac:(fold T; lia) ltac:(fold T; lia) Hm) as Hrun.
  split.
  - intros Hall. exists (astype_uint8 planes).
    assert (Hle : m <= 256).
    { apply Hmle. intros e He. apply in_concat_nth3 in He.
      destruct He as [b [y [x He]]]. rewrite Hpix in He.
      destruct (Z.leb_spec 0 y); [|discriminate]. destruct (Z.ltb_spec y T); [|discriminate].
      destruct (Z.leb_spec 0 x); [|discriminate]. destruct (Z.ltb_spec x T); [|discriminate].
      apply (Hall b y x e); [lia|lia|exact He]. }
    destruct (Z.leb_spec m 256); [|lia]. split; [exact Hrun|]. split.
    + unfold astype_uint8, planes. now rewrite !length_map.
    + intros b y x. rewrite nth3_astype_uint8, Hpix.
      now destruct ((0 <=? y) && (y <? T) && (0 <=? x) && (x <? T)).
  - intros [b [y [x [v [Hy [Hx [Hv Hbig]]]]]]].
    assert (Hgt : 256 < m).
    { assert (Hin : In v (concat (map (@concat Z) planes))).
      { apply in_concat_nth3. exists b, y, x. rewrite Hpix.
        destruct (Z.leb_spec 0 y); [|lia]. destruct (Z.ltb_spec y T); [|lia].
        destruct (Z.leb_spec 0 x); [|lia]. destruct (Z.ltb_spec x T); [|lia]. exact Hv. }
      destruct (Z_le_gt_dec m 256) as [Hle|]; [|lia].
      pose proof (proj1 Hmle Hle v Hin). lia. }
    destruct (Z.leb_spec m 256); [lia|]. exact Hrun.
Qed.

End GetNext.

Lemma raster_ok_demo : raster_ok demo_raster.
Proof. unfold raster_ok. simpl. repeat constructor. Defined.

Lemma get_next_returns_window_bytes_witness :
  let self := RSImageSlideWindowManager.set_window_i demo_manager 0 in
  let pixel b y x := nth3 (raster_bands demo_raster) b (0 + y) (0 + x) in
  ((forall b y x v, 0 <= y < 4 -> 0 <= x < 4 -> pixel b y x = Some v -> v <= 256) ->
   exists block,
     RSImageSlideWindowManager.get_next self
     = (RSImageSlideWindowManager.set_window_i self (0 + 1), ok (Some block)) /\
     length block = length (raster_bands demo_raster) /\
     forall b y x,
       nth3 block b y x
       = if (0 <=? y) && (y <? 4) && (0 <=? x) && (x <? 4)
         then option_map (fun v => v mod 256) (pixel b y x) else None) /\
  ((exists b y x v, 0 <= y < 4 /\ 0 <= x < 4 /\ pixel b y x = Some v /\ 256 < v) ->
   RSImageSlideWindowManager.get_next self = (self, raise AssertionError)).
Proof.
  intros self.
  apply (get_next_returns_window_bytes self (Win 0 4 0 4)).
  - reflexivity.
  - simpl. lia.
  - simpl. lia.
  - unfold window_in_extent. simpl. lia.
  - exact raster_ok_demo.
  - discriminate.
Defined.

(** ** Reading every window and writing it back *)

Lemma in_slice {A} (a b : Z) (l : list A) (x : A) : In x (slice a b l) -> In x l.
Proof.
  unfold slice. intros H.
  set (lo := Z.to_nat (slice_bound (Z.of_nat (length l)) a)) in *.
  rewrite <- (firstn_skipn lo l). apply in_or_app. right.
  set (k := Z.to_nat _) in H.
  rewrite <- (firstn_skipn k (skipn lo l)). apply in_or_app. now left.
Qed.

Lemma has_shape2_crop2 {A} (h w y1 x1 T : Z) (m : list (list A)) :
  has_shape2 h w m -> 0 <= y1 -> y1 + T <= h -> 0 <= x1 -> x1 + T <= w -> 0 <= T ->
  has_shape2 T T (crop2 y1 (y1 + T) x1 (x1 + T) m).
Proof.
  intros [Hh Hw] Hy1 Hy2 Hx1 Hx2 HT. split.
  - unfold crop2. rewrite length_map, slice_length by lia. lia.
  - unfold crop2. apply Forall_forall. intros row Hrow.
    apply in_map_iff in Hrow. destruct Hrow as [row0 [<- Hin]].
    apply in_slice in Hin. rewrite Forall_forall in Hw. specialize (Hw row0 Hin).
    rewrite slice_length by lia. lia.
Qed.

Lemma has_shape2_map {A B} (f : A -> B) (h w : Z) (m : list (list A)) :
  has_shape2 h w m -> has_shape2 h w (map (map f) m).
Proof.
  intros [Hh Hw]. split; [now rewrite length_map|].
  apply Forall_forall. intros row Hrow. apply in_map_iff in Hrow.
  destruct Hrow as [row0 [<- Hin]]. rewrite length_map.
  rewrite Forall_forall in Hw. now apply Hw.
Qed.

Section CopyThrough.
Import RSImageSlideWindowManager.

Lemma fit_bands_length (self : t) (result : list (list (list Z))) (w : window) :
  length (fit_bands self result w) = length (raster_bands (out_raster self)).
Proof.
  unfold fit_bands. destruct (trims self w) as [[[dy1 dy2] dx1] dx2]. apply mapi_length.
Qed.

(** What one [fit_result] leaves at a pixel of a band it writes. *)
Lemma fit_bands_pointwise (self : t) (result : list (list (list Z))) (w : window)
    (b y x old : Z) :
  fit_ready self result w ->
  0 <= b < out_bands self ->
  nth3 (raster_bands (out_raster self)) b y x = Some old ->
  (kept self w y x ->
   exists p, nth3 result b (y - wy1 w) (x - wx1 w) = Some p /\
             nth3 (fit_bands self result w) b y x = Some p) /\
  (~ kept self w y x -> nth3 (fit_bands self result w) b y x = Some old).
Proof.
  intros Hready Hb Hold.
  destruct Hready as [Hidx [Hwin [HO [HX [HY [Hnb [Hres Hshape]]]]]]].
  unfold kept, fit_bands, fit_block.
  destruct (trims self w) as [[[dy1 dy2] dx1] dx2] eqn:Et.
  destruct (trims_bounds self w _ _ _ _ HO Et) as [B1 [B2 [B3 [B4 [B5 B6]]]]].
  destruct Hwin as [W1 [W2 _]].
  set (T := window_sz self) in *.
  unfold nth3 in *. destruct (Z.ltb_spec b 0); [lia|].
  rewrite nth_error_mapi, Z2Nat.id by lia.
  unfold band in *.
  destruct (@nth_error (list (list Z)) (raster_bands (out_raster self)) (Z.to_nat b))
    as [old_band|] eqn:Eb; [|discriminate].
  cbn [option_map].
  destruct (Z.ltb_spec b (out_bands self)); [|lia].
  rewrite nth2_overlay, Hold. cbn [option_map].
  destruct (nth_error result (Z.to_nat b)) as [plane|] eqn:Ep;
    [|apply nth_error_None in Ep; lia].
  assert (Hplane : result_plane result b = plane).
  { unfold result_plane, index. destruct (Z.ltb_spec b 0); [lia|]. now rewrite Ep. }
  rewrite Hplane.
  rewrite Forall_forall in Hshape.
  pose proof (Hshape plane (nth_error_In _ _ Ep)) as Hsh.
  rewrite (nth2_crop2 T T) by (try exact Hsh; lia).
  split.
  - intros [Hy Hx].
    destruct (nth2_in_shape T T plane (y - wy1 w) (x - wx1 w) Hsh) as [p Hp]; try lia.
    exists p. split; [exact Hp|].
    destruct (Z.leb_spec 0 (y - (wy1 w + dy1))); [|lia].
    destruct (Z.ltb_spec (y - (wy1 w + dy1)) (T - dy2 - dy1)); [|lia].
    destruct (Z.leb_spec 0 (x - (wx1 w + dx1))); [|lia].
    destruct (Z.ltb_spec (x - (wx1 w + dx1)) (T - dx2 - dx1)); [|lia].
    cbn [andb].
    replace (y - (wy1 w + dy1) + dy1) with (y - wy1 w) by lia.
    replace (x - (wx1 w + dx1) + dx1) with (x - wx1 w) by lia.
    now rewrite Hp.
  - intros Hnot.
    destruct (Z.leb_spec 0 (y - (wy1 w + dy1))); cbn [andb]; [|reflexivity].
    destruct (Z.ltb_spec (y - (wy1 w + dy1)) (T - dy2 - dy1)); cbn [andb]; [|reflexivity].
    destruct (Z.leb_spec 0 (x - (wx1 w + dx1))); cbn [andb]; [|reflexivity].
    destruct (Z.ltb_spec (x - (wx1 w + dx1)) (T - dx2 - dx1)); cbn [andb]; [|reflexivity].
    exfalso. apply Hnot. lia.
Qed.

(** [get_next] succeeds on a window inside a raster without pixels above 256. *)
Lemma get_next_ok (self : t) (w : window) :
  index (windows self) (window_i self) = Some w ->
  0 <= window_i self ->
  1 <= window_sz self ->
  window_in_extent (RasterYSize (in_raster self)) (RasterXSize (in_raster self))
                   (window_sz self) w ->
  raster_ok (in_raster self) ->
  raster_bands (in_raster self) <> [] ->
  (forall b y x v, nth3 (raster_bands (in_raster self)) b y x = Some v -> v <= 256) ->
  get_next self
  = (set_window_i self (window_i self + 1),
     ok (Some (astype_uint8
                 (map (crop2 (wy1 w) (wy1 w + window_sz self) (wx1 w) (wx1 w + window_sz self))
                      (raster_bands (in_raster self)))))).
Proof.
  intros Hw Hi HT Hwin Hok Hne Hall.
  destruct Hwin as [W1 [W2 [W3 [W4 [W5 W6]]]]].
  set (T := window_sz self) in *.
  set (planes := map (crop2 (wy1 w) (wy1 w + T) (wx1 w) (wx1 w + T))
                     (raster_bands (in_raster self))).
  assert (Hend : window_i self <> len self).
  { unfold len. intros E. unfold index in Hw.
    destruct (Z.ltb_spec (window_i self) 0); [lia|].
    assert (Hn : nth_error (windows self) (Z.to_nat (window_i self)) <> None) by congruence.
    apply nth_error_Some in Hn. lia. }
  assert (Hpix : forall b y x,
             nth3 planes b y x
             = if (0 <=? y) && (y <? T) && (0 <=? x) && (x <? T)
               then nth3 (raster_bands (in_raster self)) b (wy1 w + y) (wx1 w + x)
               else None).
  { intros b y x. unfold planes. apply nth3_window_planes; try assumption; lia. }
  assert (Hsome : exists v, In v (concat (map (@concat Z) planes))).
  { destruct (raster_bands (in_raster self)) as [|b0 bs] eqn:Eb; [contradiction|].
    unfold raster_ok in Hok. rewrite Eb in Hok. inversion Hok as [|? ? Hb0 _]; subst.
    destruct (nth2_in_shape _ _ b0 (wy1 w + 0) (wx1 w + 0) Hb0) as [v Hv]; try lia.
    exists v. apply in_concat_nth3. exists 0, 0, 0. rewrite Hpix.
    destruct (Z.ltb_spec 0 T); [|lia]. cbn [Z.leb andb].
    rewrite ?Eb. exact Hv. }
  destruct Hsome as [v0 Hv0].
  destruct (list_max_le _ v0 256 Hv0) as [m [Hm [Hmin Hmle]]].
  pose proof (get_next_planes self w planes m Hend Hw eq_refl W5 W3 HT
                ltac:(fold T; lia) ltac:(fold T; lia) Hm) as Hrun.
  assert (Hle : m <= 256).
  { apply Hmle. intros e He. apply in_concat_nth3 in He.
    destruct He as [b [y [x He]]]. rewrite Hpix in He.
    destruct ((0 <=? y) && (y <? T) && (0 <=? x) && (x <? T)); [|discriminate].
    exact (Hall _ _ _ _ He). }
  destruct (Z.leb_spec m 256); [|lia]. exact Hrun.
Qed.

Lemma kept_iff (self : t) (w : window) (y x : Z) :
  kept self w y x <-> kept_in (overlap self) (img_h self) (img_w self) w y x.
Proof. unfold kept, trims, kept_in, trim. reflexivity. Qed.

Lemma kept_dec (O H W : Z) (w : window) (y x : Z) :
  kept_in O H W w y x \/ ~ kept_in O H W w y x.
Proof. unfold kept_in. lia. Qed.

(** One turn of the loop. *)
Lemma copy_step_ok (s0 s : t) (k : nat) :
  copy_ready s0 -> copied_so_far s0 k s -> (k < length (windows s0))%nat ->
  exists s', copy_step s = (s', ok tt) /\ copied_so_far s0 (S k) s'.
Proof.
  intros [HO [Hwins [Hok [RX [RY [Hne [Hnb Hall]]]]]]]
         [E1 [E2 [E3 [E4 [E5 [E6 [E7 [E8 [E9 [E10 [E11 Hpt]]]]]]]]]]] Hk.
  destruct (nth_error (windows s0) k) as [w|] eqn:Ew;
    [|apply nth_error_None in Ew; lia].
  rewrite Forall_forall in Hwins.
  pose proof (Hwins w (nth_error_In _ _ Ew)) as Hwin.
  assert (Hidx : index (windows s) (window_i s) = Some w)
    by (rewrite E7, E8, index_of_nat; exact Ew).
  assert (Hget := get_next_ok s w Hidx).
  rewrite E8, E1, E3, RX, RY in Hget.
  specialize (Hget ltac:(lia) ltac:(lia) Hwin Hok Hne Hall).
  set (blk := astype_uint8 _) in Hget.
  set (s1 := set_window_i s (Z.of_nat k + 1)) in *.
  assert (Hfr : fit_ready s1 blk w).
  { unfold fit_ready, s1.
    cbn [windows window_i img_h img_w window_sz overlap out_raster out_bands set_window_i].
    rewrite E1, E2, E4, E5, E6, E7, E9, E10, E11.
    replace (Z.of_nat k + 1 - 1) with (Z.of_nat k) by lia. rewrite index_of_nat.
    pose proof Hwin as [V1 [V2 [V3 [V4 [V5 V6]]]]].
    repeat split; try assumption; try lia.
    - unfold blk, astype_uint8. rewrite !length_map. unfold band in *. lia.
    - unfold blk, astype_uint8. apply Forall_forall. intros plane Hp.
      apply in_map_iff in Hp. destruct Hp as [p0 [<- Hp0]].
      apply in_map_iff in Hp0. destruct Hp0 as [b0 [<- Hb0]].
      apply has_shape2_map.
      unfold raster_ok in Hok. rewrite Forall_forall in Hok.
      destruct Hwin as [W1 [W2 [W3 [W4 [W5 W6]]]]].
      apply (has_shape2_crop2 (RasterYSize (in_raster s0)) (RasterXSize (in_raster s0)));
        [now apply Hok| | | | |]; lia. }
  exists (set_out_raster s1 (Raster (img_w s1) (img_h s1) (fit_bands s1 blk w))). split.
  - unfold copy_step, bindM. rewrite Hget. cbv beta iota.
    unfold ok at 1. cbv beta iota.
    apply (fit_result_spec s1 blk w Hfr).
  - unfold copied_so_far.
    cbn [windows window_i img_h img_w window_sz overlap out_raster out_bands in_raster
         set_window_i set_out_raster s1 RasterXSize RasterYSize raster_bands].
    repeat split; try assumption; try lia.
    + rewrite fit_bands_length. unfold s1. cbn [out_raster set_window_i]. exact E11.
    + intros b y x Hb Hy Hx. destruct (Hpt b y x Hb Hy Hx) as [v [Hv Himp]].
      assert (Hold : nth3 (raster_bands (out_raster s1)) b y x = Some v) by exact Hv.
      destruct (fit_bands_pointwise s1 blk w b y x v Hfr) as [Hin Hout].
      { unfold s1. cbn [out_bands set_window_i]. lia. }
      { exact Hold. }
      assert (Hk1 : kept s1 w y x <-> kept s0 w y x).
      { rewrite !kept_iff. unfold s1. cbn [overlap img_h img_w set_window_i].
        now rewrite E2, E4, E5. }
      destruct (kept_dec (overlap s0) (img_h s0) (img_w s0) w y x) as [Hkept|Hnot].
      * apply kept_iff in Hkept. destruct (Hin (proj2 Hk1 Hkept)) as [p [Hp Hnew]].
        exists p. split; [exact Hnew|]. intros _. rewrite <- Hp.
        unfold blk. rewrite nth3_astype_uint8.
        destruct Hwin as [W1 [W2 [W3 [W4 [W5 W6]]]]].
        rewrite nth3_window_planes by (try assumption; lia).
        unfold blk in Hp. rewrite nth3_astype_uint8 in Hp.
        rewrite nth3_window_planes in Hp by (try assumption; lia).
        destruct ((0 <=? y - wy1 w) && (y - wy1 w <? window_sz s0)
                  && (0 <=? x - wx1 w) && (x - wx1 w <? window_sz s0));
          [|discriminate].
        replace (wy1 w + (y - wy1 w)) with y by lia.
        replace (wx1 w + (x - wx1 w)) with x by lia. reflexivity.
      * assert (Hn1 : ~ kept s1 w y x).
        { intros Hc. apply Hnot. apply kept_iff. now apply Hk1. }
        exists v. split; [exact (Hout Hn1)|].
        intros [j [w' [Hj [Hw' Hk']]]].
        destruct (Nat.eq_dec j k) as [->|Hjk].
        -- rewrite Ew in Hw'. injection Hw' as <-. exfalso. apply Hnot.
           now apply kept_iff.
        -- apply Himp. exists j, w'. split; [lia|]. now split.
Qed.

Lemma copy_loop (s0 : t) (l : list Z) :
  copy_ready s0 ->
  forall k s, copied_so_far s0 k s -> (k + length l = length (windows s0))%nat ->
    exists s', for_each l (fun _ => copy_step) s = (s', ok tt) /\
               copied_so_far s0 (k + length l) s'.
Proof.
  intros Hready. induction l as [|i l IH]; intros k s Hinv Hlen.
  - exists s. split; [reflexivity|]. simpl. now rewrite Nat.add_0_r.
  - simpl in Hlen.
    destruct (copy_step_ok s0 s k Hready Hinv ltac:(lia)) as [s1 [Hstep Hinv1]].
    destruct (IH (S k) s1 Hinv1 ltac:(lia)) as [s2 [Hrest Hinv2]].
    exists s2. split.
    + cbn [for_each]. unfold bindM. rewrite Hstep. exact Hrest.
    + simpl. now rewrite Nat.add_succ_r.
Qed.

Lemma tiles_in_extent (H W T O : Z) (c : Z * Z) :
  0 <= O < T -> T <= H -> T <= W -> 0 <= fst c -> 0 <= snd c ->
  window_in_extent H W T (tile H W T (T - O) c).
Proof.
  intros HO HH HW Hi Hj.
  pose proof (origin_bounds H T (T - O) (fst c) ltac:(lia) HH Hi).
  pose proof (origin_bounds W T (T - O) (snd c) ltac:(lia) HW Hj).
  unfold window_in_extent, tile. simpl. lia.
Qed.

Lemma tiles_kept_cover (H W T O y x : Z) :
  0 <= O < T -> T <= H -> T <= W -> 0 <= y < H -> 0 <= x < W ->
  exists c, In c (grid_cells (- ((- (H - T)) / (T - O)) + 1) (- ((- (W - T)) / (T - O)) + 1)) /\
            kept_in O H W (tile H W T (T - O) c) y x.
Proof.
  intros HO HH HW Hy Hx.
  destruct (axis_trim_cover H T O y HO HH Hy) as [i [Hi Hiy]].
  destruct (axis_trim_cover W T O x HO HW Hx) as [j [Hj Hjx]].
  exists (i, j). split; [apply in_grid_cells; simpl; lia|].
  unfold kept_in, tile. cbn [wy1 wy2 wx1 wx2 fst snd]. cbn zeta in Hiy, Hjx. lia.
Qed.

Lemma nth3_create (w h n b y x : Z) :
  0 <= b < n -> 0 <= y < h -> 0 <= x < w ->
  nth3 (raster_bands (Create w h n)) b y x = Some 0.
Proof.
  intros Hb Hy Hx. unfold Create. cbn [raster_bands].
  rewrite nth3_eq, nth_error_repeat by lia. rewrite nth2_eq by lia.
  rewrite nth_error_repeat by lia. apply nth_error_repeat. lia.
Qed.

(** Reading every window with [get_next] and handing the block straight to
    [fit_result], [len] times from a fresh manager, copies the input: for
    0 <= O < T, T <= H, T <= W, a well-shaped input raster with at least one
    band and at least [out_bands] bands and no pixel above 256, every turn
    succeeds, the cursor ends at the end of the list, and every pixel of
    the first [out_bands] output bands holds the input pixel modulo 256. *)
Theorem copy_through_copies_input (r : raster) (nb T O : Z) :
  0 <= O < T -> T <= RasterYSize r -> T <= RasterXSize r ->
  raster_ok r -> raster_bands r <> [] ->
  0 <= nb <= Z.of_nat (length (raster_bands r)) ->
  (forall b y x v, nth3 (raster_bands r) b y x = Some v -> v <= 256) ->
  exists s0 s1,
    init r nb T O = ok s0 /\
    copy_through s0 = (s1, ok tt) /\
    get_next s1 = (s1, ok None) /\
    forall b y x, 0 <= b < nb -> 0 <= y < RasterYSize r -> 0 <= x < RasterXSize r ->
      nth3 (raster_bands (out_raster s1)) b y x
      = option_map (fun p => p mod 256) (nth3 (raster_bands r) b y x).
Proof.
  intros HO HH HW Hok Hne Hnb Hall.
  set (H := RasterYSize r) in *. set (W := RasterXSize r) in *.
  set (ws := map (tile H W T (T - O))
                 (grid_cells (- ((- (H - T)) / (T - O)) + 1) (- ((- (W - T)) / (T - O)) + 1))).
  set (s0 := Make T O r W H nb (Create W H nb) ws 0).
  assert (Einit : init r nb T O = ok s0).
  { unfold init. fold H W. rewrite create_windows_spec by lia. reflexivity. }
  assert (Hready : copy_ready s0).
  { unfold copy_ready, s0. cbn [overlap window_sz img_h img_w windows in_raster out_bands].
    repeat split; try assumption; try lia.
    apply Forall_forall. intros w Hw. apply in_map_iff in Hw. destruct Hw as [c [<- Hc]].
    apply in_grid_cells in Hc. apply tiles_in_extent; lia. }
  assert (Hinv0 : copied_so_far s0 0 s0).
  { unfold copied_so_far, s0.
    cbn [overlap window_sz img_h img_w windows in_raster out_bands window_i out_raster].
    repeat split; try reflexivity.
    - unfold Create. cbn [raster_bands]. rewrite repeat_length. lia.
    - intros b y x Hb Hy Hx. exists 0. split; [now apply nth3_create|].
      intros [j [w [Hj _]]]. lia. }
  destruct (copy_loop s0 (range (len s0)) Hready 0%nat s0 Hinv0) as [s1 [Hrun Hinv1]].
  { rewrite range_length. unfold len. now rewrite Nat2Z.id. }
  exists s0, s1. split; [exact Einit|]. split.
  - unfold copy_through, bindM, get. cbv beta iota. unfold ok at 1. cbv beta iota. exact Hrun.
  - rewrite range_length in Hinv1. unfold len in Hinv1. rewrite Nat2Z.id in Hinv1.
    cbn [Nat.add] in Hinv1.
    destruct Hinv1 as [E1 [E2 [E3 [E4 [E5 [E6 [E7 [E8 [E9 [E10 [E11 Hpt]]]]]]]]]]].
    split.
    + unfold get_next, bindM, get, ret. cbv beta iota. unfold ok at 1. cbv beta iota.
      unfold len. rewrite E7, E8. now rewrite Z.eqb_refl.
    + intros b y x Hb Hy Hx.
      destruct (Hpt b y x Hb Hy Hx) as [v [Hv Himp]]. rewrite Hv. apply Himp.
      destruct (tiles_kept_cover H W T O y x HO HH HW Hy Hx) as [c [Hc Hk]].
      destruct (In_nth_error ws (tile H W T (T - O) c) (in_map _ _ _ Hc)) as [j Hj].
      exists j, (tile H W T (T - O) c). split; [|split; [exact Hj|]].
      * apply nth_error_Some. unfold s0. cbn [windows]. congruence.
      * apply kept_iff. exact Hk.
Qed.

End CopyThrough.

Lemma copy_through_copies_input_witness :
  exists s0 s1,
    RSImageSlideWindowManager.init demo_raster 1 4 2 = ok s0 /\
    RSImageSlideWindowManager.copy_through s0 = (s1, ok tt) /\
    RSImageSlideWindowManager.get_next s1 = (s1, ok None) /\
    forall b y x, 0 <= b < 1 -> 0 <= y < 6 -> 0 <= x < 6 ->
      nth3 (raster_bands (RSImageSlideWindowManager.out_raster s1)) b y x
      = option_map (fun p => p mod 256) (nth3 (raster_bands demo_raster) b y x).
Proof.
  apply (copy_through_copies_input demo_raster 1 4 2).
  - lia.
  - simpl. lia.
  - simpl. lia.
  - exact raster_ok_demo.
  - discriminate.
  - simpl. lia.
  - intros b y x v Hv.
    assert (Hin : In v (concat (map (@concat Z) (raster_bands demo_raster))))
      by (apply in_concat_nth3; now exists b, y, x).
    cbv in Hin. repeat (destruct Hin as [<-|Hin]; [lia|]). contradiction.
Defined.

(** ** Items of the dataset *)

Lemma index_in_range {A} (l : list A) (i : Z) :
  0 <= i < Z.of_nat (length l) -> exists a, index l i = Some a /\ In a l.
Proof.
  intros Hi. unfold index. destruct (Z.ltb_spec i 0); [lia|].
  destruct (nth_error l (Z.to_nat i)) as [a|] eqn:E;
    [|apply nth_error_None in E; lia].
  exists a. split; [reflexivity|]. now apply nth_error_In with (Z.to_nat i).
Qed.

Lemma index_negative {A} (l : list A) (i : Z) :
  - Z.of_nat (length l) <= i < 0 -> index l i = index l (i + Z.of_nat (length l)).
Proof.
  intros Hi. unfold index.
  destruct (Z.ltb_spec i 0); [|lia].
  destruct (Z.ltb_spec (i + Z.of_nat (length l)) 0); [lia|reflexivity].
Qed.

Lemma index_out_of_range {A} (l : list A) (i : Z) :
  i < - Z.of_nat (length l) \/ Z.of_nat (length l) <= i -> index l i = None.
Proof.
  intros Hi. unfold index.
  destruct (Z.ltb_spec i 0).
  - destruct (Z.ltb_spec (i + Z.of_nat (length l)) 0); [reflexivity|lia].
  - apply nth_error_None. lia.
Qed.

Section Items.
Import ImageDataset.

(** [__getitem__] on a dataset built over a well-shaped image with
    0 < O < T, T <= H, T <= W.  For 0 <= i < len it returns the transformed
    tile under the i-th kept window together with that window; the window
    lies in the extent, the tile has T rows of T pixels and its pixels do
    not sum to zero.  A negative index counts from the end, and an index
    outside [-len, len) raises IndexError. *)
Theorem getitem_serves_kept_tiles {X} (transform : list (list (list Z)) -> X)
    (im : image) (T O : Z) (self : t) (i : Z) :
  init im T O = ok self ->
  0 < O < T -> T <= im_h im -> T <= im_w im -> image_ok im ->
  (0 <= i < len self ->
   exists w,
     index (tile_coords self) i = Some w /\
     __getitem__ transform self i
     = ok (transform (crop2 (wy1 w) (wy2 w) (wx1 w) (wx2 w) (im_data im)), w) /\
     window_in_extent (im_h im) (im_w im) T w /\
     has_shape2 T T (crop2 (wy1 w) (wy2 w) (wx1 w) (wx2 w) (im_data im)) /\
     tile_sum (crop2 (wy1 w) (wy2 w) (wx1 w) (wx2 w) (im_data im)) <> 0) /\
  (- len self <= i < 0 ->
   __getitem__ transform self i = __getitem__ transform self (i + len self)) /\
  (i < - len self \/ len self <= i ->
   __getitem__ transform self i = raise IndexError).
Proof.
  intros Hinit HO HH HW Hok.
  unfold init in Hinit. rewrite get_tile_coordinates_filter in Hinit.
  rewrite create_windows_spec in Hinit by lia. cbn [bind ok] in Hinit.
  injection Hinit as <-.
  unfold len, __getitem__. cbn [tile_coords image_].
  set (coords := filter (nonzero_window im) _).
  split; [|split].
  - intros Hi. destruct (index_in_range coords i Hi) as [w [Hw Hin]].
    exists w. split; [exact Hw|]. rewrite Hw. split; [reflexivity|].
    unfold coords in Hin. apply filter_In in Hin. destruct Hin as [Hgrid Hnz].
    apply in_map_iff in Hgrid. destruct Hgrid as [c [<- Hc]].
    apply in_grid_cells in Hc.
    pose proof (tiles_in_extent (im_h im) (im_w im) T O c ltac:(lia) HH HW
                  ltac:(lia) ltac:(lia)) as Hext.
    split; [exact Hext|]. split.
    + destruct Hext as [W1 [W2 [W3 [W4 [W5 W6]]]]].
      set (w := tile _ _ _ _ c) in *.
      replace (wy2 w) with (wy1 w + T) by lia. replace (wx2 w) with (wx1 w + T) by lia.
      apply (has_shape2_crop2 (im_h im) (im_w im)); try assumption; lia.
    + unfold nonzero_window, region_sum in Hnz. unfold tile_sum.
      apply negb_true_iff in Hnz. now apply Z.eqb_neq in Hnz.
  - intros Hi. now rewrite index_negative by lia.
  - intros Hi. now rewrite index_out_of_range by lia.
Qed.

Lemma fold_add_acc (l : list Z) (a : Z) : fold_left Z.add l a = a + fold_left Z.add l 0.
Proof.
  revert a. induction l as [|b l IH]; intros a; simpl; [lia|].
  rewrite (IH (a + b)), (IH b). lia.
Qed.

Lemma sum_list_cons (a : Z) (l : list Z) : sum_list (a :: l) = a + sum_list l.
Proof. unfold sum_list. simpl. apply fold_add_acc. Qed.

(** A sum of non-negative terms is at least each of them. *)
Lemma sum_map_ge {A} (f : A -> Z) (l : list A) :
  (forall e, In e l -> 0 <= f e) ->
  0 <= sum_list (map f l) /\ forall a, In a l -> f a <= sum_list (map f l).
Proof.
  induction l as [|b l IH]; intros Hpos.
  - split; [reflexivity|intros a []].
  - destruct IH as [H0 Hge]; [intros e He; apply Hpos; now right|].
    pose proof (Hpos b (or_introl eq_refl)).
    cbn [map]. rewrite sum_list_cons. split; [lia|].
    intros a [<-|Ha]; [lia|]. specialize (Hge a Ha). lia.
Qed.

Lemma in_slice_at {A} (a b : Z) (l : list A) (n : Z) (x : A) :
  0 <= a <= n -> n < b -> b <= Z.of_nat (length l) ->
  nth_error l (Z.to_nat n) = Some x -> In x (slice a b l).
Proof.
  intros Ha Hn Hb Hx. apply nth_error_In with (Z.to_nat (n - a)).
  rewrite nth_error_slice by lia.
  destruct (Z.ltb_spec (Z.of_nat (Z.to_nat (n - a))) (b - a)); [|lia].
  rewrite <- Hx. f_equal. lia.
Qed.

(** Dropping the zero-sum windows loses nothing of a non-negative image:
    every pixel with a non-zero channel lies in at least one kept window. *)
Theorem nonzero_pixels_are_served (im : image) (T O : Z) (self : t) :
  init im T O = ok self ->
  0 < O < T -> T <= im_h im -> T <= im_w im -> image_ok im -> nonnegative im ->
  forall y x c v,
    nth3 (im_data im) y x c = Some v -> v <> 0 ->
    exists w, In w (tile_coords self) /\ in_window w y x.
Proof.
  intros Hinit HO HH HW [Hh Hw] Hpos y x c v Hv Hnz.
  unfold init in Hinit. rewrite get_tile_coordinates_filter in Hinit.
  rewrite create_windows_spec in Hinit by lia. cbn [bind ok] in Hinit.
  injection Hinit as <-. cbn [tile_coords].
  unfold nth3 in Hv. destruct (Z.ltb_spec y 0); [discriminate|].
  destruct (nth_error (im_data im) (Z.to_nat y)) as [row|] eqn:Erow; [|discriminate].
  unfold nth2 in Hv.
  destruct (Z.ltb_spec x 0); [discriminate|]. destruct (Z.ltb_spec c 0); [discriminate|].
  cbn [orb] in Hv.
  destruct (nth_error row (Z.to_nat x)) as [px|] eqn:Epx; [|discriminate].
  assert (Hy : 0 <= y < im_h im).
  { assert (Hn : nth_error (im_data im) (Z.to_nat y) <> None) by congruence.
    apply nth_error_Some in Hn. lia. }
  rewrite Forall_forall in Hw. pose proof (Hw row (nth_error_In _ _ Erow)) as Hrow.
  assert (Hx : 0 <= x < im_w im).
  { assert (Hn : nth_error row (Z.to_nat x) <> None) by congruence.
    apply nth_error_Some in Hn. lia. }
  destruct (axis_cover (im_h im) T (T - O) y ltac:(lia) HH Hy) as [i [Hi Hiy]].
  destruct (axis_cover (im_w im) T (T - O) x ltac:(lia) HW Hx) as [j [Hj Hjx]].
  pose proof (tiles_in_extent (im_h im) (im_w im) T O (i, j) ltac:(lia) HH HW
                ltac:(simpl; lia) ltac:(simpl; lia)) as [W1 [W2 [W3 [W4 [W5 W6]]]]].
  set (w := tile (im_h im) (im_w im) T (T - O) (i, j)) in *.
  assert (Hwin : in_window w y x).
  { unfold in_window, w, tile. cbn [wy1 wy2 wx1 wx2 fst snd]. lia. }
  exists w. split; [|exact Hwin].
  apply filter_In. split; [apply in_map; apply in_grid_cells; simpl; lia|].
  unfold nonzero_window, region_sum. apply negb_true_iff, Z.eqb_neq.
  destruct Hwin as [Hwy Hwx].
  unfold nonnegative in Hpos. rewrite Forall_forall in Hpos.
  assert (Hposrow : forall r, In r (im_data im) ->
                      forall p, In p r -> 0 <= sum_list p /\ forall e, In e p -> e <= sum_list p).
  { intros r Hr p Hp. specialize (Hpos r Hr). rewrite Forall_forall in Hpos.
    specialize (Hpos p Hp). rewrite Forall_forall in Hpos.
    pose proof (sum_map_ge (fun e => e) p Hpos) as Hs. rewrite map_id in Hs. exact Hs. }
  assert (Hcrow : In (slice (wx1 w) (wx2 w) row)
                     (crop2 (wy1 w) (wy2 w) (wx1 w) (wx2 w) (im_data im))).
  { unfold crop2. apply in_map. apply (in_slice_at _ _ _ y); try lia. exact Erow. }
  assert (Hcpx : In px (slice (wx1 w) (wx2 w) row)).
  { apply (in_slice_at _ _ _ x); try lia. exact Epx. }
  assert (Hvin : In v px) by (now apply nth_error_In with (Z.to_nat c)).
  assert (Hrowin : In row (im_data im)) by (now apply nth_error_In with (Z.to_nat y)).
  assert (Hpxin : In px row) by (now apply nth_error_In with (Z.to_nat x)).
  assert (Hv0 : 0 < v).
  { specialize (Hpos row Hrowin). rewrite Forall_forall in Hpos.
    specialize (Hpos px Hpxin). rewrite Forall_forall in Hpos.
    specialize (Hpos v Hvin). lia. }
  destruct (Hposrow row Hrowin px Hpxin) as [_ Hpxge]. specialize (Hpxge v Hvin).
  destruct (sum_map_ge sum_list (slice (wx1 w) (wx2 w) row)) as [_ Hrowge].
  { intros p Hp. apply in_slice in Hp. exact (proj1 (Hposrow row Hrowin p Hp)). }
  specialize (Hrowge px Hcpx).
  destruct (sum_map_ge (fun r => sum_list (map sum_list r))
              (crop2 (wy1 w) (wy2 w) (wx1 w) (wx2 w) (im_data im))) as [_ Htotal].
  { intros r Hr. unfold crop2 in Hr. apply in_map_iff in Hr.
    destruct Hr as [r0 [<- Hr0]]. apply in_slice in Hr0.
    apply (sum_map_ge sum_list). intros p Hp. apply in_slice in Hp.
    exact (proj1 (Hposrow r0 Hr0 p Hp)). }
  specialize (Htotal _ Hcrow). cbv beta in Htotal. lia.
Qed.

End Items.

(** With negative pixel values the filter can drop non-zero data: the only
    window of this 2 by 2 image sums to zero and is not kept. *)
Example signed_image_loses_pixels :
  ImageDataset.init (ImageDataset.Image 2 2 1 [[[1]; [-1]]; [[0]; [0]]]) 2 1
  = ok (ImageDataset.Make (ImageDataset.Image 2 2 1 [[[1]; [-1]]; [[0]; [0]]]) 2 1 []).
Proof. reflexivity. Qed.

Lemma image_ok_demo :
  ImageDataset.image_ok (ImageDataset.Image 2 3 1 [[[0]; [0]; [5]]; [[0]; [0]; [0]]]).
Proof. unfold ImageDataset.image_ok, has_shape2. simpl. split; [reflexivity|]. repeat constructor. Defined.

Lemma getitem_serves_kept_tiles_witness :
  let im := ImageDataset.Image 2 3 1 [[[0]; [0]; [5]]; [[0]; [0]; [0]]] in
  let self := ImageDataset.Make im 2 1 [Win 0 2 1 3] in
  let transform := fun tile : list (list (list Z)) => tile in
  (0 <= 0 < ImageDataset.len self ->
   exists w,
     index (ImageDataset.tile_coords self) 0 = Some w /\
     ImageDataset.__getitem__ transform self 0
     = ok (transform (crop2 (wy1 w) (wy2 w) (wx1 w) (wx2 w) (ImageDataset.im_data im)), w) /\
     window_in_extent 2 3 2 w /\
     has_shape2 2 2 (crop2 (wy1 w) (wy2 w) (wx1 w) (wx2 w) (ImageDataset.im_data im)) /\
     ImageDataset.tile_sum (crop2 (wy1 w) (wy2 w) (wx1 w) (wx2 w) (ImageDataset.im_data im))
     <> 0) /\
  (- ImageDataset.len self <= 0 < 0 ->
   ImageDataset.__getitem__ transform self 0
   = ImageDataset.__getitem__ transform self (0 + ImageDataset.len self)) /\
  (0 < - ImageDataset.len self \/ ImageDataset.len self <= 0 ->
   ImageDataset.__getitem__ transform self 0 = raise IndexError).
Proof.
  intros im self transform.
  apply (getitem_serves_kept_tiles transform im 2 1 self 0).
  - reflexivity.
  - lia.
  - simpl. lia.
  - simpl. lia.
  - exact image_ok_demo.
Defined.

Lemma nonzero_pixels_are_served_witness :
  let im := ImageDataset.Image 2 3 1 [[[0]; [0]; [5]]; [[0]; [0]; [0]]] in
  let self := ImageDataset.Make im 2 1 [Win 0 2 1 3] in
  exists w, In w (ImageDataset.tile_coords self) /\ in_window w 0 2.
Proof.
  intros im self.
  apply (nonzero_pixels_are_served im 2 1 self) with (c := 0) (v := 5).
  - reflexivity.
  - lia.
  - simpl. lia.
  - simpl. lia.
  - exact image_ok_demo.
  - unfold ImageDataset.nonnegative. simpl. repeat constructor; lia.
  - reflexivity.
  - lia.
Defined.

(** ** What one update adds *)

Lemma nth2_mapi2_all {A B} (f : Z -> Z -> A -> B) (m : list (list A)) (y x : Z) :
  nth2 (mapi (fun r row => mapi (f r) row) m) y x = option_map (f y x) (nth2 m y x).
Proof.
  destruct (Z.leb_spec 0 y);
    [|now rewrite (nth2_negative (mapi _ m)), (nth2_negative m) by lia].
  destruct (Z.leb_spec 0 x);
    [|now rewrite (nth2_negative (mapi _ m)), (nth2_negative m) by lia].
  now apply nth2_mapi2.
Qed.

Lemma option_map_ext {A B} (f g : A -> B) (o : option A) :
  (forall a, o = Some a -> f a = g a) -> option_map f o = option_map g o.
Proof. intros E. destruct o as [a|]; [|reflexivity]. simpl. f_equal. now apply E. Qed.

Section UpdateEffect.
Import WeightedPredictManager.

Variable F : Type.
Variable fzero : F.
Variable fadd fmul : F -> F -> F.

Lemma nth3_region_add (ys ye xs xe : Z) (d : Z -> Z -> Z -> F)
    (buf : list (list (list F))) (c y x : Z) :
  nth3 (region_add fadd ys ye xs xe d buf) c y x
  = option_map (fun old => if (ys <=? y) && (y <? ye) && (xs <=? x) && (x <? xe)
                           then fadd old (d c (y - ys) (x - xs)) else old)
               (nth3 buf c y x).
Proof.
  unfold nth3, region_add. destruct (Z.ltb_spec c 0); [reflexivity|].
  rewrite nth_error_mapi, Z2Nat.id by lia.
  destruct (nth_error buf (Z.to_nat c)) as [plane|]; [|reflexivity].
  cbn [option_map].
  apply (nth2_mapi2_all
           (fun y x old => if (ys <=? y) && (y <? ye) && (xs <=? x) && (x <? xe)
                           then fadd old (d c (y - ys) (x - xs)) else old)).
Qed.

Lemma bidx_in_range (d i : Z) : 0 <= i < d -> bidx d i = i.
Proof. intros Hi. unfold bidx. destruct (Z.eqb_spec d 1); lia. Qed.

(** A patch of shape (map_c, patch_h, patch_w) whose window lies inside the
    map is accepted by [update], which adds the kernel times the patch to
    the accumulator and the kernel to the weight map at the cells of the
    patch region, and leaves every other cell and every other field as it
    was. *)
Theorem update_adds_weighted_patch (self : t F) (pred : ndarray F) (w : window) :
  entry_fits self (pred, w) ->
  exists self',
    update_batch fzero fadd fmul [map_c self; patch_h self; patch_w self] [(pred, w)] self
    = (self', ok tt) /\
    same_dims self' self /\
    patch_weights self' = patch_weights self /\
    forall c y x,
      (0 <= c < map_c self ->
       nth3 (acc_map self') c y x
       = option_map
           (fun old => if in_patch (patch_h self) (patch_w self) w y x
                       then fadd old (fmul (kernel_at fzero (patch_weights self)
                                                      (y - wy1 w) (x - wx1 w))
                                           (item pred [c; y - wy1 w; x - wx1 w]))
                       else old)
           (nth3 (acc_map self) c y x)) /\
      nth3 (weight_map self') c y x
      = option_map
          (fun old => if in_patch (patch_h self) (patch_w self) w y x
                      then fadd old (kernel_at fzero (patch_weights self)
                                               (y - wy1 w) (x - wx1 w))
                      else old)
          (nth3 (weight_map self) c y x).
Proof.
  intros Hfit. eexists. split.
  - apply (update_batch_fits F fzero fadd fmul [(pred, w)] self self).
    + apply same_dims_refl.
    + now constructor.
  - unfold apply_entries. cbn [fold_left fst snd].
    split; [apply same_dims_apply_entry, same_dims_refl|]. split; [reflexivity|].
    intros c y x. unfold apply_entry. cbn [acc_map weight_map].
    rewrite !nth3_region_add. unfold in_patch. split.
    + intros Hc. apply option_map_ext. intros old _.
      destruct (Z.leb_spec (wy1 w) y); cbn [andb]; [|reflexivity].
      destruct (Z.ltb_spec y (wy1 w + patch_h self)); cbn [andb]; [|reflexivity].
      destruct (Z.leb_spec (wx1 w) x); cbn [andb]; [|reflexivity].
      destruct (Z.ltb_spec x (wx1 w + patch_w self)); cbn [andb]; [|reflexivity].
      unfold broadcast_at. cbn [v_c v_h v_w v_at].
      rewrite (bidx_in_range (map_c self) c) by lia.
      rewrite !(bidx_in_range (patch_h self) (y - wy1 w)) by lia.
      rewrite !(bidx_in_range (patch_w self) (x - wx1 w)) by lia.
      reflexivity.
    + apply option_map_ext. intros old _.
      destruct (Z.leb_spec (wy1 w) y); cbn [andb]; [|reflexivity].
      destruct (Z.ltb_spec y (wy1 w + patch_h self)); cbn [andb]; [|reflexivity].
      destruct (Z.leb_spec (wx1 w) x); cbn [andb]; [|reflexivity].
      destruct (Z.ltb_spec x (wx1 w + patch_w self)); cbn [andb]; [|reflexivity].
      unfold broadcast_at, kernel_values. cbn [v_c v_h v_w v_at].
      rewrite !(bidx_in_range (patch_h self) (y - wy1 w)) by lia.
      rewrite !(bidx_in_range (patch_w self) (x - wx1 w)) by lia.
      reflexivity.
Qed.

End UpdateEffect.

Lemma update_adds_weighted_patch_witness :
  WeightedPredictManager.entry_fits demo_accumulator demo_entry_left /\
  exists self',
    WeightedPredictManager.update_batch 0 Z.add Z.mul [1; 1; 2] [demo_entry_left]
      demo_accumulator
    = (self', ok tt) /\
    WeightedPredictManager.same_dims self' demo_accumulator /\
    WeightedPredictManager.patch_weights self' = [[[1; 1]]] /\
    forall c y x,
      (0 <= c < 1 ->
       nth3 (WeightedPredictManager.acc_map self') c y x
       = option_map
           (fun old => if in_patch 1 2 (Win 0 1 0 2) y x
                       then old + WeightedPredictManager.kernel_at 0 [[[1; 1]]] (y - 0) (x - 0)
                                  * 5
                       else old)
           (nth3 [[[0; 0; 0]; [0; 0; 0]]] c y x)) /\
      nth3 (WeightedPredictManager.weight_map self') c y x
      = option_map
          (fun old => if in_patch 1 2 (Win 0 1 0 2) y x
                      then old + WeightedPredictManager.kernel_at 0 [[[1; 1]]] (y - 0) (x - 0)
                      else old)
          (nth3 [[[0; 0; 0]; [0; 0; 0]]] c y x).
Proof.
  assert (Hfit : WeightedPredictManager.entry_fits demo_accumulator demo_entry_left)
    by (repeat split; simpl; lia).
  split; [exact Hfit|].
  exact (update_adds_weighted_patch Z 0 Z.add Z.mul demo_accumulator
           (fst demo_entry_left) (snd demo_entry_left) Hfit).
Defined.

(** ** Resetting the accumulator *)

Lemma map_mapi_from {A B C} (g : B -> C) (g' : A -> C) (f : Z -> A -> B) (l : list A) (k : Z) :
  (forall i a, g (f i a) = g' a) -> map g (mapi_from k f l) = map g' l.
Proof.
  intros E. revert k. induction l as [|a l IH]; intros k; simpl; [reflexivity|].
  now rewrite E, IH.
Qed.

Lemma for_each_keeps {S X} (P : S -> Prop) (body : X -> M S unit) (l : list X) :
  (forall x s, P s -> P (fst (body x s))) ->
  forall s, P s -> P (fst (for_each l body s)).
Proof.
  intros Hb. induction l as [|x l IH]; intros s Hs; simpl; [exact Hs|].
  unfold bindM. specialize (Hb x s Hs).
  destruct (body x s) as [s' [e|u]]; simpl in *; [exact Hb|]. now apply IH.
Qed.

Section Reset.
Import WeightedPredictManager.

Variable F : Type.
Variable fzero : F.
Variable fadd fmul : F -> F -> F.
Variable fsqrt : Z -> F.

Lemma zeroed_region_add (ys ye xs xe : Z) (d : Z -> Z -> Z -> F)
    (buf : list (list (list F))) :
  map (map (map (fun _ => fzero))) (region_add fadd ys ye xs xe d buf)
  = map (map (map (fun _ => fzero))) buf.
Proof.
  unfold region_add, mapi. apply map_mapi_from. intros ci plane.
  apply map_mapi_from. intros y row. apply map_mapi_from. reflexivity.
Qed.

Lemma zeroed_iadd_region (c h w y1 y2 x1 x2 : Z) (v : values F)
    (buf buf' : list (list (list F))) :
  iadd_region fadd c h w y1 y2 x1 x2 v buf = ok buf' ->
  map (map (map (fun _ => fzero))) buf' = map (map (map (fun _ => fzero))) buf.
Proof.
  unfold iadd_region.
  destruct (fits _ _ && fits _ _ && fits _ _); [|discriminate].
  intros E. injection E as <-. apply zeroed_region_add.
Qed.

Lemma same_frame_refl (s : t F) : same_frame fzero s s.
Proof. repeat split. Qed.

Lemma update_entry_frame (s0 : t F) (preds : ndarray F) (windows : list window) (i : Z)
    (s : t F) :
  same_frame fzero s0 s -> same_frame fzero s0 (fst (update_entry fzero fadd fmul preds windows i s)).
Proof.
  intros Hs. unfold update_entry, bindM, lift, get, put, throw.
  destruct (of_option IndexError (index windows i)) as [e|w]; [exact Hs|].
  cbv beta iota. unfold ok at 1. cbv beta iota.
  destruct ((wy1 w + patch_h s <=? map_h s) && (wx1 w + patch_w s <=? map_w s));
    [|exact Hs].
  destruct (mul_kernel fzero fmul s (subarray preds i)) as [e|v]; [exact Hs|].
  cbv beta iota.
  destruct (iadd_region fadd (map_c s) (map_h s) (map_w s) (wy1 w) (wy1 w + patch_h s)
              (wx1 w) (wx1 w + patch_w s) v (acc_map s)) as [e|a] eqn:Ea; [exact Hs|].
  cbv beta iota. unfold ok at 1 2. cbv beta iota.
  apply zeroed_iadd_region in Ea.
  assert (Hs1 : same_frame fzero s0 (set_acc_map s a)).
  { destruct Hs as [[D1 [D2 [D3 [D4 D5]]]] [H2 [H3 H4]]].
    repeat split; cbn [map_h map_w map_c patch_h patch_w acc_map weight_map patch_weights
                       set_acc_map]; congruence. }
  cbn [map_c map_h map_w patch_h patch_w set_acc_map weight_map].
  destruct (iadd_region fadd 1 (map_h s) (map_w s) (wy1 w) (wy1 w + patch_h s)
              (wx1 w) (wx1 w + patch_w s) _ (weight_map s)) as [e|b] eqn:Eb; [exact Hs1|].
  cbv beta iota. apply zeroed_iadd_region in Eb.
  destruct Hs1 as [[D1 [D2 [D3 [D4 D5]]]] [H2 [H3 H4]]].
  cbn [map_h map_w map_c patch_h patch_w acc_map weight_map patch_weights set_acc_map]
    in D1, D2, D3, D4, D5, H2, H3, H4.
  repeat split; cbn [fst map_h map_w map_c patch_h patch_w acc_map weight_map patch_weights
                     set_acc_map set_weight_map]; congruence.
Qed.

Lemma update_frame (s0 : t F) (preds : ndarray F) (windows : list window) (s : t F) :
  same_frame fzero s0 s -> same_frame fzero s0 (fst (update fzero fadd fmul preds windows s)).
Proof.
  intros Hs. unfold update. destruct (ndim preds =? 4); [|exact Hs].
  apply (for_each_keeps (same_frame fzero s0)); [|exact Hs].
  intros x s1. apply update_entry_frame.
Qed.

Lemma after_updates_frame (calls : list (ndarray F * list window)) (s0 s : t F) :
  same_frame fzero s0 s -> same_frame fzero s0 (after_updates fzero fadd fmul calls s).
Proof.
  revert s. induction calls as [|c calls IH]; intros s Hs; simpl; [exact Hs|].
  apply IH. now apply update_frame.
Qed.

Lemma zeroed_zeros3 (c h w : Z) :
  map (map (map (fun _ : F => fzero))) (zeros3 fzero c h w) = zeros3 fzero c h w.
Proof. unfold zeros3. now rewrite !map_repeat. Qed.

(** However many [update] calls were made on a freshly constructed
    accumulator, with whatever arguments and whether they returned or
    raised, [reset] puts the object back into the state the constructor
    left. *)
Theorem reset_restores_fresh_state (H W C ph pw : Z) (s0 : t F)
    (calls : list (ndarray F * list window)) :
  init fzero fsqrt H W C ph pw = ok s0 ->
  reset fzero (after_updates fzero fadd fmul calls s0) = (s0, ok tt).
Proof.
  intros Hinit. unfold init in Hinit.
  destruct ((C <? 0) || (H <? 0) || (W <? 0)); [discriminate|].
  destruct (patch_weight_kernel fsqrt ph pw) as [e|k]; [discriminate|].
  cbn [bind ok] in Hinit. injection Hinit as <-.
  set (s0 := Make H W C ph pw _ _ k).
  destruct (after_updates_frame calls s0 s0 (same_frame_refl s0))
    as [[D1 [D2 [D3 [D4 D5]]]] [Hk [Ha Hw]]].
  unfold reset, bindM, get, put. cbv beta iota. unfold ok at 1. cbv beta iota.
  rewrite D1, D2, D3, D4, D5, Hk, Ha, Hw. unfold s0.
  cbn [map_h map_w map_c patch_h patch_w acc_map weight_map patch_weights].
  now rewrite !zeroed_zeros3.
Qed.

End Reset.

Lemma reset_restores_fresh_state_witness :
  WeightedPredictManager.init 0 Z.sqrt 2 3 1 1 2 = ok demo_accumulator /\
  WeightedPredictManager.reset 0
    (after_updates 0 Z.add Z.mul [(demo_preds, demo_windows)] demo_accumulator)
  = (demo_accumulator, ok tt).
Proof.
  split; [reflexivity|].
  apply (reset_restores_fresh_state Z 0 Z.add Z.mul Z.sqrt 2 3 1 1 2). reflexivity.
Defined.

(** ** The two accumulators *)

Lemma bindM_ret_tt {S} (m : M S unit) (s : S) : (m ;;; ret tt) s = m s.
Proof. unfold bindM, ret, ok. destruct (m s) as [s' [e|[]]]; reflexivity. Qed.

Section TwoAccumulators.

Variable F : Type.
Variable fzero : F.
Variable fadd fmul : F -> F -> F.

(** For a patch of three dimensions, [CenterClippingPredictManager.update]
    at the offsets (yoff, xoff) does what [WeightedPredictManager.update]
    does with the batch holding that one patch and a window that starts at
    (yoff, xoff): the same outcome, exception or not, and the same object
    left behind. The window's far corner plays no part. *)
Theorem center_clipping_update_is_single_update
    (pred : WeightedPredictManager.ndarray F) (yoff xoff y2 x2 : Z)
    (self : WeightedPredictManager.t F) :
  WeightedPredictManager.ndim pred = 3 ->
  CenterClippingPredictManager.update fzero fadd fmul pred yoff xoff self
  = WeightedPredictManager.update fzero fadd fmul
      (WeightedPredictManager.stack fzero (WeightedPredictManager.shape pred) [pred])
      [Win yoff y2 xoff x2] self.
Proof.
  intros Hnd. destruct pred as [sh it]. unfold WeightedPredictManager.ndim in Hnd.
  cbn [WeightedPredictManager.shape] in *.
  destruct sh as [|c [|h [|w [|d sh]]]]; simpl in Hnd; try lia.
  unfold WeightedPredictManager.update.
  change (WeightedPredictManager.ndim _ =? 4) with true. cbv iota.
  change (range _) with [0]. cbn [for_each]. rewrite bindM_ret_tt.
  reflexivity.
Qed.

End TwoAccumulators.

Lemma center_clipping_update_is_single_update_witness :
  WeightedPredictManager.ndim (fst demo_entry_left) = 3 /\
  CenterClippingPredictManager.update 0 Z.add Z.mul (fst demo_entry_left) 0 0 demo_accumulator
  = WeightedPredictManager.update 0 Z.add Z.mul
      (WeightedPredictManager.stack 0 (WeightedPredictManager.shape (fst demo_entry_left))
         [fst demo_entry_left])
      [Win 0 1 0 2] demo_accumulator.
Proof.
  split; [reflexivity|].
  apply (center_clipping_update_is_single_update Z 0 Z.add Z.mul (fst demo_entry_left)
           0 0 1 2 demo_accumulator).
  reflexivity.
Defined.

(** ** Offsets counted from the far edge *)

Lemma slice_bound_wrapped (len i : Z) : - len <= i < 0 -> slice_bound len i = i + len.
Proof. intros H. unfold slice_bound. destruct (Z.ltb_spec i 0); lia. Qed.

Section NegativeOffsets.

Variable F : Type.
Variable fzero : F.
Variable fadd fmul : F -> F -> F.

Lemma iadd_region_wrapped_rows (c h w y1 ph x1 x2 : Z) (v : WeightedPredictManager.values F)
    (buf : list (list (list F))) :
  0 <= ph -> - h <= y1 -> y1 + ph < 0 ->
  WeightedPredictManager.iadd_region fadd c h w y1 (y1 + ph) x1 x2 v buf
  = WeightedPredictManager.iadd_region fadd c h w (y1 + h) (y1 + h + ph) x1 x2 v buf.
Proof.
  intros Hph Hy1 Hy2. unfold WeightedPredictManager.iadd_region.
  rewrite (slice_bound_wrapped h y1), (slice_bound_wrapped h (y1 + ph)) by lia.
  rewrite (slice_bound_inside h (y1 + h)), (slice_bound_inside h (y1 + h + ph)) by lia.
  replace (y1 + ph + h) with (y1 + h + ph) by lia. reflexivity.
Qed.

(** The assertion of [update] bounds the patch region from above only. A
    negative row offset whose patch region ends before row 0 is accepted
    and taken from the bottom edge, as Python slices do: the patch is added
    at the rows yoff + map_h onward, exactly as if that offset had been
    passed. *)
Theorem update_negative_offset_wraps
    (pred : WeightedPredictManager.ndarray F) (yoff xoff : Z)
    (self : WeightedPredictManager.t F) :
  0 <= WeightedPredictManager.patch_h self ->
  - WeightedPredictManager.map_h self <= yoff ->
  yoff + WeightedPredictManager.patch_h self < 0 ->
  CenterClippingPredictManager.update fzero fadd fmul pred yoff xoff self
  = CenterClippingPredictManager.update fzero fadd fmul pred
      (yoff + WeightedPredictManager.map_h self) xoff self.
Proof.
  intros Hph Hy1 Hy2. unfold CenterClippingPredictManager.update, bindM, get, lift, put.
  cbv beta iota. unfold ok at 1 5. cbv beta iota.
  destruct (Z.leb_spec (yoff + WeightedPredictManager.patch_h self)
                       (WeightedPredictManager.map_h self)); [|lia].
  destruct (Z.leb_spec (yoff + WeightedPredictManager.map_h self
                        + WeightedPredictManager.patch_h self)
                       (WeightedPredictManager.map_h self)); [|lia].
  cbn [andb].
  destruct (xoff + WeightedPredictManager.patch_w self <=? WeightedPredictManager.map_w self);
    [|reflexivity].
  destruct (CenterClippingPredictManager.mul_kernel fzero fmul self pred) as [e|v];
    [reflexivity|].
  cbv beta iota.
  rewrite (iadd_region_wrapped_rows (WeightedPredictManager.map_c self)) by assumption.
  destruct (WeightedPredictManager.iadd_region fadd (WeightedPredictManager.map_c self) _ _ _ _
              _ _ v _) as [e|a]; [reflexivity|].
  cbv beta iota. unfold ok at 1 2 4 5. cbv beta iota.
  cbn [WeightedPredictManager.map_h WeightedPredictManager.map_w
       WeightedPredictManager.patch_h WeightedPredictManager.patch_w
       WeightedPredictManager.weight_map WeightedPredictManager.set_acc_map].
  rewrite (iadd_region_wrapped_rows 1) by assumption.
  reflexivity.
Qed.

End NegativeOffsets.

Lemma update_negative_offset_wraps_witness :
  (0 <= WeightedPredictManager.patch_h demo_accumulator /\
   - WeightedPredictManager.map_h demo_accumulator <= -2 /\
   -2 + WeightedPredictManager.patch_h demo_accumulator < 0) /\
  CenterClippingPredictManager.update 0 Z.add Z.mul (fst demo_entry_left) (-2) 0
    demo_accumulator
  = CenterClippingPredictManager.update 0 Z.add Z.mul (fst demo_entry_left)
      (-2 + WeightedPredictManager.map_h demo_accumulator) 0 demo_accumulator.
Proof.
  split; [simpl; lia|].
  apply (update_negative_offset_wraps Z 0 Z.add Z.mul (fst demo_entry_left) (-2) 0
           demo_accumulator); simpl; lia.
Defined.

(** ** The kernel in closed form *)

Lemma has_shape2_mapi_rows {A B} (g : Z -> list A -> list B) (h w : Z) (m : list (list A)) :
  (forall y row, length (g y row) = length row) ->
  has_shape2 h w m -> has_shape2 h w (mapi g m).
Proof.
  intros Hg [Hh Hw]. split; [now rewrite mapi_length|].
  apply Forall_forall. intros row Hrow. apply in_mapi in Hrow.
  destruct Hrow as [n [row0 [Hn ->]]]. rewrite Hg.
  rewrite Forall_forall in Hw. apply Hw. now apply nth_error_In with n.
Qed.

Lemma has_shape2_map_rows {A B} (g : list A -> list B) (h w : Z) (m : list (list A)) :
  (forall row, length (g row) = length row) ->
  has_shape2 h w m -> has_shape2 h w (map g m).
Proof.
  intros Hg Hm. rewrite map_as_mapi. now apply has_shape2_mapi_rows.
Qed.

Lemma has_shape2_ones (rows cols : Z) :
  0 <= rows -> 0 <= cols -> has_shape2 rows cols (ones rows cols).
Proof.
  intros Hr Hc. unfold ones. split.
  - rewrite repeat_length. lia.
  - apply Forall_forall. intros row Hrow. apply repeat_spec in Hrow. subst row.
    rewrite repeat_length. lia.
Qed.

Lemma zero_row_shape (rows i h w : Z) (a a' : list (list Z)) :
  zero_row rows i a = ok a' -> has_shape2 h w a -> has_shape2 h w a'.
Proof.
  unfold zero_row. destruct (_ && _); [|discriminate]. intros E. injection E as <-.
  apply has_shape2_mapi_rows. intros y row.
  destruct (y =? norm_index rows i); [apply length_map|reflexivity].
Qed.

Lemma zero_col_shape (cols j h w : Z) (a a' : list (list Z)) :
  zero_col cols j a = ok a' -> has_shape2 h w a -> has_shape2 h w a'.
Proof.
  unfold zero_col. destruct (_ && _); [|discriminate]. intros E. injection E as <-.
  apply has_shape2_map_rows. intros row. apply mapi_length.
Qed.

Lemma bordered_ones_shape (ph pw : Z) (a : list (list Z)) :
  bordered_ones ph pw = ok a -> has_shape2 (ph + 2) (pw + 2) a.
Proof.
  unfold bordered_ones.
  destruct (Z.ltb_spec (ph + 2) 0); [discriminate|].
  destruct (Z.ltb_spec (pw + 2) 0); [discriminate|]. cbn [orb].
  pose proof (has_shape2_ones (ph + 2) (pw + 2) ltac:(lia) ltac:(lia)) as Hones.
  destruct (zero_row (ph + 2) 0 _) as [e|a1] eqn:E1; [discriminate|].
  apply zero_row_shape with (h := ph + 2) (w := pw + 2) in E1; [|exact Hones].
  cbn [bind].
  destruct (zero_row (ph + 2) (-1) a1) as [e|a2] eqn:E2; [discriminate|].
  apply zero_row_shape with (h := ph + 2) (w := pw + 2) in E2; [|exact E1].
  cbn [bind].
  destruct (zero_col (pw + 2) 0 a2) as [e|a3] eqn:E3; [discriminate|].
  apply zero_col_shape with (h := ph + 2) (w := pw + 2) in E3; [|exact E2].
  cbn [bind]. intros E4.
  now apply zero_col_shape with (h := ph + 2) (w := pw + 2) in E4.
Qed.

Lemma nth2_some_in_shape {A} (h w : Z) (m : list (list A)) (y x : Z) (v : A) :
  has_shape2 h w m -> nth2 m y x = Some v -> 0 <= y < h /\ 0 <= x < w.
Proof.
  intros [Hh Hw] Hv. unfold nth2 in Hv.
  destruct (Z.ltb_spec y 0); [discriminate|]. destruct (Z.ltb_spec x 0); [discriminate|].
  cbn [orb] in Hv.
  destruct (nth_error m (Z.to_nat y)) as [row|] eqn:Erow; [|discriminate].
  assert (Hy : (Z.to_nat y < length m)%nat) by (apply nth_error_Some; congruence).
  assert (Hx : (Z.to_nat x < length row)%nat) by (apply nth_error_Some; congruence).
  rewrite Forall_forall in Hw. specialize (Hw row (nth_error_In _ _ Erow)). lia.
Qed.

Lemma slice_inner_length {A} (l : list A) :
  (2 <= length l)%nat -> length (slice 1 (-1) l) = (length l - 2)%nat.
Proof.
  intros Hl. unfold slice, slice_bound.
  change (1 <? 0) with false. change (-1 <? 0) with true. cbv iota.
  rewrite length_firstn, length_skipn. lia.
Qed.

Lemma has_shape2_crop_inner {A} (h w : Z) (m : list (list A)) :
  2 <= h -> 2 <= w -> has_shape2 h w m -> has_shape2 (h - 2) (w - 2) (crop2 1 (-1) 1 (-1) m).
Proof.
  intros Hh2 Hw2 [Hh Hw]. unfold crop2. split.
  - rewrite length_map, slice_inner_length by lia. lia.
  - apply Forall_forall. intros row Hrow. apply in_map_iff in Hrow.
    destruct Hrow as [row0 [<- Hin]].
    assert (Hin0 : In row0 m) by (now apply in_slice in Hin).
    rewrite Forall_forall in Hw. specialize (Hw row0 Hin0).
    rewrite slice_inner_length by lia. lia.
Qed.

Lemma edt_sq_shape (h w : Z) (a : list (list Z)) :
  has_shape2 h w a -> has_shape2 h w (edt_sq a).
Proof.
  intros Ha. unfold edt_sq. apply has_shape2_mapi_rows; [|exact Ha].
  intros y row. apply mapi_length.
Qed.

(** The squared kernel has [ph] rows of [pw] cells, and each cell holds the
    square of its distance to the nearest cell outside the patch. *)
Lemma kernel_sq_closed_form (ph pw : Z) :
  1 <= ph -> 1 <= pw ->
  exists K, kernel_sq ph pw = ok K /\ has_shape2 ph pw K /\
    forall i j, 0 <= i < ph -> 0 <= j < pw ->
      nth2 K i j = Some (edge_distance ph pw i j * edge_distance ph pw i j).
Proof.
  intros Hph Hpw.
  destruct (bordered_ones_spec ph pw ltac:(lia) ltac:(lia)) as [a [Ea Ha]].
  pose proof (bordered_ones_shape ph pw a Ea) as Hshape.
  unfold kernel_sq. rewrite Ea. cbn [bind ok]. eexists. split; [reflexivity|]. split.
  { replace ph with (ph + 2 - 2) at 1 by lia. replace pw with (pw + 2 - 2) at 1 by lia.
    apply has_shape2_crop_inner; try lia. now apply edt_sq_shape. }
  intros i j Hi Hj.
  assert (Hcell : forall y x, 0 <= y < ph + 2 -> 0 <= x < pw + 2 ->
                              nth2 (edt_sq a) y x <> None).
  { intros y x Hy Hx. rewrite nth2_edt_sq, Ha by lia. discriminate. }
  rewrite nth2_crop_inner by (try apply Hcell; lia).
  rewrite nth2_edt_sq, Ha by lia.
  rewrite border_cell_inner by lia. cbn [option_map]. change (1 =? 0) with false. cbv iota.
  f_equal. set (m := edge_distance ph pw i j).
  assert (Hm : 1 <= m /\ m <= i + 1 /\ m <= ph - i /\ m <= j + 1 /\ m <= pw - j)
    by (unfold m, edge_distance; lia).
  apply list_min_eq.
  - assert (Hzero : forall r c, 0 <= r < ph + 2 -> 0 <= c < pw + 2 ->
                      r = 0 \/ r = ph + 2 - 1 \/ c = 0 \/ c = pw + 2 - 1 ->
                      sq_dist (i + 1) (j + 1) (r, c) = m * m ->
                      In (m * m) (map (sq_dist (i + 1) (j + 1)) (zero_cells a))).
    { intros r c Hr Hc Hb E. rewrite <- E. apply in_map. apply in_zero_cells.
      split; [lia|]. split; [lia|]. rewrite Ha by lia. now rewrite border_cell_border. }
    assert (Hcase : m = i + 1 \/ m = ph - i \/ m = j + 1 \/ m = pw - j)
      by (unfold m, edge_distance; lia).
    destruct Hcase as [E | [E | [E | E]]].
    + apply (Hzero 0 (j + 1)); try lia. unfold sq_dist. cbn [fst snd]. rewrite E. ring.
    + apply (Hzero (ph + 1) (j + 1)); try lia. unfold sq_dist. cbn [fst snd]. rewrite E. ring.
    + apply (Hzero (i + 1) 0); try lia. unfold sq_dist. cbn [fst snd]. rewrite E. ring.
    + apply (Hzero (i + 1) (pw + 1)); try lia. unfold sq_dist. cbn [fst snd]. rewrite E. ring.
  - intros e He. apply in_map_iff in He. destruct He as [[r c] [<- Hrc]].
    apply in_zero_cells in Hrc. destruct Hrc as [_ [_ Hrc]].
    destruct (nth2_some_in_shape _ _ _ _ _ _ Hshape Hrc) as [Hr Hc].
    rewrite Ha in Hrc by lia. injection Hrc as Hrc.
    unfold border_cell in Hrc. unfold sq_dist. cbn [fst snd].
    pose proof (Z.square_nonneg (i + 1 - r)). pose proof (Z.square_nonneg (j + 1 - c)).
    destruct (Z.eqb_spec r 0) as [E | ?].
    { assert (m * m <= (i + 1 - r) * (i + 1 - r)) by (rewrite E; nia). lia. }
    destruct (Z.eqb_spec r (ph + 2 - 1)) as [E | ?].
    { assert (m * m <= (i + 1 - r) * (i + 1 - r)) by (rewrite E; nia). lia. }
    destruct (Z.eqb_spec c 0) as [E | ?].
    { assert (m * m <= (j + 1 - c) * (j + 1 - c)) by (rewrite E; nia). lia. }
    destruct (Z.eqb_spec c (pw + 2 - 1)) as [E | ?].
    { assert (m * m <= (j + 1 - c) * (j + 1 - c)) by (rewrite E; nia). lia. }
    cbn [orb] in Hrc. discriminate.
Qed.

Lemma sqrtZ_square (m : Z) : 0 <= m -> sqrtZ (m * m) = IZR m.
Proof.
  intros Hm. unfold sqrtZ. rewrite mult_IZR. apply sqrt_square. now apply IZR_le.
Qed.

(** For a patch of [ph >= 1] rows and [pw >= 1] columns the constructor
    computes a kernel of exactly that shape whose cell (i, j) holds
    min(i + 1, ph - i, j + 1, pw - j): its distance to the nearest cell
    outside the patch. *)
Theorem kernel_is_edge_distance (ph pw : Z) :
  1 <= ph -> 1 <= pw ->
  exists K,
    WeightedPredictManager.patch_weight_kernel sqrtZ ph pw = ok [K] /\
    has_shape2 ph pw K /\
    forall i j, 0 <= i < ph -> 0 <= j < pw ->
      nth2 K i j = Some (IZR (edge_distance ph pw i j)).
Proof.
  intros Hph Hpw. destruct (kernel_sq_closed_form ph pw Hph Hpw) as [K [EK [Hs HK]]].
  unfold WeightedPredictManager.patch_weight_kernel. rewrite EK. cbn [bind ok].
  eexists. split; [reflexivity|]. split; [now apply has_shape2_map|].
  intros i j Hi Hj. rewrite nth2_map2, (HK i j Hi Hj). cbn [option_map]. f_equal.
  apply sqrtZ_square. unfold edge_distance. lia.
Qed.

Lemma kernel_is_edge_distance_witness :
  (1 <= 3 /\ 1 <= 4) /\
  exists K,
    WeightedPredictManager.patch_weight_kernel sqrtZ 3 4 = ok [K] /\
    has_shape2 3 4 K /\
    forall i j, 0 <= i < 3 -> 0 <= j < 4 ->
      nth2 K i j = Some (IZR (edge_distance 3 4 i j)).
Proof. split; [lia|]. apply (kernel_is_edge_distance 3 4); lia. Defined.

(** ** The weight map after a batch *)

Lemma nth3_zeros3 {F} (fzero : F) (c h w b y x : Z) :
  0 <= b < c -> 0 <= y < h -> 0 <= x < w ->
  nth3 (WeightedPredictManager.zeros3 fzero c h w) b y x = Some fzero.
Proof.
  intros Hb Hy Hx. rewrite nth3_eq by lia. unfold WeightedPredictManager.zeros3.
  rewrite nth_error_repeat by lia. rewrite nth2_eq by lia.
  rewrite nth_error_repeat by lia. apply nth_error_repeat. lia.
Qed.

Lemma weight_map_apply_entry {F} (fzero : F) (fadd fmul : F -> F -> F)
    (s : WeightedPredictManager.t F) (pred : WeightedPredictManager.ndarray F) (w : window)
    (c y x : Z) :
  nth3 (WeightedPredictManager.weight_map
          (WeightedPredictManager.apply_entry fzero fadd fmul s pred w)) c y x
  = option_map
      (fun old => if in_patch (WeightedPredictManager.patch_h s)
                              (WeightedPredictManager.patch_w s) w y x
                  then fadd old (WeightedPredictManager.kernel_at fzero
                                   (WeightedPredictManager.patch_weights s)
                                   (y - wy1 w) (x - wx1 w))
                  else old)
      (nth3 (WeightedPredictManager.weight_map s) c y x).
Proof.
  unfold WeightedPredictManager.apply_entry. cbn [WeightedPredictManager.weight_map].
  rewrite nth3_region_add. unfold in_patch. apply option_map_ext. intros old _.
  destruct (Z.leb_spec (wy1 w) y); cbn [andb]; [|reflexivity].
  destruct (Z.ltb_spec y (wy1 w + WeightedPredictManager.patch_h s)); cbn [andb];
    [|reflexivity].
  destruct (Z.leb_spec (wx1 w) x); cbn [andb]; [|reflexivity].
  destruct (Z.ltb_spec x (wx1 w + WeightedPredictManager.patch_w s)); cbn [andb];
    [|reflexivity].
  unfold WeightedPredictManager.broadcast_at, WeightedPredictManager.kernel_values.
  cbn [WeightedPredictManager.v_c WeightedPredictManager.v_h WeightedPredictManager.v_w
       WeightedPredictManager.v_at].
  rewrite !(bidx_in_range (WeightedPredictManager.patch_h s) (y - wy1 w)) by lia.
  rewrite !(bidx_in_range (WeightedPredictManager.patch_w s) (x - wx1 w)) by lia.
  reflexivity.
Qed.

Section WeightMap.
Import WeightedPredictManager.

Variables H W ph pw : Z.
Variable s0 : t R.
Hypothesis Hph : patch_h s0 = ph.
Hypothesis Hpw : patch_w s0 = pw.
Hypothesis Hkernel : forall dy dx, 0 <= dy < ph -> 0 <= dx < pw ->
  (1 <= kernel_at 0%R (patch_weights s0) dy dx)%R.

Lemma weights_after_entries (es done : list (entry R)) (s : t R) :
  same_dims s s0 -> patch_weights s = patch_weights s0 ->
  (forall y x, 0 <= y < H -> 0 <= x < W ->
     exists wv, nth3 (weight_map s) 0 y x = Some wv /\
       if existsb (fun e => in_patch ph pw (snd e) y x) done
       then (1 <= wv)%R else wv = 0%R) ->
  forall y x, 0 <= y < H -> 0 <= x < W ->
    exists wv, nth3 (weight_map (apply_entries 0%R Rplus Rmult es s)) 0 y x = Some wv /\
      if existsb (fun e => in_patch ph pw (snd e) y x) (done ++ es)
      then (1 <= wv)%R else wv = 0%R.
Proof.
  revert done s. induction es as [|e es IH]; intros done s Hd Hk Hinv.
  - rewrite app_nil_r. exact Hinv.
  - replace (done ++ e :: es) with ((done ++ [e]) ++ es) by now rewrite <- app_assoc.
    unfold apply_entries. cbn [fold_left].
    apply IH; [now apply same_dims_apply_entry|exact Hk|].
    intros y x Hy Hx. destruct (Hinv y x Hy Hx) as [wv [Hwv Hold]].
    rewrite weight_map_apply_entry, Hwv. cbn [option_map].
    destruct Hd as [_ [_ [_ [D4 D5]]]]. rewrite D4, D5, Hk, Hph, Hpw.
    rewrite existsb_app. cbn [existsb]. rewrite orb_false_r.
    eexists. split; [reflexivity|].
    destruct (in_patch ph pw (snd e) y x) eqn:Ein.
    + rewrite orb_true_r.
      assert (1 <= kernel_at 0%R (patch_weights s0) (y - wy1 (snd e)) (x - wx1 (snd e)))%R
        as HK.
      { unfold in_patch in Ein. apply andb_prop in Ein. destruct Ein as [Ein E4].
        apply andb_prop in Ein. destruct Ein as [Ein E3].
        apply andb_prop in Ein. destruct Ein as [E1 E2].
        apply Hkernel; lia. }
      revert Hold.
      match goal with |- (if ?b then _ else _) -> _ => destruct b end; intros Hold.
      * apply Rle_trans with (wv + 0)%R; [rewrite Rplus_0_r; exact Hold|].
        apply Rplus_le_compat_l. apply Rle_trans with 1%R; [apply Rle_0_1|exact HK].
      * cbv iota in Hold. subst wv. rewrite Rplus_0_l. exact HK.
    + rewrite orb_false_r. exact Hold.
Qed.

End WeightMap.

(** In exact arithmetic: after a batch of fitting patches has been added to
    a freshly constructed accumulator, the weight map (the denominator of
    [get_result]) holds at least 1 at every pixel that lies in the patch
    region of some window of the batch, and exactly 0 at every other
    pixel. *)
Theorem weight_map_positive_where_covered (H W C ph pw : Z)
    (s0 : WeightedPredictManager.t R) (es : list (WeightedPredictManager.entry R)) :
  1 <= ph -> 1 <= pw ->
  WeightedPredictManager.init 0%R sqrtZ H W C ph pw = ok s0 ->
  Forall (WeightedPredictManager.entry_fits s0) es ->
  exists s,
    WeightedPredictManager.update_batch 0%R Rplus Rmult [C; ph; pw] es s0 = (s, ok tt) /\
    forall y x, 0 <= y < H -> 0 <= x < W ->
      exists wv,
        nth3 (WeightedPredictManager.weight_map s) 0 y x = Some wv /\
        if existsb (fun e => in_patch ph pw (snd e) y x) es
        then (1 <= wv)%R else wv = 0%R.
Proof.
  intros Hph Hpw Hinit Hfit. unfold WeightedPredictManager.init in Hinit.
  destruct ((C <? 0) || (H <? 0) || (W <? 0)); [discriminate|].
  destruct (kernel_sq_closed_form ph pw Hph Hpw) as [K [EK [_ HK]]].
  unfold WeightedPredictManager.patch_weight_kernel in Hinit. rewrite EK in Hinit.
  cbn [bind ok] in Hinit. injection Hinit as <-.
  set (s0 := WeightedPredictManager.Make H W C ph pw _ _ _) in *.
  exists (WeightedPredictManager.apply_entries 0%R Rplus Rmult es s0). split.
  - apply (update_batch_fits R 0%R Rplus Rmult es s0 s0); [apply same_dims_refl|exact Hfit].
  - apply (weights_after_entries H W ph pw s0 eq_refl eq_refl) with (done := []).
    + intros dy dx Hdy Hdx. unfold WeightedPredictManager.kernel_at, s0.
      cbn [WeightedPredictManager.patch_weights hd].
      rewrite nth2_map2, (HK dy dx Hdy Hdx). cbn [option_map].
      rewrite sqrtZ_square by (unfold edge_distance; lia).
      apply IZR_le. unfold edge_distance. lia.
    + apply same_dims_refl.
    + reflexivity.
    + intros y x Hy Hx. exists 0%R. split; [|reflexivity].
      unfold s0. cbn [WeightedPredictManager.weight_map]. apply nth3_zeros3; lia.
Qed.

Lemma weight_map_positive_where_covered_witness :
  let s0 := WeightedPredictManager.Make 2 3 1 1 2
              (WeightedPredictManager.zeros3 0%R 1 2 3)
              (WeightedPredictManager.zeros3 0%R 1 2 3) [[[sqrtZ 1; sqrtZ 1]]] in
  let es := [(WeightedPredictManager.NdArray [1; 1; 2] (fun _ => 1%R), Win 0 1 0 2)] in
  (1 <= 1 /\ 1 <= 2 /\
   WeightedPredictManager.init 0%R sqrtZ 2 3 1 1 2 = ok s0 /\
   Forall (WeightedPredictManager.entry_fits s0) es) /\
  exists s,
    WeightedPredictManager.update_batch 0%R Rplus Rmult [1; 1; 2] es s0 = (s, ok tt) /\
    forall y x, 0 <= y < 2 -> 0 <= x < 3 ->
      exists wv,
        nth3 (WeightedPredictManager.weight_map s) 0 y x = Some wv /\
        if existsb (fun e => in_patch 1 2 (snd e) y x) es
        then (1 <= wv)%R else wv = 0%R.
Proof.
  intros s0 es.
  assert (Hinit : WeightedPredictManager.init 0%R sqrtZ 2 3 1 1 2 = ok s0) by reflexivity.
  assert (Hfit : Forall (WeightedPredictManager.entry_fits s0) es).
  { constructor; [|constructor]. repeat split; simpl; lia. }
  split; [repeat split; try lia; assumption|].
  apply (weight_map_positive_where_covered 2 3 1 1 2 s0 es); try lia; assumption.
Defined.
